(** * BrainstormAI chat server: response interpretation and intent routing

    A shallow embedding of [formatResponse] and [talkAs] (server/aiAgent.js),
    of the [/chat] route handler and of the other routes of server/index.js
    over the calendar service, with the properties of the specification and
    further properties of the code stated over the embedding.

    JavaScript strings are sequences of UTF-16 code units; a code unit is a
    binary natural number.  The regular expressions of the source are kept
    as data ([regex]) and run by a backtracking matcher that follows the
    order of alternatives of the ECMAScript semantics. *)

From Stdlib Require Import List NArith ZArith Bool String Ascii Lia.
From Stdlib Require Import DecimalString.
Import ListNotations.

Set Warnings "-register-all".

(** ** Strings *)

Definition char := N.
Definition jsstring := list char.

Definition str (s : string) : jsstring :=
  map N_of_ascii (list_ascii_of_string s).

Definition jsstring_eqb (a b : jsstring) : bool :=
  if list_eq_dec N.eq_dec a b then true else false.

(** [\s]: WhiteSpace and LineTerminator code points. *)
Definition isSpace (c : char) : bool :=
  ((9 <=? c) && (c <=? 13) || (c =? 32) || (c =? 160) || (c =? 5760)
   || (8192 <=? c) && (c <=? 8202) || (c =? 8232) || (c =? 8233)
   || (c =? 8239) || (c =? 8287) || (c =? 12288) || (c =? 65279))%N.

(** [\d] *)
Definition isDigit (c : char) : bool := ((48 <=? c) && (c <=? 57))%N.

(** [.] without the s flag: anything but a line terminator. *)
Definition isDot (c : char) : bool :=
  negb ((c =? 10) || (c =? 13) || (c =? 8232) || (c =? 8233))%N.

(** [[\s\S]] *)
Definition isAny (c : char) : bool := isSpace c || negb (isSpace c).

(** [[\*\-]] *)
Definition isStarOrDash (c : char) : bool := ((c =? 42) || (c =? 45))%N.

(** Canonicalize of the i flag (no u flag): a code unit is compared through
    its upper case, and a code unit outside ASCII never folds onto an ASCII
    one, so against the ASCII literals of this program only a-z fold. *)
Definition upper (c : char) : char :=
  if ((97 <=? c) && (c <=? 122))%N then (c - 32)%N else c.

Definition chr_eqb (ci : bool) (a b : char) : bool :=
  if ci then (upper a =? upper b)%N else (a =? b)%N.

Fixpoint dropWhile (p : char -> bool) (s : jsstring) : jsstring :=
  match s with
  | [] => []
  | c :: t => if p c then dropWhile p t else s
  end.

(** String.prototype.trim *)
Definition trim (s : jsstring) : jsstring :=
  rev (dropWhile isSpace (rev (dropWhile isSpace s))).

(** String.prototype.includes *)
Fixpoint prefixb (p s : jsstring) : bool :=
  match p, s with
  | [], _ => true
  | _ :: _, [] => false
  | a :: p', b :: s' => (a =? b)%N && prefixb p' s'
  end.

Fixpoint includes (s p : jsstring) : bool :=
  prefixb p s || match s with [] => false | _ :: t => includes t p end.

(** String.prototype.substring on indices in order, clamped to the length. *)
Definition substring (s : jsstring) (a b : nat) : jsstring :=
  firstn (b - a) (skipn a s).

Definition substringFrom (s : jsstring) (a : nat) : jsstring := skipn a s.

(** Decimal rendering of a number in a template literal. *)
Definition decimal (n : nat) : jsstring :=
  str (NilZero.string_of_uint (Nat.to_uint n)).

(** ** Regular expressions *)

Inductive regex : Type :=
| Lit (ci : bool) (s : jsstring)
| Cls (p : char -> bool)
| StarG (p : char -> bool)
| PlusG (p : char -> bool)
| StarL (p : char -> bool)
| Grp (r : regex)
| Seq (r1 r2 : regex)
| Alt (r1 r2 : regex)
| Look (r : regex)
| Eos.

(** A match state: what is left of the input, and capture group 1. *)
Definition mstate : Type := jsstring * option jsstring.
Definition cont : Type := jsstring -> option jsstring -> option mstate.

Fixpoint litMatch (ci : bool) (p s : jsstring) : option jsstring :=
  match p, s with
  | [], _ => Some s
  | _ :: _, [] => None
  | a :: p', b :: s' => if chr_eqb ci a b then litMatch ci p' s' else None
  end.

Fixpoint starG (p : char -> bool) (s : jsstring) (cap : option jsstring)
  (k : cont) : option mstate :=
  match s with
  | c :: t =>
      if p c then
        match starG p t cap k with
        | Some x => Some x
        | None => k s cap
        end
      else k s cap
  | [] => k s cap
  end.

Fixpoint starL (p : char -> bool) (s : jsstring) (cap : option jsstring)
  (k : cont) : option mstate :=
  match k s cap with
  | Some x => Some x
  | None =>
      match s with
      | c :: t => if p c then starL p t cap k else None
      | [] => None
      end
  end.

Fixpoint rmatch (r : regex) (s : jsstring) (cap : option jsstring)
  (k : cont) : option mstate :=
  match r with
  | Lit ci p =>
      match litMatch ci p s with
      | Some s' => k s' cap
      | None => None
      end
  | Cls p =>
      match s with
      | c :: t => if p c then k t cap else None
      | [] => None
      end
  | StarG p => starG p s cap k
  | PlusG p =>
      match s with
      | c :: t => if p c then starG p t cap k else None
      | [] => None
      end
  | StarL p => starL p s cap k
  | Grp r1 =>
      rmatch r1 s cap
        (fun s' _ => k s' (Some (firstn (List.length s - List.length s') s)))
  | Seq r1 r2 => rmatch r1 s cap (fun s' cap' => rmatch r2 s' cap' k)
  | Alt r1 r2 =>
      match rmatch r1 s cap k with
      | Some x => Some x
      | None => rmatch r2 s cap k
      end
  | Look r1 =>
      match rmatch r1 s cap (fun s' cap' => Some (s', cap')) with
      | Some (_, cap') => k s cap'
      | None => None
      end
  | Eos => match s with [] => k s cap | _ :: _ => None end
  end.

(** A match tried at the head of [s]. *)
Definition matchAt (r : regex) (s : jsstring) : option mstate :=
  rmatch r s None (fun s' cap => Some (s', cap)).

(** RegExp.prototype.exec without the g flag: the leftmost match. *)
Fixpoint exec (r : regex) (s : jsstring) : option mstate :=
  match matchAt r s with
  | Some x => Some x
  | None =>
      match s with
      | [] => None
      | _ :: t => exec r t
      end
  end.

(** [s.match(r)[1]] when the match exists; group 1 takes part in every
    match of the expressions below. *)
Definition match1 (r : regex) (s : jsstring) : option jsstring :=
  match exec r s with
  | Some (_, Some c) => Some c
  | Some (_, None) => Some []
  | None => None
  end.

(** String.prototype.split with a regular expression and no limit.
    [cur] holds, reversed, the piece being read; [skip] counts the code
    units of a delimiter still to pass. *)
Fixpoint split_go (r : regex) (s : jsstring) (skip : nat) (cur : jsstring)
  : list jsstring :=
  match s with
  | [] => [rev cur]
  | c :: t =>
      match skip with
      | S n => split_go r t n cur
      | O =>
          match matchAt r s with
          | Some (s', _) =>
              match List.length s - List.length s' with
              | O =>
                  match cur with
                  | [] => split_go r t 0 [c]
                  | _ :: _ => rev cur :: split_go r t 0 [c]
                  end
              | S n => rev cur :: split_go r t n []
              end
          | None => split_go r t 0 (c :: cur)
          end
      end
  end.

Definition split (r : regex) (s : jsstring) : list jsstring :=
  match s with
  | [] => match matchAt r [] with Some _ => [] | None => [[]] end
  | _ :: _ => split_go r s 0 []
  end.

(** String.prototype.replace with a g-flagged expression and a constant
    replacement. *)
Fixpoint replace_go (r : regex) (repl : jsstring) (s : jsstring) (skip : nat)
  : jsstring :=
  match s with
  | [] => match skip with
          | O => match matchAt r [] with Some _ => repl | None => [] end
          | S _ => []
          end
  | c :: t =>
      match skip with
      | S n => replace_go r repl t n
      | O =>
          match matchAt r s with
          | Some (s', _) =>
              match List.length s - List.length s' with
              | O => repl ++ c :: replace_go r repl t 0
              | S n => repl ++ replace_go r repl t n
              end
          | None => c :: replace_go r repl t 0
          end
      end
  end.

Definition replaceAll (r : regex) (repl : jsstring) (s : jsstring) : jsstring :=
  replace_go r repl s 0.

(** ** The idea formatter: [formatResponse] *)

Definition nl : jsstring := [10%N].

Definition reWhitespaceRun : regex := PlusG isSpace.           (* /\s+/g *)
Definition reStarOrDash : regex := Cls isStarOrDash.           (* /[\*\-]/g *)

(** [/\d+\.\s*Idea Name:/] *)
Definition reIdeaSplit : regex :=
  Seq (PlusG isDigit) (Seq (Lit false (str "."))
    (Seq (StarG isSpace) (Lit false (str "Idea Name:")))).

(** [/label\s*(.*?)(?=\s*next|$)/i] *)
Definition reField (label next : string) : regex :=
  Seq (Lit true (str label)) (Seq (StarG isSpace)
    (Seq (Grp (StarL isDot))
       (Look (Alt (Seq (StarG isSpace) (Lit true (str next))) Eos)))).

Definition reIdeaName := reField "Idea Name:" "Concept:".
Definition reConcept := reField "Concept:" "Key Features:".
Definition reKeyFeatures := reField "Key Features:" "Target Market:".
Definition reTargetMarket := reField "Target Market:" "Unique Value Proposition:".
Definition reUsp := reField "Unique Value Proposition:" "Monetization:".
Definition reMonetization :=
  reField "Monetization:" "Potential Challenges/Considerations:".
Definition reChallenges :=
  reField "Potential Challenges/Considerations:" "Summary:".

(** The expression of the summary, with the i flag: the literal summary: ,
    then [\s*], then group 1 holding a greedy run of [.] *)
Definition reSummary : regex :=
  Seq (Lit true (str "summary:")) (Seq (StarG isSpace) (Grp (StarG isDot))).

Record IdeaRecord : Type := mkIdea {
  ideaName : jsstring;
  concept : jsstring;
  keyFeatures : jsstring;
  targetMarket : jsstring;
  usp : jsstring;
  monetization : jsstring;
  challenges : jsstring;
  summary : jsstring
}.

Definition NA : jsstring := str "N/A".

Definition orNA (m : option jsstring) : jsstring :=
  match m with
  | Some c => trim c
  | None => NA
  end.

(** The body of the [forEach] callback up to the template: the record read
    from one block.  [index] is the 0-based position of the block. *)
Definition parseBlock (block : jsstring) (index : nat) : IdeaRecord :=
  let fullBlock := str "Idea Name:" ++ trim block in
  {| ideaName :=
       match match1 reIdeaName fullBlock with
       | Some c => trim (replaceAll reStarOrDash [] c)
       | None => str "Idea " ++ decimal (index + 1)
       end;
     concept := orNA (match1 reConcept fullBlock);
     keyFeatures := orNA (match1 reKeyFeatures fullBlock);
     targetMarket := orNA (match1 reTargetMarket fullBlock);
     usp := orNA (match1 reUsp fullBlock);
     monetization := orNA (match1 reMonetization fullBlock);
     challenges := orNA (match1 reChallenges fullBlock);
     summary := orNA (match1 reSummary fullBlock) |}.

(** The template literal appended to [textOutput] for one record. *)
Definition renderIdea (index : nat) (r : IdeaRecord) : jsstring :=
  nl ++ str "**" ++ decimal (index + 1) ++ str ". Idea Name:** " ++ ideaName r
  ++ nl ++ nl ++ str "  **Concept:** " ++ concept r
  ++ nl ++ nl ++ str "  **Key Features:** " ++ keyFeatures r
  ++ nl ++ nl ++ str "  **Target Market:** " ++ targetMarket r
  ++ nl ++ nl ++ str "  **Unique Value Proposition:** " ++ usp r
  ++ nl ++ nl ++ str "  **Monetization:** " ++ monetization r
  ++ nl ++ nl ++ str "  **Potential Challenges/Considerations:** " ++ challenges r
  ++ nl ++ nl ++ str "  **Summary:** " ++ summary r
  ++ nl ++ nl ++ str "---" ++ nl.

Definition isBlank (s : jsstring) : bool :=
  match trim s with [] => true | _ :: _ => false end.

Definition cleanText (text : jsstring) : jsstring :=
  trim (replaceAll reWhitespaceRun (str " ") text).

(** [cleanedText.split(...).filter(block => block.trim() !== '')] *)
Definition ideaBlocks (text : jsstring) : list jsstring :=
  filter (fun block => negb (isBlank block)) (split reIdeaSplit (cleanText text)).

(** The records of the blocks, in the order of [forEach]. *)
Fixpoint parseBlocks (blocks : list jsstring) (index : nat) : list IdeaRecord :=
  match blocks with
  | [] => []
  | b :: rest => parseBlock b index :: parseBlocks rest (S index)
  end.

Fixpoint renderIdeas (rs : list IdeaRecord) (index : nat) : jsstring :=
  match rs with
  | [] => []
  | r :: rest => renderIdea index r ++ renderIdeas rest (S index)
  end.

Definition ideaRecords (text : jsstring) : list IdeaRecord :=
  parseBlocks (ideaBlocks text) 0.

Definition formatResponse (text : jsstring) : jsstring :=
  trim (renderIdeas (ideaRecords text) 0).

(** ** JavaScript values read from JSON, and completions *)

(** A number literal is kept exactly, as [mant * 10 ^ exp]. An array also
    carries the named properties assigned to it after parsing. *)
Inductive json : Type :=
| JNull
| JBool (b : bool)
| JNum (mant exp : Z)
| JStr (s : jsstring)
| JArr (elems : list json) (props : list (jsstring * json))
| JObj (props : list (jsstring * json)).

(** A statement or call either completes normally or throws an error whose
    [message] is carried. *)
Inductive completion (A : Type) : Type :=
| Normal (a : A)
| Throw (message : jsstring).
Arguments Normal {A} a.
Arguments Throw {A} message.

Definition bind {A B : Type} (c : completion A) (f : A -> completion B)
  : completion B :=
  match c with
  | Normal a => f a
  | Throw m => Throw m
  end.

Notation "x <- c ;; f" := (bind c (fun x => f))
  (at level 61, c at next level, right associativity).

(** *** JSON.parse *)

Definition isJsonWs (c : char) : bool :=
  ((c =? 32) || (c =? 9) || (c =? 10) || (c =? 13))%N.

Definition hexVal (c : char) : option N :=
  if isDigit c then Some (c - 48)%N
  else if ((97 <=? c) && (c <=? 102))%N then Some (c - 87)%N
  else if ((65 <=? c) && (c <=? 70))%N then Some (c - 55)%N
  else None.

Definition hex4 (a b c d : char) : option char :=
  match hexVal a, hexVal b, hexVal c, hexVal d with
  | Some x, Some y, Some z, Some w => Some (((x * 16 + y) * 16 + z) * 16 + w)%N
  | _, _, _, _ => None
  end.

(** The characters of a string literal after its opening quote. *)
Fixpoint parseChars (s : jsstring) (skip : nat) (esc : bool) (acc : jsstring)
  : option (jsstring * jsstring) :=
  match s with
  | [] => None
  | c :: t =>
      match skip with
      | S n => parseChars t n false acc
      | O =>
          if esc then
            if (c =? 34)%N then parseChars t 0 false (34%N :: acc)
            else if (c =? 92)%N then parseChars t 0 false (92%N :: acc)
            else if (c =? 47)%N then parseChars t 0 false (47%N :: acc)
            else if (c =? 98)%N then parseChars t 0 false (8%N :: acc)
            else if (c =? 102)%N then parseChars t 0 false (12%N :: acc)
            else if (c =? 110)%N then parseChars t 0 false (10%N :: acc)
            else if (c =? 114)%N then parseChars t 0 false (13%N :: acc)
            else if (c =? 116)%N then parseChars t 0 false (9%N :: acc)
            else if (c =? 117)%N then
              match t with
              | a :: b :: d :: e :: _ =>
                  match hex4 a b d e with
                  | Some u => parseChars t 4 false (u :: acc)
                  | None => None
                  end
              | _ => None
              end
            else None
          else if (c =? 34)%N then Some (rev acc, t)
          else if (c =? 92)%N then parseChars t 0 true acc
          else if (c <? 32)%N then None
          else parseChars t 0 false (c :: acc)
      end
  end.

Fixpoint takeDigits (s : jsstring) (acc : Z) (n : Z) : Z * Z * jsstring :=
  match s with
  | c :: t =>
      if isDigit c then takeDigits t (acc * 10 + Z.of_N (c - 48)) (n + 1)
      else (acc, n, s)
  | [] => (acc, n, s)
  end.

(** A number literal: [-? int frac? exp?]. *)
Definition parseSign (s : jsstring) : bool * jsstring :=
  match s with
  | c :: t => if (c =? 45)%N then (true, t) else (false, s)
  | [] => (false, s)
  end.

Definition parseInt (s : jsstring) : option (Z * jsstring) :=
  match s with
  | c :: t =>
      if (c =? 48)%N then Some (0%Z, t)
      else if isDigit c then
        let '(v, _, r) := takeDigits s 0 0 in Some (v, r)
      else None
  | [] => None
  end.

(** The mantissa with the digits of the fraction, and their number. *)
Definition parseFrac (iv : Z) (s : jsstring) : option (Z * Z * jsstring) :=
  match s with
  | c :: t =>
      if (c =? 46)%N then
        let '(v, n, r) := takeDigits t iv 0 in
        if (n =? 0)%Z then None else Some (v, n, r)
      else Some (iv, 0%Z, s)
  | [] => Some (iv, 0%Z, s)
  end.

Definition parseExp (s : jsstring) : option (Z * jsstring) :=
  match s with
  | c :: t =>
      if ((c =? 101) || (c =? 69))%N then
        let '(eneg, t1) :=
          match t with
          | d :: u =>
              if (d =? 45)%N then (true, u)
              else if (d =? 43)%N then (false, u)
              else (false, t)
          | [] => (false, t)
          end in
        let '(ev, n, r) := takeDigits t1 0 0 in
        if (n =? 0)%Z then None
        else Some ((if eneg then - ev else ev)%Z, r)
      else Some (0%Z, s)
  | [] => Some (0%Z, s)
  end.

Definition parseNumber (s : jsstring) : option (json * jsstring) :=
  let '(neg, s1) := parseSign s in
  match parseInt s1 with
  | None => None
  | Some (iv, s2) =>
      match parseFrac iv s2 with
      | None => None
      | Some (m, fl, s3) =>
          match parseExp s3 with
          | None => None
          | Some (e, s4) =>
              Some (JNum (if neg then - m else m)%Z (e - fl)%Z, s4)
          end
      end
  end.

(** Defining a property: a name already there keeps its place and takes the
    new value, which is also what a repeated member of an object literal
    does in JSON.parse. *)
Fixpoint setProps (props : list (jsstring * json)) (k : jsstring) (x : json)
  : list (jsstring * json) :=
  match props with
  | [] => [(k, x)]
  | (k', v) :: rest =>
      if jsstring_eqb k' k then (k', x) :: rest
      else (k', v) :: setProps rest k x
  end.

Definition skipWs (s : jsstring) : jsstring := dropWhile isJsonWs s.

(** The next code unit that is not white space is [c]; what follows it. *)
Definition expect (c : char) (s : jsstring) : option jsstring :=
  match skipWs s with
  | x :: t => if (x =? c)%N then Some t else None
  | [] => None
  end.

(** Values, array elements and object members; [fuel] bounds the number of
    nested and successive calls, and a value that is read takes no more
    fuel than it has code units. *)
Fixpoint parseValue (fuel : nat) (s : jsstring) : option (json * jsstring) :=
  match fuel with
  | O => None
  | S f =>
      match skipWs s with
      | [] => None
      | c :: t =>
          if (c =? 123)%N then
            match expect 125%N t with
            | Some t' => Some (JObj [], t')
            | None => parseMembers f t []
            end
          else if (c =? 91)%N then
            match expect 93%N t with
            | Some t' => Some (JArr [] [], t')
            | None => parseElements f t []
            end
          else if (c =? 34)%N then
            match parseChars t 0 false [] with
            | Some (v, r) => Some (JStr v, r)
            | None => None
            end
          else if (c =? 116)%N then
            match litMatch false (str "rue") t with
            | Some r => Some (JBool true, r)
            | None => None
            end
          else if (c =? 102)%N then
            match litMatch false (str "alse") t with
            | Some r => Some (JBool false, r)
            | None => None
            end
          else if (c =? 110)%N then
            match litMatch false (str "ull") t with
            | Some r => Some (JNull, r)
            | None => None
            end
          else parseNumber (c :: t)
      end
  end
with parseElements (fuel : nat) (s : jsstring) (acc : list json)
  : option (json * jsstring) :=
  match fuel with
  | O => None
  | S f =>
      match parseValue f s with
      | Some (v, r) =>
          match expect 44%N r with
          | Some r' => parseElements f r' (v :: acc)
          | None =>
              match expect 93%N r with
              | Some r' => Some (JArr (rev (v :: acc)) [], r')
              | None => None
              end
          end
      | None => None
      end
  end
with parseMembers (fuel : nat) (s : jsstring) (acc : list (jsstring * json))
  : option (json * jsstring) :=
  match fuel with
  | O => None
  | S f =>
      match expect 34%N s with
      | Some t =>
          match parseChars t 0 false [] with
          | Some (key, r) =>
              match expect 58%N r with
              | Some r1 =>
                  match parseValue f r1 with
                  | Some (v, r2) =>
                      match expect 44%N r2 with
                      | Some r3 => parseMembers f r3 (setProps acc key v)
                      | None =>
                          match expect 125%N r2 with
                          | Some r3 => Some (JObj (setProps acc key v), r3)
                          | None => None
                          end
                      end
                  | None => None
                  end
              | None => None
              end
          | None => None
          end
      | None => None
      end
  end.

(** JSON.parse: one value, then only white space; anything else is a
    SyntaxError. *)
Definition JSON_parse (s : jsstring) : completion json :=
  match parseValue (S (List.length s)) s with
  | Some (v, r) =>
      match skipWs r with
      | [] => Normal v
      | _ :: _ => Throw (str "Unexpected non-whitespace character after JSON")
      end
  | None => Throw (str "Unexpected token in JSON")
  end.

(** *** Reading values *)

(** ToBoolean. A number is falsy when it is zero, also after rounding to a
    double: a magnitude of at most 2^-1075 rounds to zero. *)
Definition truthy (v : json) : bool :=
  match v with
  | JNull => false
  | JBool b => b
  | JNum m e =>
      if (m =? 0)%Z then false
      else if (0 <=? e)%Z then true
      else (10 ^ (- e) <? Z.abs m * 2 ^ 1075)%Z
  | JStr s => match s with [] => false | _ :: _ => true end
  | JArr _ _ => true
  | JObj _ => true
  end.

(** The properties of an object, in insertion order, each name once. *)
Fixpoint lookupProp (props : list (jsstring * json)) (k : jsstring)
  : option json :=
  match props with
  | [] => None
  | (k', v) :: rest => if jsstring_eqb k' k then Some v else lookupProp rest k
  end.

(** [v.k] for a name [k] that no prototype defines ([None] is undefined).
    Reading a property of null throws. *)
Definition getProp (v : json) (k : jsstring) : completion (option json) :=
  match v with
  | JNull => Throw (str "Cannot read properties of null")
  | JObj props => Normal (lookupProp props k)
  | JArr _ props => Normal (lookupProp props k)
  | JBool _ | JNum _ _ | JStr _ => Normal None
  end.

(** [v.k = x] in non-strict code: the assignment to a property of a
    primitive is dropped. *)
Definition setProp (v : json) (k : jsstring) (x : json) : json :=
  match v with
  | JObj props => JObj (setProps props k x)
  | JArr elems props => JArr elems (setProps props k x)
  | _ => v
  end.

Definition truthyOpt (o : option json) : bool :=
  match o with
  | Some v => truthy v
  | None => false
  end.

(** ** Dates

    A Date is its time value: milliseconds since the epoch, UTC.  The time
    zone of the host is its LocalTZA: [tz t true] is the offset of local
    time, in milliseconds, at the instant [t], and [tz t false] the offset
    with which the local time value [t] is read (where a change of the
    offset skips or repeats local times, the host has chosen one). *)

Local Open Scope Z_scope.

Definition msPerDay : Z := 86400000.
Definition msPerHour : Z := 3600000.
Definition msPerMinute : Z := 60000.
Definition msPerSecond : Z := 1000.

Definition Day (t : Z) : Z := t / msPerDay.
Definition TimeWithinDay (t : Z) : Z := t mod msPerDay.

(** Year, month (1..12) and day of the month (1..31) of a day number. *)
Definition civilFromDays (days : Z) : Z * Z * Z :=
  let z := days + 719468 in
  let era := z / 146097 in
  let doe := z - era * 146097 in
  let yoe := (doe - doe / 1460 + doe / 36524 - doe / 146096) / 365 in
  let doy := doe - (365 * yoe + yoe / 4 - yoe / 100) in
  let mp := (5 * doy + 2) / 153 in
  let d := doy - (153 * mp + 2) / 5 + 1 in
  let m := if mp <? 10 then mp + 3 else mp - 9 in
  let y := yoe + era * 400 + (if m <=? 2 then 1 else 0) in
  (y, m, d).

(** The day number of the given day of a month (1..12) of a year. *)
Definition daysFromCivil (y m d : Z) : Z :=
  let y' := if m <=? 2 then y - 1 else y in
  let era := y' / 400 in
  let yoe := y' - era * 400 in
  let mp := if 2 <? m then m - 3 else m + 9 in
  let doy := (153 * mp + 2) / 5 + d - 1 in
  let doe := yoe * 365 + yoe / 4 - yoe / 100 + doy in
  era * 146097 + doe - 719468.

Definition TimeZone : Type := Z -> bool -> Z.

(** A zone without changes of its offset. *)
Definition fixedZone (offset : Z) : TimeZone := fun _ _ => offset.

Definition LocalTime (tz : TimeZone) (t : Z) : Z := t + tz t true.
Definition UTC (tz : TimeZone) (t : Z) : Z := t - tz t false.

(** Date.prototype.getDate and getHours *)
Definition getDate (tz : TimeZone) (t : Z) : Z :=
  let '(_, _, d) := civilFromDays (Day (LocalTime tz t)) in d.

Definition getHours (tz : TimeZone) (t : Z) : Z :=
  TimeWithinDay (LocalTime tz t) / msPerHour.

(** Date.prototype.setDate(dt): MakeDay of the local year and month with the
    new day of the month, a day past the end of the month running into the
    next one; the time within the day is kept. *)
Definition setDate (tz : TimeZone) (t dt : Z) : Z :=
  let lt := LocalTime tz t in
  let '(y, m, _) := civilFromDays (Day lt) in
  UTC tz ((daysFromCivil y m 1 + dt - 1) * msPerDay + TimeWithinDay lt).

(** Date.prototype.setHours(h, m, s, ms) *)
Definition setHours4 (tz : TimeZone) (t h m s ms : Z) : Z :=
  let lt := LocalTime tz t in
  UTC tz (Day lt * msPerDay
          + (h * msPerHour + m * msPerMinute + s * msPerSecond + ms)).

(** Date.prototype.setHours(h): minutes, seconds and milliseconds are kept. *)
Definition setHours1 (tz : TimeZone) (t h : Z) : Z :=
  let lt := LocalTime tz t in
  UTC tz (Day lt * msPerDay + (h * msPerHour + TimeWithinDay lt mod msPerHour)).

Definition pad (width : nat) (n : Z) : jsstring :=
  let digits := decimal (Z.to_nat n) in
  repeat 48%N (width - List.length digits) ++ digits.

(** Date.prototype.toISOString of a valid time value. *)
Definition toISOString (t : Z) : jsstring :=
  let '(y, m, d) := civilFromDays (Day t) in
  let w := TimeWithinDay t in
  (if (0 <=? y) && (y <=? 9999) then pad 4 y
   else (if y <? 0 then str "-" else str "+") ++ pad 6 (Z.abs y))
  ++ str "-" ++ pad 2 m ++ str "-" ++ pad 2 d
  ++ str "T" ++ pad 2 (w / msPerHour) ++ str ":"
  ++ pad 2 (w mod msPerHour / msPerMinute) ++ str ":"
  ++ pad 2 (w mod msPerMinute / msPerSecond) ++ str "."
  ++ pad 3 (w mod msPerSecond) ++ str "Z".

Local Close Scope Z_scope.

(** ** The agent: [talkAs] *)

(** A text written with ' where the JavaScript text has a double quote. *)
Definition strq (s : string) : jsstring :=
  map (fun c => if (c =? 39)%N then 34%N else c) (str s).

Record Tokens : Type := mkTokens {
  access_token : option jsstring;
  refresh_token : option jsstring;
  expiry_date : option Z
}.

(** What the template literal of the confirmation reads of the created
    event. *)
Record CalendarEvent : Type := mkEvent {
  ev_summary : jsstring;
  ev_htmlLink : jsstring
}.

(** The collaborators of one request.  [generateContent k] is the outcome of
    the k-th call of the model (its text, or the error thrown by the call or
    by reading the text); [createCalendarEvent k] is the calendar service at
    that attempt; [clock k] is what [new Date()] reads there. *)
Record World : Type := mkWorld {
  generateContent : nat -> completion jsstring;
  createCalendarEvent : nat -> Tokens -> json -> completion CalendarEvent;
  clock : nat -> Z;
  tzOffset : TimeZone;
  currentTimeZone : jsstring
}.

(** The fenced block: three backticks and json, [\s*], group 1 holding an
    opening brace, a lazy run of [[\s\S]] and a closing brace, [\s*], three
    backticks. *)
Definition reJsonFence : regex :=
  Seq (Lit false (str "```json")) (Seq (StarG isSpace)
    (Seq (Grp (Seq (Lit false (str "{"))
                 (Seq (StarL isAny) (Lit false (str "}")))))
       (Seq (StarG isSpace) (Lit false (str "```"))))).

Definition authMessage : jsstring :=
  str "I can help schedule that, but I need access to your Google Calendar. Please connect your Google account first by visiting /auth/google/calendar.".

(** The template literal of the confirmation; the summary stands between
    double quotes. *)
Definition confirmation (event : CalendarEvent) : jsstring :=
  str "I've successfully added " ++ [34%N] ++ ev_summary event
  ++ [34%N] ++ str " to your Google Calendar! You can view it here: "
  ++ ev_htmlLink event.

(** [!userAuthTokens || !userAuthTokens.access_token] *)
Definition authMissing (userAuthTokens : option Tokens) : bool :=
  match userAuthTokens with
  | None => true
  | Some t =>
      match access_token t with
      | None => true
      | Some [] => true
      | Some (_ :: _) => false
      end
  end.

(** [o.k] where [o] may be undefined. *)
Definition member (o : option json) (k : jsstring) : completion (option json) :=
  match o with
  | Some v => getProp v k
  | None => Throw (str "Cannot read properties of undefined")
  end.

Definition orElse (o : option json) (d : json) : json :=
  match o with
  | Some v => if truthy v then v else d
  | None => d
  end.

(** The condition of the defaults:
    [!e.start || !e.end || !e.start.dateTime || !e.end.dateTime]. *)
Definition needsDefaults (eventDetails : json) : completion bool :=
  st <- getProp eventDetails (str "start") ;;
  if negb (truthyOpt st) then Normal true else
  en <- getProp eventDetails (str "end") ;;
  if negb (truthyOpt en) then Normal true else
  sdt <- member st (str "dateTime") ;;
  if negb (truthyOpt sdt) then Normal true else
  edt <- member en (str "dateTime") ;;
  Normal (negb (truthyOpt edt)).

Definition defaultStart (tz : TimeZone) (now : Z) : Z :=
  setHours4 tz (setDate tz now (getDate tz now + 1)) 9 0 0 0.

Definition defaultEnd (tz : TimeZone) (now : Z) : Z :=
  let s := defaultStart tz now in
  setHours1 tz s (getHours tz s + 1).

Definition slot (dateTime : jsstring) (timeZone : json) : json :=
  JObj [(str "dateTime", JStr dateTime); (str "timeZone", timeZone)].

(** The defaults of the event times. *)
Definition applyDefaults (tz : TimeZone) (now : Z)
  (fallbackTimeZone : jsstring)
  (eventDetails : json) : completion json :=
  need <- needsDefaults eventDetails ;;
  if need then
    z1 <- getProp eventDetails (str "timeZone") ;;
    let e1 := setProp eventDetails (str "start")
                (slot (toISOString (defaultStart tz now))
                      (orElse z1 (JStr fallbackTimeZone))) in
    z2 <- getProp e1 (str "timeZone") ;;
    Normal (setProp e1 (str "end")
              (slot (toISOString (defaultEnd tz now))
                    (orElse z2 (JStr fallbackTimeZone))))
  else Normal eventDetails.

(** [dt.includes(x)]: of a string, of an array; no other value has the
    method. *)
Definition jsIncludes (dt : json) (x : jsstring) : completion bool :=
  match dt with
  | JStr s => Normal (includes s x)
  | JArr elems _ =>
      Normal (existsb (fun e => match e with
                                | JStr s => jsstring_eqb s x
                                | _ => false
                                end) elems)
  | _ => Throw (str "dt.includes is not a function")
  end.

(** The template literal that rewrites a compact time stamp. *)
Definition compactToIso (dt : jsstring) : jsstring :=
  substring dt 0 4 ++ str "-" ++ substring dt 4 6 ++ str "-"
  ++ substring dt 6 8 ++ str "T" ++ substring dt 9 11 ++ str ":"
  ++ substring dt 11 13 ++ str ":" ++ substring dt 13 15
  ++ substringFrom dt 15.

(** [dt.substring(...)]: only a string has the method. *)
Definition jsCompactToIso (dt : json) : completion jsstring :=
  match dt with
  | JStr s => Normal (compactToIso s)
  | _ => Throw (str "dt.substring is not a function")
  end.

(** The repair of [eventDetails.start.dateTime] ([which] is start) or of
    [eventDetails.end.dateTime]. *)
Definition repairDateTime (which : jsstring) (eventDetails : json)
  : completion json :=
  s <- getProp eventDetails which ;;
  if negb (truthyOpt s) then Normal eventDetails else
  dt <- member s (str "dateTime") ;;
  if negb (truthyOpt dt) then Normal eventDetails else
  let dtv := orElse dt JNull in
  hasDash <- jsIncludes dtv (str "-") ;;
  if hasDash then Normal eventDetails else
  hasColon <- jsIncludes dtv (str ":") ;;
  if hasColon then Normal eventDetails else
  iso <- jsCompactToIso dtv ;;
  Normal (setProp eventDetails which
            (setProp (orElse s JNull) (str "dateTime") (JStr iso))).

(** The event normalizer: the defaults, then the repair of start and of
    end. *)
Definition normalize (tz : TimeZone) (now : Z)
  (fallbackTimeZone : jsstring)
  (eventDetails : json) : completion json :=
  e1 <- applyDefaults tz now fallbackTimeZone eventDetails ;;
  e2 <- repairDateTime (str "start") e1 ;;
  repairDateTime (str "end") e2.

(** The classification of a model text, the first half of the [if] chain of
    [talkAs]: the leftmost fenced block, parsed, with
    [type === "calendar_event"] and a truthy [eventDetails]. *)
Inductive Classified : Type :=
| CalendarEventIntent (eventDetails : json)
| IdeaText (rawText : jsstring).

Definition isCalendarEventType (ty : option json) : bool :=
  match ty with
  | Some (JStr s) => jsstring_eqb s (str "calendar_event")
  | _ => false
  end.

(** [parsedResponse.type === "calendar_event" && parsedResponse.eventDetails],
    with the details when the condition holds. *)
Definition calendarDetails (parsedResponse : json) : completion (option json) :=
  ty <- getProp parsedResponse (str "type") ;;
  if isCalendarEventType ty then
    ed <- getProp parsedResponse (str "eventDetails") ;;
    Normal (if truthyOpt ed then ed else None)
  else Normal None.

(** [jsonMatch && jsonMatch[1]] *)
Definition fencedJson (rawResponse : jsstring) : option jsstring :=
  match match1 reJsonFence rawResponse with
  | Some (c :: cs) => Some (c :: cs)
  | _ => None
  end.

Definition classify (rawText : jsstring) : Classified :=
  match fencedJson rawText with
  | Some block =>
      match parsed <- JSON_parse block ;; calendarDetails parsed with
      | Normal (Some eventDetails) => CalendarEventIntent eventDetails
      | Normal None => IdeaText rawText
      | Throw _ => IdeaText rawText
      end
  | None => IdeaText rawText
  end.

(** The statements under the inner [if] of [talkAs], for the details of a
    calendar event: the text returned, or the error thrown. *)
Definition scheduleEvent (w : World) (k : nat)
  (userAuthTokens : option Tokens) (eventDetails : json)
  : completion jsstring :=
  match userAuthTokens with
  | Some tokens =>
      if authMissing userAuthTokens then Normal authMessage
      else
        e <- normalize (tzOffset w) (clock w k) (currentTimeZone w)
               eventDetails ;;
        event <- createCalendarEvent w k tokens e ;;
        Normal (confirmation event)
  | None => Normal authMessage
  end.

(** The inner [try]: [Some text] when it returns, [None] when control
    leaves it without a return. *)
Definition tryCalendar (w : World) (k : nat) (userAuthTokens : option Tokens)
  (block : jsstring) : completion (option jsstring) :=
  parsedResponse <- JSON_parse block ;;
  details <- calendarDetails parsedResponse ;;
  match details with
  | Some eventDetails =>
      text <- scheduleEvent w k userAuthTokens eventDetails ;;
      Normal (Some text)
  | None => Normal None
  end.

Definition warningSign : jsstring := [9888%N; 65039%N].

(** [talkAs(persona, message, userAuthTokens)] at the k-th call.  The
    prompt, built from [persona], [message] and the clock, goes to the model
    only, whose answer is [generateContent w k]. *)
Definition talkAs (w : World) (k : nat) (persona message : jsstring)
  (userAuthTokens : option Tokens) : completion jsstring :=
  let body :=
    rawResponse <- generateContent w k ;;
    let ideas := Normal (formatResponse rawResponse) in
    match fencedJson rawResponse with
    | Some block =>
        match tryCalendar w k userAuthTokens block with
        | Normal (Some text) => Normal text
        | Normal None => ideas
        | Throw jsonParseError => ideas
        end
    | None => ideas
    end in
  match body with
  | Normal text => Normal text
  | Throw err =>
      Normal (warningSign ++ str " " ++ persona ++ str " failed to respond: "
              ++ err)
  end.

(** ** The orchestrator: the [/chat] route *)

Definition MAX_RETRIES : nat := 3.

Definition successPhrase : jsstring := str "I've successfully added".
Definition failureMarker : jsstring := str "1. Idea Name: N/A".

Inductive Response : Type :=
| Status400 (error : jsstring)
| Status500 (text : jsstring)
| Status200 (text : jsstring).

(** The variables of the loop, with what the loop did: the number of calls
    of [talkAs] and the delays awaited, in order. *)
Record ChatState : Type := mkChat {
  formattedResponse : jsstring;
  responseGeneratedSuccessfully : bool;
  retryCount : nat;
  calls : nat;
  waits : list nat
}.

Definition chatInit : ChatState := mkChat [] false 0 0 [].

Definition succeeded (formatted : jsstring) : bool :=
  includes formatted successPhrase || negb (includes formatted failureMarker).

Definition apiErrorText (message : jsstring) : jsstring :=
  str "Failed to get a complete AI response after " ++ decimal MAX_RETRIES
  ++ str " attempts due to an API error: "
  ++ match message with
     | [] => str "Please check your server or API key."
     | _ :: _ => message
     end.

Definition incompleteText : jsstring :=
  str "Failed to get a complete AI response after " ++ decimal MAX_RETRIES
  ++ str " attempts. Please try again or refine your request.".

(** The [while] loop; [inl] is a [return] from inside the loop, [inr] the
    state at its exit.  [None] only when [fuel] runs out. *)
Fixpoint chatLoop (fuel : nat) (w : World) (input : jsstring)
  (userTokens : option Tokens) (st : ChatState)
  : option (Response * ChatState + ChatState) :=
  if (retryCount st <? MAX_RETRIES)%nat
     && negb (responseGeneratedSuccessfully st) then
    match fuel with
    | O => None
    | S fuel' =>
        match talkAs w (calls st) (str "Ada") input userTokens with
        | Normal text =>
            if succeeded text then
              chatLoop fuel' w input userTokens
                (mkChat text true (retryCount st) (S (calls st)) (waits st))
            else
              let rc := S (retryCount st) in
              chatLoop fuel' w input userTokens
                (mkChat text false rc (S (calls st))
                   (waits st ++ [1000 * rc]))
        | Throw err =>
            let rc := S (retryCount st) in
            if (MAX_RETRIES <=? rc)%nat then
              Some (inl (Status500 (apiErrorText err),
                         mkChat (formattedResponse st) false rc
                           (S (calls st)) (waits st)))
            else
              chatLoop fuel' w input userTokens
                (mkChat (formattedResponse st) false rc (S (calls st))
                   (waits st ++ [1000 * rc]))
        end
    end
  else Some (inr st).

(** The handler of [POST /chat] for a body whose [input] is a string. *)
Definition chat (w : World) (input : jsstring) (userTokens : option Tokens)
  : option (Response * ChatState) :=
  match input with
  | [] => Some (Status400 (str "Invalid input provided."), chatInit)
  | _ :: _ =>
      match chatLoop MAX_RETRIES w input userTokens chatInit with
      | Some (inl r) => Some r
      | Some (inr st) =>
          if negb (responseGeneratedSuccessfully st) then
            Some (Status500 incompleteText, st)
          else Some (Status200 (formattedResponse st), st)
      | None => None
      end
  end.

(** ** The other routes of the server (server/index.js)

    The handlers of index.js beside [/chat], over the module
    googleCalendarService as index.js imports it.  The body of a request is
    what [express.json()] leaves in [req.body]: an object (or an array),
    given by its named members, or undefined ([None]) when the request
    carries no JSON body and the version of express leaves it so.  A query
    value is a string, an array or an object.  The static files and the
    root route are left out. *)

(** [encodeURIComponent]: a code unit of the unreserved set stands for
    itself; any other code point is written as the octets of its UTF-8
    form, each as a percent sign and two upper-case hexadecimal digits; a
    surrogate without its pair throws a URIError. *)
Definition isAlpha (c : char) : bool :=
  ((65 <=? c) && (c <=? 90) || (97 <=? c) && (c <=? 122))%N.

Definition isMark (c : char) : bool :=
  existsb (N.eqb c) (str "-_.!~*'()").

Definition isUnreserved (c : char) : bool :=
  isAlpha c || isDigit c || isMark c.

Definition hexDigit (n : N) : char :=
  if (n <? 10)%N then (48 + n)%N else (55 + n)%N.

Definition percent (octet : N) : jsstring :=
  [37%N; hexDigit (octet / 16); hexDigit (octet mod 16)].

(** The bit layout of UTF-8. *)
Definition utf8 (cp : N) : list N :=
  if (cp <? 128)%N then [cp mod 128]%N
  else if (cp <? 2048)%N then
    [192 + (cp / 64) mod 32; 128 + cp mod 64]%N
  else if (cp <? 65536)%N then
    [224 + (cp / 4096) mod 16; 128 + (cp / 64) mod 64; 128 + cp mod 64]%N
  else
    [240 + (cp / 262144) mod 8; 128 + (cp / 4096) mod 64;
     128 + (cp / 64) mod 64; 128 + cp mod 64]%N.

Definition isLead (c : char) : bool := ((55296 <=? c) && (c <=? 56319))%N.
Definition isTrail (c : char) : bool := ((56320 <=? c) && (c <=? 57343))%N.

Definition pairToCodePoint (lead trail : char) : N :=
  ((lead - 55296) * 1024 + (trail - 56320) + 65536)%N.

Definition escape (cp : N) : jsstring :=
  List.concat (map percent (utf8 cp)).

Fixpoint encodeURIComponent (s : jsstring) : completion jsstring :=
  match s with
  | [] => Normal []
  | c :: t =>
      if isUnreserved c then
        r <- encodeURIComponent t ;; Normal (c :: r)
      else if isLead c then
        match t with
        | d :: t' =>
            if isTrail d then
              r <- encodeURIComponent t' ;;
              Normal (escape (pairToCodePoint c d) ++ r)
            else Throw (str "URI malformed")
        | [] => Throw (str "URI malformed")
        end
      else if isTrail c then Throw (str "URI malformed")
      else r <- encodeURIComponent t ;; Normal (escape c ++ r)
  end.

(** What a handler sends: a status with a JSON body (a property whose value
    is undefined is not written), a redirection, an empty 204, the reply of
    [/chat]; or nothing, when the promise of the handler is rejected. *)
Inductive Reply : Type :=
| Json (status : nat) (body : json)
| Redirect (url : jsstring)
| NoContent
| ChatReply (r : option (Response * ChatState))
| Rejected (message : jsstring).

(** What a request meets outside the server: [getToken] is
    [oAuth2Client.getToken] up to the tokens of its result, [insertEvent]
    is [calendar.events.insert] up to the data of its result, an event
    resource given by its members; [env] is [process.env] and [authUrl]
    the URL that the OAuth client generates. *)
Record Outside : Type := mkOutside {
  getToken : json -> completion Tokens;
  insertEvent : Tokens -> json -> completion (list (jsstring * json));
  world : World;
  env : string -> option jsstring;
  authUrl : jsstring
}.

(** [getTokensFromCode(code)] of the service. *)
Definition getTokensFromCode (o : Outside) (code : json)
  : completion Tokens :=
  tokens <- getToken o code ;;
  Normal tokens.

(** [createCalendarEvent] of the service as the route calls it, with a
    third argument that the function has no parameter for; an error of the
    insertion is thrown again. *)
Definition createEventData (o : Outside) (userAuthTokens : Tokens)
  (eventDetails : json) (calendarId : option json)
  : completion (list (jsstring * json)) :=
  data <- insertEvent o userAuthTokens eventDetails ;;
  Normal data.

(** The service exports [generateAuthUrl], [getTokensFromCode] and
    [createCalendarEvent] only. The names [listCalendarEvents],
    [updateCalendarEvent] and [deleteCalendarEvent] that index.js takes
    from it are undefined, and the call of one throws a TypeError. *)
Definition callUndefined {A : Type} (name : string) : completion A :=
  Throw (str name ++ str " is not a function").

Definition errorBody (message : jsstring) : json :=
  JObj [(str "error", JStr message)].

Definition unauthenticated : Reply :=
  Json 401 (errorBody (str "User not authenticated with Google Calendar. Please connect your account first.")).

(** [checkUserTokens]: the reply it sends, or the tokens of the request
    when it calls [next()]. *)
Definition checkUserTokens (userTokens : option Tokens) : Reply + Tokens :=
  match userTokens with
  | Some tokens =>
      if authMissing userTokens then inl unauthenticated else inr tokens
  | None => inl unauthenticated
  end.

(** A property of an object literal, not written when undefined. *)
Definition optProp (k : string) (o : option json) : list (jsstring * json) :=
  match o with
  | Some v => [(str k, v)]
  | None => []
  end.

(** [!eventDetails.summary || !eventDetails.start || !eventDetails.end]
    for details that are not undefined. *)
Definition missingDetails (eventDetails : json) : completion bool :=
  summary <- getProp eventDetails (str "summary") ;;
  if negb (truthyOpt summary) then Normal true else
  start <- getProp eventDetails (str "start") ;;
  if negb (truthyOpt start) then Normal true else
  end_ <- getProp eventDetails (str "end") ;;
  Normal (negb (truthyOpt end_)).

Definition createdBody (message : string) (event : list (jsstring * json))
  : json :=
  JObj ([(str "message", JStr (str message))]
        ++ optProp "eventId" (lookupProp event (str "id"))
        ++ optProp "htmlLink" (lookupProp event (str "htmlLink"))
        ++ [(str "event", JObj event)]).

(** [const { first, ... } = req.body]: the members of the body, or the
    TypeError of a body that is undefined. *)
Definition destructure (body : option (list (jsstring * json)))
  (first : string) : completion (list (jsstring * json)) :=
  match body with
  | Some members => Normal members
  | None =>
      Throw (str "Cannot destructure property '" ++ str first
             ++ str "' of 'req.body' as it is undefined.")
  end.

(** [POST /api/calendar/events] behind [checkUserTokens]. An error thrown
    before the [try], as the one of the destructuring, rejects the promise
    of the handler. *)
Definition postCalendarEvents (o : Outside) (userTokens : option Tokens)
  (body : option (list (jsstring * json))) : Reply :=
  match checkUserTokens userTokens with
  | inl reply => reply
  | inr tokens =>
      match destructure body "eventDetails" with
      | Throw error => Rejected error
      | Normal members =>
          let calendarId := lookupProp members (str "calendarId") in
          let missing :=
            Json 400 (errorBody
              (str "Missing required event details (summary, start, end)."))
          in
          match lookupProp members (str "eventDetails") with
          | None => missing
          | Some eventDetails =>
              if negb (truthy eventDetails) then missing else
              match missingDetails eventDetails with
              | Throw error => Rejected error
              | Normal true => missing
              | Normal false =>
                  match createEventData o tokens eventDetails calendarId with
                  | Normal event =>
                      Json 201
                        (createdBody "Event created successfully!" event)
                  | Throw error =>
                      Json 500 (errorBody
                        (str "Failed to create calendar event: " ++ error))
                  end
              end
          end
      end
  end.

(** [GET /api/calendar/events]: the options are built, then the call of
    the undefined [listCalendarEvents] throws inside the [try]. *)
Definition getCalendarEvents (userTokens : option Tokens)
  (query : list (jsstring * json)) : Reply :=
  match checkUserTokens userTokens with
  | inl reply => reply
  | inr tokens =>
      match callUndefined "listCalendarEvents" with
      | Normal events => Json 200 (JObj [(str "events", events)])
      | Throw error =>
          Json 500 (errorBody
            (str "Failed to list calendar events: " ++ error))
      end
  end.

(** [PUT /api/calendar/events/:eventId] *)
Definition putCalendarEvents (userTokens : option Tokens)
  (eventId : jsstring) (body : option (list (jsstring * json))) : Reply :=
  match checkUserTokens userTokens with
  | inl reply => reply
  | inr tokens =>
      match destructure body "updatedEventDetails" with
      | Throw error => Rejected error
      | Normal members =>
          if negb (truthyOpt (lookupProp members (str "updatedEventDetails")))
          then Json 400 (errorBody (str "Missing updated event details."))
          else
            match callUndefined "updateCalendarEvent" with
            | Normal event =>
                Json 200 (createdBody "Event updated successfully!" event)
            | Throw error =>
                Json 500 (errorBody
                  (str "Failed to update calendar event: " ++ error))
            end
      end
  end.

(** [DELETE /api/calendar/events/:eventId] *)
Definition deleteCalendarEvents (userTokens : option Tokens)
  (eventId : jsstring) (body : option (list (jsstring * json))) : Reply :=
  match checkUserTokens userTokens with
  | inl reply => reply
  | inr tokens =>
      match destructure body "calendarId" with
      | Throw error => Rejected error
      | Normal members =>
          match callUndefined "deleteCalendarEvent" with
          | Normal tt => NoContent
          | Throw error =>
              Json 500 (errorBody
                (str "Failed to delete calendar event: " ++ error))
          end
      end
  end.

(** [GET /oauth2callback]: the reply, and the tokens kept for the one
    user of the store. *)
Definition oauth2callback (o : Outside) (code : option json)
  (store : option Tokens) : Reply * option Tokens :=
  match code with
  | Some c =>
      if truthy c then
        match getTokensFromCode o c with
        | Normal tokens => (Redirect (str "/?auth_success=true"), Some tokens)
        | Throw error =>
            match encodeURIComponent error with
            | Normal encoded =>
                (Redirect (str "/?auth_error=true&message=" ++ encoded),
                 store)
            | Throw uriError => (Rejected uriError, store)
            end
        end
      else
        (Redirect
           (str "/?auth_error=true&message=Authorization%20code%20missing."),
         store)
  | None =>
      (Redirect
         (str "/?auth_error=true&message=Authorization%20code%20missing."),
       store)
  end.

(** [GET /_app/firebase/config]: the properties of the configuration whose
    variable is set, in the order of the literal. The constant [appId] of
    the handler is not used by it. *)
Definition configEntry (o : Outside) (key variable : string)
  : string * option jsstring :=
  (key, env o variable).

Definition firebaseConfig (o : Outside) : list (string * option jsstring) :=
  [configEntry o "apiKey" "FIREBASE_API_KEY";
   configEntry o "authDomain" "FIREBASE_AUTH_DOMAIN";
   configEntry o "projectId" "FIREBASE_PROJECT_ID";
   configEntry o "storageBucket" "FIREBASE_STORAGE_BUCKET";
   configEntry o "messagingSenderId" "FIREBASE_MESSAGING_SENDER_ID";
   configEntry o "appId" "FIREBASE_APP_ID";
   configEntry o "measurementId" "FIREBASE_MEASUREMENT_ID"].

Definition validConfig (o : Outside) : list (jsstring * json) :=
  flat_map (fun entry => optProp (fst entry) (option_map JStr (snd entry)))
    (firebaseConfig o).

(** [POST /chat] for any body: the destructuring of a body that is
    undefined rejects the promise of the handler; an [input] that is not a
    string, or is empty, is refused. *)
Definition postChat (o : Outside) (userTokens : option Tokens)
  (body : option (list (jsstring * json))) : Reply :=
  match destructure body "input" with
  | Throw error => Rejected error
  | Normal members =>
      ChatReply
        match lookupProp members (str "input") with
        | Some (JStr input) => chat (world o) input userTokens
        | _ => Some (Status400 (str "Invalid input provided."), chatInit)
        end
  end.

Inductive Request : Type :=
| GetFirebaseConfig
| GetAuthGoogleCalendar
| GetOauth2callback (code : option json)
| PostCalendarEvents (body : option (list (jsstring * json)))
| GetCalendarEvents (query : list (jsstring * json))
| PutCalendarEvents (eventId : jsstring)
    (body : option (list (jsstring * json)))
| DeleteCalendarEvents (eventId : jsstring)
    (body : option (list (jsstring * json)))
| PostChat (body : option (list (jsstring * json))).

(** One request: the middleware reads the tokens of the one user of the
    store into [req.userTokens], then the handler of the route runs. *)
Definition handle (o : Outside) (req : Request) (store : option Tokens)
  : Reply * option Tokens :=
  let userTokens := store in
  match req with
  | GetFirebaseConfig => (Json 200 (JObj (validConfig o)), store)
  | GetAuthGoogleCalendar => (Redirect (authUrl o), store)
  | GetOauth2callback code => oauth2callback o code store
  | PostCalendarEvents body => (postCalendarEvents o userTokens body, store)
  | GetCalendarEvents query => (getCalendarEvents userTokens query, store)
  | PutCalendarEvents eventId body =>
      (putCalendarEvents userTokens eventId body, store)
  | DeleteCalendarEvents eventId body =>
      (deleteCalendarEvents userTokens eventId body, store)
  | PostChat body => (postChat o userTokens body, store)
  end.

(** The requests of a server in the order in which they reach the store
    (a handler reads it once, in the middleware, or writes it once), each
    with what it meets outside. *)
Fixpoint serve (trace : list (Outside * Request)) (store : option Tokens)
  : list Reply * option Tokens :=
  match trace with
  | [] => ([], store)
  | (o, req) :: rest =>
      let (reply, store') := handle o req store in
      let (replies, final) := serve rest store' in
      (reply :: replies, final)
  end.

(** ** Definitions for the statements *)

(** [eventDetails[which].dateTime], undefined when a step of the path is. *)
Definition dateTimeOf (which : jsstring) (eventDetails : json) : option json :=
  match getProp eventDetails which with
  | Normal (Some s) =>
      match getProp s (str "dateTime") with
      | Normal dt => dt
      | Throw _ => None
      end
  | _ => None
  end.

(** A label occurs in a text, letters compared without case. *)
Fixpoint includesCI (s label : jsstring) : bool :=
  match litMatch true label s with
  | Some _ => true
  | None => match s with [] => false | _ :: t => includesCI t label end
  end.

(** The fenced blocks a text can be read to contain: a marker, any text, a
    closing marker. *)
Definition fencedBlockOf (rawText body : jsstring) : Prop :=
  exists pre post,
    rawText = pre ++ str "```json" ++ body ++ str "```" ++ post.

(** A text that parses as an object of type calendar_event with an
    [eventDetails] member. *)
Definition calendarEventJson (body : jsstring) : Prop :=
  exists props ed,
    JSON_parse body = Normal (JObj props)
    /\ lookupProp props (str "type") = Some (JStr (str "calendar_event"))
    /\ lookupProp props (str "eventDetails") = Some ed.

(** One idea in the layout that the prompt of [talkAs] asks the model for. *)
Definition promptIdea (n : nat) (name tag : string) : jsstring :=
  str "**" ++ decimal n ++ str ". Idea Name:** " ++ str name ++ nl
  ++ str "  - **Concept:** concept " ++ str tag ++ nl
  ++ str "  - **Key Features:** features " ++ str tag ++ nl
  ++ str "  - **Target Market:** market " ++ str tag ++ nl
  ++ str "  - **Unique Value Proposition:** value " ++ str tag ++ nl
  ++ str "  - **Monetization:** revenue " ++ str tag ++ nl
  ++ str "  - **Potential Challenges/Considerations:** risks " ++ str tag ++ nl
  ++ str "  - **Summary:** summary " ++ str tag ++ nl.

Definition promptIdeas : jsstring :=
  promptIdea 1 "Alpha" "a" ++ nl ++ promptIdea 2 "Beta" "b" ++ nl
  ++ promptIdea 3 "Gamma" "c".

(** A world whose model fails at every call with the same message. *)
Definition failingModel (message : jsstring) : World :=
  mkWorld (fun _ => Throw message)
          (fun _ _ _ => Throw (str "unreachable"))
          (fun _ => 1754820000000%Z) (fixedZone 0) (str "UTC").

(** A world whose model fails at its first two calls and answers with
    [text] from the third on. *)
Definition failingTwice (message text : jsstring) : World :=
  mkWorld (fun k => if (k <? 2)%nat then Throw message else Normal text)
          (fun _ _ _ => Throw (str "unreachable"))
          (fun _ => 1754820000000%Z) (fixedZone 0) (str "UTC").

(** A model text that asks for a calendar event. *)
Definition askForLunch : jsstring :=
  strq "```json {'type':'calendar_event','eventDetails':{'summary':'Lunch with Sam'}} ```".

(** A world whose model asks for a lunch, and whose calendar creates it. *)
Definition lunchWorld : World :=
  mkWorld (fun _ => Normal askForLunch)
          (fun _ _ _ => Normal (mkEvent (str "Lunch with Sam")
                                  (str "https://calendar.example/e1")))
          (fun _ => 1754820000000%Z) (fixedZone 0) (str "UTC").

(** The same, with a calendar service that fails. *)
Definition calendarDown : World :=
  mkWorld (fun _ => Normal askForLunch)
          (fun _ _ _ => Throw (str "Invalid Credentials"))
          (fun _ => 1754820000000%Z) (fixedZone 0) (str "UTC").

(** The block as [parseBlock] reads it, behind the label of the name. *)
Definition fullBlockOf (block : jsstring) : jsstring :=
  str "Idea Name:" ++ trim block.

(** A model text with two fenced blocks, the second one a calendar
    event. *)
Definition twoFences : jsstring :=
  strq "```json {bad} ``` ```json {'type':'calendar_event','eventDetails':{'summary':'x'}} ```".

(** The compact time stamp of the specification, and the same instant
    written with a positive offset. *)
Definition compactMinus : jsstring := str "20250810T100000-0700".
Definition compactPlus : jsstring := str "20250810T100000+0700".

(** Event details with one slot, start or end, at the given time. *)
Definition eventAt (which dateTime : jsstring) : json :=
  JObj [(which, JObj [(str "dateTime", JStr dateTime);
                      (str "timeZone", JStr (str "America/Los_Angeles"))])].

(** New York around the change of its offset on 9 March 2025: five hours
    behind UTC until 07:00 UTC, four hours from then on. Local times up to
    03:00 of that day are read with the offset before the change, the
    skipped hour included. *)
Definition newYorkMarch2025 : TimeZone :=
  fun t isUTC =>
    if isUTC then
      if (t <? 1741503600000)%Z then (-18000000)%Z else (-14400000)%Z
    else
      if (t <? 1741489200000)%Z then (-18000000)%Z else (-14400000)%Z.

(** A zone whose offset changes from two hours ahead of UTC to one hour
    ahead at 09:30 local time of 11 August 2025 (07:30 UTC); a repeated
    local time is read as its first occurrence. *)
Definition lateChange : TimeZone :=
  fun t isUTC =>
    if isUTC then
      if (t <? 1754897400000)%Z then 7200000%Z else 3600000%Z
    else
      if (t <? 1754904600000)%Z then 7200000%Z else 3600000%Z.

(** A model text whose event details are a number. *)
Definition askWithNumber : jsstring :=
  strq "```json {'type':'calendar_event','eventDetails':5} ```".

(** A delimiter of the split: digits, a period, white space or none, and
    the label of the name. *)
Definition isDelimiter (d : jsstring) : Prop :=
  exists digits spaces,
    d = digits ++ str "." ++ spaces ++ str "Idea Name:"
    /\ digits <> []
    /\ forallb isDigit digits = true
    /\ forallb isSpace spaces = true.

(** A text made of delimiters and of white space, and of nothing else. *)
Inductive delimitersOnly : jsstring -> Prop :=
| DelimitersOnly_nil : delimitersOnly []
| DelimitersOnly_space c s :
    isSpace c = true -> delimitersOnly s -> delimitersOnly (c :: s)
| DelimitersOnly_delimiter d s :
    isDelimiter d -> delimitersOnly s -> delimitersOnly (d ++ s).

(** The guard of the repair, negated: the string holds a '-' or a ':'. *)
Definition isIso (dt : jsstring) : bool :=
  includes dt (str "-") || includes dt (str ":").

(** The event of the example in the prompt. *)
Definition isoEvent : json :=
  JObj [(str "summary", JStr (str "Meeting with John"));
        (str "start", slot (str "2025-08-01T14:00:00-07:00")
                        (JStr (str "America/Los_Angeles")));
        (str "end", slot (str "2025-08-01T15:00:00-07:00")
                      (JStr (str "America/Los_Angeles")))].

(** Suffixes and parts of a text. *)
Definition suffixOf (s' s : jsstring) : Prop := exists p, s = p ++ s'.

Definition infixOf (c s : jsstring) : Prop := exists a b, s = a ++ c ++ b.

(** Group 1 is unset or holds a part of the text [S] being matched. *)
Definition capOK (S : jsstring) (cap : option jsstring) : Prop :=
  match cap with
  | None => True
  | Some c => infixOf c S
  end.

(** The continuation of a match is entered on a suffix of the text, with
    a capture that is a part of the text. *)
Definition entersCont (S s : jsstring) (k : cont) (res : mstate) : Prop :=
  exists s' cap', suffixOf s' s /\ capOK S cap' /\ k s' cap' = Some res.

(** The label of the first idea, with which the failure marker begins. *)
Definition firstLabel : jsstring := str "1. Idea Name:".

(** No occurrence of the label begins inside the piece being read. *)
Definition noStart (cur s : jsstring) : Prop :=
  forall a x b, rev cur = a ++ x :: b -> prefixb firstLabel (x :: b ++ s) = false.

(** The heading of a rendered record up to the last mark before the
    name. *)
Definition headOf (index : nat) : jsstring :=
  (nl ++ str "**" ++ decimal (index + 1)) ++ str ". Idea Name:*".

(** The text holds the failure marker of the handler. *)
Definition holdsMarker (v : jsstring) : bool := includes v failureMarker.

(** What is read is shorter than the text, and is read again with any fuel
    that covers the code units taken. *)
Definition valueFuel (F : nat) : Prop :=
  forall s v r,
    parseValue F s = Some (v, r) ->
    List.length r < List.length s
    /\ forall f, List.length s - List.length r <= f ->
                 parseValue f s = Some (v, r).

Definition elementsFuel (F : nat) : Prop :=
  forall s acc v r,
    parseElements F s acc = Some (v, r) ->
    List.length r < List.length s
    /\ forall f, List.length s - List.length r <= f ->
                 parseElements f s acc = Some (v, r).

Definition membersFuel (F : nat) : Prop :=
  forall s acc v r,
    parseMembers F s acc = Some (v, r) ->
    List.length r < List.length s
    /\ forall f, List.length s - List.length r <= f ->
                 parseMembers f s acc = Some (v, r).

(** ** Definitions for the further properties *)

(** The value can carry named properties: an object, or an array. *)
Definition hasProps (v : json) : Prop :=
  match v with
  | JObj _ | JArr _ _ => True
  | _ => False
  end.

(** What the repair decides on the value of a slot: to leave it ([None]),
    or the slot to put in its place. *)
Definition slotDecision (s : option json) : completion (option json) :=
  if negb (truthyOpt s) then Normal None else
  dt <- member s (str "dateTime") ;;
  if negb (truthyOpt dt) then Normal None else
  let dtv := orElse dt JNull in
  hasDash <- jsIncludes dtv (str "-") ;;
  if hasDash then Normal None else
  hasColon <- jsIncludes dtv (str ":") ;;
  if hasColon then Normal None else
  iso <- jsCompactToIso dtv ;;
  Normal (Some (setProp (orElse s JNull) (str "dateTime") (JStr iso))).

(** The repair leaves the slot [which] of [e]. *)
Definition settledAt (which : jsstring) (e : json) : Prop :=
  exists s, getProp e which = Normal s /\ slotDecision s = Normal None.

(** The replacement of the white space runs by one space, written as a
    recursion of its own; [inRun] tells that the code unit before was white
    space. *)
Fixpoint collapse (s : jsstring) (inRun : bool) : jsstring :=
  match s with
  | [] => []
  | c :: t =>
      if isSpace c then
        if inRun then collapse t true else 32%N :: collapse t true
      else c :: collapse t false
  end.

(** No two white space code units stand side by side. *)
Fixpoint noDouble (s : jsstring) : bool :=
  match s with
  | x :: t =>
      match t with
      | y :: _ => negb (isSpace x && isSpace y)
      | [] => true
      end && noDouble t
  | [] => true
  end.

(** Every white space code unit is a space. *)
Definition plainSpaces (s : jsstring) : bool :=
  forallb (fun c => negb (isSpace c) || (c =? 32)%N) s.

(** The first code unit, if any, is not white space. *)
Definition headSolid (s : jsstring) : bool :=
  match s with
  | c :: _ => negb (isSpace c)
  | [] => true
  end.

(** The seven fields of a record after its name, in their order. *)
Definition fieldsOf (r : IdeaRecord) : list jsstring :=
  [concept r; keyFeatures r; targetMarket r; usp r; monetization r;
   challenges r; summary r].

(** The six fields that are captured up to the label of the next one, each
    with that label. *)
Definition boundedFields (r : IdeaRecord) : list (jsstring * jsstring) :=
  [(concept r, str "Key Features:");
   (keyFeatures r, str "Target Market:");
   (targetMarket r, str "Unique Value Proposition:");
   (usp r, str "Monetization:");
   (monetization r, str "Potential Challenges/Considerations:");
   (challenges r, str "Summary:")].

(** *** For the routes *)


(** The member [k] of a value is set to something truthy. *)
Definition holds (v : json) (k : string) : bool :=
  match v with
  | JObj props | JArr _ props => truthyOpt (lookupProp props (str k))
  | JNull | JBool _ | JNum _ _ | JStr _ => false
  end.

(** The body of a request names the details of an event with a summary, a
    start and an end. *)
Definition completeDetails (body : list (jsstring * json)) : bool :=
  match lookupProp body (str "eventDetails") with
  | Some details =>
      holds details "summary" && holds details "start" && holds details "end"
  | None => false
  end.

Definition isCalendarRequest (req : Request) : bool :=
  match req with
  | PostCalendarEvents _ | GetCalendarEvents _ | PutCalendarEvents _ _
  | DeleteCalendarEvents _ _ => true
  | _ => false
  end.

(** The request comes without a body where its handler reads one. *)
Definition bodyMissing (req : Request) : bool :=
  match req with
  | PostCalendarEvents None | PutCalendarEvents _ None
  | DeleteCalendarEvents _ None | PostChat None => true
  | _ => false
  end.

Definition listsOrChanges (req : Request) : bool :=
  match req with
  | GetCalendarEvents _ | PutCalendarEvents _ _ | DeleteCalendarEvents _ _ =>
      true
  | _ => false
  end.

(** The request is a callback of the authorization whose code is exchanged
    for tokens that hold an access token. *)
Definition grantsAccess (o : Outside) (req : Request) : bool :=
  match req with
  | GetOauth2callback (Some code) =>
      truthy code
      && match getToken o code with
         | Normal tokens => negb (authMissing (Some tokens))
         | Throw _ => false
         end
  | _ => false
  end.

(** The request is a callback of the authorization whose code is exchanged
    for tokens. *)
Definition exchanges (o : Outside) (req : Request) : bool :=
  match req with
  | GetOauth2callback (Some code) =>
      truthy code
      && match getToken o code with
         | Normal _ => true
         | Throw _ => false
         end
  | _ => false
  end.

(** An outside where the exchange of a code and the calendar fail. *)
Definition refusingOutside : Outside :=
  mkOutside (fun _ => Throw (str "invalid_grant & more"))
            (fun _ _ => Throw (str "Invalid Credentials"))
            lunchWorld (fun _ => None) (str "https://accounts.example/auth").

(** An outside where both succeed. *)
Definition grantingOutside : Outside :=
  mkOutside (fun _ => Normal (mkTokens (Some (str "ya29.a0")) None None))
            (fun _ _ => Normal [(str "id", JStr (str "e1"));
                                (str "htmlLink",
                                 JStr (str "https://calendar.example/e1"))])
            lunchWorld (fun _ => None) (str "https://accounts.example/auth").

(** * Properties *)

(** ** Equality of strings, properties of objects *)

Lemma jsstring_eqb_refl : forall s, jsstring_eqb s s = true.
Proof.
  intros s. unfold jsstring_eqb.
  destruct (list_eq_dec N.eq_dec s s); congruence.
Qed.

Lemma jsstring_eqb_eq : forall a b, jsstring_eqb a b = true -> a = b.
Proof.
  intros a b. unfold jsstring_eqb.
  destruct (list_eq_dec N.eq_dec a b); congruence.
Qed.

(** ** The orchestrator and a failing model call *)

(** [talkAs] never throws: its outer [catch] turns every error into a
    text. *)
Lemma talkAs_never_throws :
  forall w k persona message tokens,
    exists text, talkAs w k persona message tokens = Normal text.
Proof.
  intros w k persona message tokens. unfold talkAs.
  destruct (generateContent w k) as [raw | err]; simpl.
  - destruct (fencedJson raw) as [block |]; [| eauto].
    destruct (tryCalendar w k tokens block) as [[text |] | e]; eauto.
  - eauto.
Qed.

Lemma talkAs_model_throws :
  forall w k persona message tokens err,
    generateContent w k = Throw err ->
    talkAs w k persona message tokens =
    Normal (warningSign ++ str " " ++ persona ++ str " failed to respond: "
            ++ err).
Proof.
  intros w k persona message tokens err H. unfold talkAs. rewrite H.
  reflexivity.
Qed.

(** The [catch] of the handler is never entered: the loop is not left by
    the [return] of the API error. *)
Lemma chatLoop_catch_unreachable :
  forall fuel w input tokens st r,
    chatLoop fuel w input tokens st <> Some (inl r).
Proof.
  induction fuel as [| fuel IH]; intros w input tokens st r;
    cbn [chatLoop];
    destruct ((retryCount st <? MAX_RETRIES)%nat
              && negb (responseGeneratedSuccessfully st));
    try discriminate.
  destruct (talkAs_never_throws w (calls st) (str "Ada") input tokens)
    as (text & ->).
  destruct (succeeded text); apply IH.
Qed.

(** C1 (the code differs): when the model call throws, the handler does not
    retry. [talkAs] has caught the error and returned the text of its own
    failure message; the text does not hold the failure marker, so the first
    iteration ends the loop as a success: one call, no delay, status 200.
    This is so when the model throws at every attempt, and as well when it
    throws twice and would answer at the third attempt, which is never
    made. *)
Theorem chat_model_throw_no_retry :
  chat (failingModel (str "boom")) (str "Schedule lunch") None
  = Some (Status200 (warningSign ++ str " Ada failed to respond: boom"),
          mkChat (warningSign ++ str " Ada failed to respond: boom")
            true 0 1 [])
  /\ chat (failingTwice (str "boom") (str "1. Idea Name: A Concept: c"))
        (str "Give me ideas") None
     = Some (Status200 (warningSign ++ str " Ada failed to respond: boom"),
             mkChat (warningSign ++ str " Ada failed to respond: boom")
               true 0 1 []).
Proof. split; vm_compute; reflexivity. Qed.

(** An error of the calendar service is caught by the inner [catch], and the
    model text is formatted as ideas: no retry either. *)
Example chat_calendar_throw_no_retry :
  exists text,
    chat calendarDown (str "Schedule lunch")
      (Some (mkTokens (Some (str "token")) None None))
    = Some (Status200 text, mkChat text true 0 1 [])
    /\ text = formatResponse askForLunch.
Proof. eexists. split; vm_compute; reflexivity. Qed.

(** ** The classifier *)

(** What the parser builds: an object from members, an array without named
    properties from elements. *)
Lemma parseMembers_shape :
  forall f s acc v r,
    parseMembers f s acc = Some (v, r) -> exists props, v = JObj props.
Proof.
  induction f as [| f IH]; intros s acc v r H; [discriminate |].
  cbn [parseMembers] in H.
  destruct (expect 34%N s) as [t |]; [| discriminate].
  destruct (parseChars t 0 false []) as [[key r0] |]; [| discriminate].
  destruct (expect 58%N r0) as [r1 |]; [| discriminate].
  destruct (parseValue f r1) as [[v1 r2] |]; [| discriminate].
  destruct (expect 44%N r2) as [r3 |]; [eapply IH; eauto |].
  destruct (expect 125%N r2) as [r3 |]; [| discriminate].
  injection H as <- _. eauto.
Qed.

Lemma parseElements_shape :
  forall f s acc v r,
    parseElements f s acc = Some (v, r) -> exists elems, v = JArr elems [].
Proof.
  induction f as [| f IH]; intros s acc v r H; [discriminate |].
  cbn [parseElements] in H.
  destruct (parseValue f s) as [[v1 r1] |]; [| discriminate].
  destruct (expect 44%N r1) as [r' |]; [eapply IH; eauto |].
  destruct (expect 93%N r1) as [r' |]; [| discriminate].
  injection H as <- _. eauto.
Qed.

Lemma parseNumber_shape :
  forall s v r, parseNumber s = Some (v, r) -> exists m e, v = JNum m e.
Proof.
  intros s v r H. unfold parseNumber in H.
  destruct (parseSign s) as [neg s1].
  destruct (parseInt s1) as [[iv s2] |]; [| discriminate].
  destruct (parseFrac iv s2) as [[[m fl] s3] |]; [| discriminate].
  destruct (parseExp s3) as [[e s4] |]; [| discriminate].
  injection H as <- _. eauto.
Qed.

(** A parsed value that has a named property is an object. *)
Lemma JSON_parse_property :
  forall s parsed k x,
    JSON_parse s = Normal parsed ->
    getProp parsed k = Normal (Some x) ->
    exists props, parsed = JObj props /\ lookupProp props k = Some x.
Proof.
  intros s parsed k x Hp Hg. unfold JSON_parse in Hp.
  destruct (parseValue (S (List.length s)) s) as [[v r] |] eqn:E;
    [| discriminate].
  destruct (skipWs r); [| discriminate]. injection Hp as ->.
  destruct parsed as [| b | m e | t | elems props | props];
    try discriminate Hg.
  - exfalso. cbn [parseValue] in E.
    destruct (skipWs s) as [| c t]; [discriminate |].
    destruct (c =? 123)%N.
    { destruct (expect 125%N t); [discriminate |].
      apply parseMembers_shape in E. destruct E as (p0 & E). discriminate. }
    destruct (c =? 91)%N.
    { destruct (expect 93%N t).
      - injection E as _ Hpr _. subst props. discriminate Hg.
      - apply parseElements_shape in E. destruct E as (e0 & E).
        injection E as _ Hpr. subst props. discriminate Hg. }
    destruct (c =? 34)%N.
    { destruct (parseChars t 0 false []) as [[? ?] |]; discriminate. }
    destruct (c =? 116)%N.
    { destruct (litMatch false (str "rue") t); discriminate. }
    destruct (c =? 102)%N.
    { destruct (litMatch false (str "alse") t); discriminate. }
    destruct (c =? 110)%N.
    { destruct (litMatch false (str "ull") t); discriminate. }
    apply parseNumber_shape in E. destruct E as (m & e & E). discriminate.
  - exists props. split; [reflexivity |]. cbn [getProp] in Hg. congruence.
Qed.

Lemma litMatch_prefixb :
  forall p s r, litMatch false p s = Some r -> prefixb p s = true.
Proof.
  induction p as [| a p IH]; intros s r H; [reflexivity |].
  destruct s as [| b s]; [discriminate |]. cbn [litMatch chr_eqb] in H.
  cbn [prefixb]. destruct (a =? b)%N; [| discriminate].
  now rewrite (IH s r H).
Qed.

(** An expression that begins with a literal finds nothing in a text that
    does not hold the literal. *)
Lemma exec_literal_absent :
  forall l rest s,
    includes s l = false -> exec (Seq (Lit false l) rest) s = None.
Proof.
  intros l rest s. induction s as [| c t IH]; intros H;
    cbn [includes] in H; apply orb_false_iff in H; destruct H as [Hp Ht];
    cbn [exec]; unfold matchAt; cbn [rmatch].
  - destruct (litMatch false l []) eqn:E; [| reflexivity].
    apply litMatch_prefixb in E. congruence.
  - destruct (litMatch false l (c :: t)) eqn:E.
    + apply litMatch_prefixb in E. congruence.
    + now apply IH.
Qed.

Lemma fencedJson_absent :
  forall raw, includes raw (str "```json") = false -> fencedJson raw = None.
Proof.
  intros raw H. unfold fencedJson, match1, reJsonFence.
  now rewrite exec_literal_absent.
Qed.

(** [talkAs] acts on the classification: a calendar event is scheduled, and
    an error thrown on the way falls back to the ideas; any other text is
    formatted as ideas. *)
Lemma talkAs_classify :
  forall w k persona message tokens raw,
    generateContent w k = Normal raw ->
    talkAs w k persona message tokens =
    match classify raw with
    | CalendarEventIntent ed =>
        match scheduleEvent w k tokens ed with
        | Normal text => Normal text
        | Throw _ => Normal (formatResponse raw)
        end
    | IdeaText t => Normal (formatResponse t)
    end.
Proof.
  intros w k persona message tokens raw H.
  unfold talkAs, classify, tryCalendar. rewrite H. simpl.
  destruct (fencedJson raw) as [block |]; [| reflexivity].
  destruct (JSON_parse block) as [parsed | e]; simpl; [| reflexivity].
  destruct (calendarDetails parsed) as [[ed |] | e]; simpl; try reflexivity.
  destruct (scheduleEvent w k tokens ed); reflexivity.
Qed.

(** C2 (as stated, refuted): a text with two fenced blocks, of which the
    second is a well-formed calendar event, is classified as idea text: only
    the leftmost block is read. *)
Lemma classify_later_fence_ignored :
  (exists body, fencedBlockOf twoFences body /\ calendarEventJson body)
  /\ classify twoFences = IdeaText twoFences.
Proof.
  split.
  - exists (strq " {'type':'calendar_event','eventDetails':{'summary':'x'}} ").
    split.
    + exists (strq "```json {bad} ``` "), []. vm_compute. reflexivity.
    + exists [(str "type", JStr (str "calendar_event"));
              (str "eventDetails", JObj [(str "summary", JStr (str "x"))])],
             (JObj [(str "summary", JStr (str "x"))]).
      vm_compute. auto.
  - vm_compute. reflexivity.
Qed.

(** A present but falsy [eventDetails] is not an intent either. *)
Example classify_null_details :
  let raw := strq "```json {'type':'calendar_event','eventDetails':null} ```" in
  classify raw = IdeaText raw.
Proof. vm_compute. reflexivity. Qed.

(** C2 (amended): the intent is read from the leftmost fenced block alone.
    [classify] yields the intent with details [ed] exactly when that block
    parses to an object whose [type] is the string calendar_event and whose
    [eventDetails] is [ed], a truthy value; every other text is idea text of
    the unmodified input, as is in particular a text without the opening
    marker of a fenced block, and [talkAs] then answers with the formatted
    ideas, no parse error reaching its caller. *)
Theorem classify_first_fence :
  forall raw,
    (forall ed,
        classify raw = CalendarEventIntent ed <->
        exists block props,
          fencedJson raw = Some block
          /\ JSON_parse block = Normal (JObj props)
          /\ lookupProp props (str "type") = Some (JStr (str "calendar_event"))
          /\ lookupProp props (str "eventDetails") = Some ed
          /\ truthy ed = true)
    /\ ((forall ed, classify raw <> CalendarEventIntent ed) <->
        classify raw = IdeaText raw)
    /\ (includes raw (str "```json") = false -> classify raw = IdeaText raw)
    /\ (forall w k persona message tokens,
           generateContent w k = Normal raw ->
           classify raw = IdeaText raw ->
           talkAs w k persona message tokens = Normal (formatResponse raw)).
Proof.
  intros raw. split; [| split; [| split]].
  - intros ed. unfold classify. split.
    + destruct (fencedJson raw) as [block |]; [| discriminate].
      destruct (JSON_parse block) as [parsed | e] eqn:Hp; simpl;
        [| discriminate].
      unfold calendarDetails.
      destruct (getProp parsed (str "type")) as [ty | e] eqn:Ht; simpl;
        [| discriminate].
      destruct (isCalendarEventType ty) eqn:Hc; simpl; [| discriminate].
      destruct (getProp parsed (str "eventDetails")) as [d | e] eqn:Hd; simpl;
        [| discriminate].
      destruct d as [d |]; simpl; [| discriminate].
      destruct (truthy d) eqn:Htr; [| discriminate].
      intros H. injection H as ->.
      destruct (JSON_parse_property block parsed _ _ Hp Hd)
        as (props & -> & Hed).
      exists block, props. repeat split; auto.
      destruct ty as [[| | | s | |] |]; try discriminate Hc.
      simpl in Hc. apply jsstring_eqb_eq in Hc. subst s.
      cbn [getProp] in Ht. congruence.
    + intros (block & props & Hf & Hp & Ht & Hd & Htr).
      rewrite Hf, Hp. simpl. unfold calendarDetails. cbn [getProp].
      rewrite Ht. simpl. rewrite Hd. simpl. rewrite Htr. reflexivity.
  - unfold classify.
    destruct (fencedJson raw) as [block |].
    + destruct (bind (JSON_parse block) (fun parsed => calendarDetails parsed))
        as [[ed |] | e].
      * split; [intros H; exfalso; apply (H ed); reflexivity | discriminate].
      * split; [reflexivity | intros _ ed; discriminate].
      * split; [reflexivity | intros _ ed; discriminate].
    + split; [reflexivity | intros _ ed; discriminate].
  - intros H. unfold classify. now rewrite fencedJson_absent.
  - intros w k persona message tokens Hg Hc.
    rewrite (talkAs_classify w k persona message tokens raw Hg), Hc.
    reflexivity.
Qed.

(** ** The normalizer: the repair of compact time stamps *)

Lemma lookup_setProps_same :
  forall props k x, lookupProp (setProps props k x) k = Some x.
Proof.
  induction props as [| [k' v] rest IH]; intros k x; simpl.
  - now rewrite jsstring_eqb_refl.
  - destruct (jsstring_eqb k' k) eqn:E; simpl; rewrite E; auto.
Qed.

Lemma lookup_setProps_other :
  forall props k x k',
    jsstring_eqb k k' = false ->
    lookupProp (setProps props k x) k' = lookupProp props k'.
Proof.
  induction props as [| [k0 v] rest IH]; intros k x k' Hne; simpl.
  - now rewrite Hne.
  - destruct (jsstring_eqb k0 k) eqn:E; simpl.
    + apply jsstring_eqb_eq in E. subst k0. now rewrite Hne.
    + destruct (jsstring_eqb k0 k'); auto.
Qed.

(** C3 (the code differs): the template of the repair keeps the offset of
    a compact time stamp, whatever its sign, and applied to the stamp of
    the specification it gives the ISO form that the specification names.
    But the guard of the repair asks for a string without any '-', and the
    '-' of a negative offset is one: the stamp of the specification, as
    start or as end, is left as it is, by the repair and by the whole
    normalizer, while the same stamp with a positive offset is rewritten. *)
Theorem repair_skips_negative_offset :
  compactToIso compactMinus = str "2025-08-10T10:00:00-0700"
  /\ repairDateTime (str "start") (eventAt (str "start") compactMinus)
     = Normal (eventAt (str "start") compactMinus)
  /\ repairDateTime (str "end") (eventAt (str "end") compactMinus)
     = Normal (eventAt (str "end") compactMinus)
  /\ normalize (fixedZone 0) 1754820000000 (str "UTC")
       (JObj [(str "start", slot compactMinus (JStr (str "UTC")));
              (str "end", slot compactMinus (JStr (str "UTC")))])
     = Normal (JObj [(str "start", slot compactMinus (JStr (str "UTC")));
                     (str "end", slot compactMinus (JStr (str "UTC")))])
  /\ dateTimeOf (str "start") (eventAt (str "start") compactMinus)
     = Some (JStr (str "20250810T100000-0700"))
  /\ repairDateTime (str "start") (eventAt (str "start") compactPlus)
     = Normal (eventAt (str "start") (str "2025-08-10T10:00:00+0700")).
Proof. repeat split; vm_compute; reflexivity. Qed.

Lemma includes_nil_false :
  forall s x, includes s x = false -> x <> [].
Proof.
  intros s x H ->. destruct s; simpl in H; discriminate.
Qed.

(** The repair of a string that holds neither '-' nor ':'. *)
Lemma repair_string :
  forall which eprops sprops dt,
    dt <> [] ->
    includes dt (str "-") = false ->
    includes dt (str ":") = false ->
    lookupProp eprops which = Some (JObj sprops) ->
    lookupProp sprops (str "dateTime") = Some (JStr dt) ->
    repairDateTime which (JObj eprops)
    = Normal (JObj (setProps eprops which
                (JObj (setProps sprops (str "dateTime")
                         (JStr (compactToIso dt)))))).
Proof.
  intros which eprops sprops dt Hne Hdash Hcolon Hs Hdt.
  destruct dt as [| c cs]; [congruence |].
  unfold repairDateTime. cbn [getProp bind]. rewrite Hs.
  cbn [truthyOpt truthy negb member getProp bind]. rewrite Hdt.
  cbn [truthyOpt truthy negb orElse jsIncludes bind].
  rewrite Hdash. cbn [bind]. rewrite Hcolon. reflexivity.
Qed.

(** A string [dateTime] that passes the guard, holding neither '-' nor
    ':', is rewritten. Read as a date of 4+2+2 code units, one separator, a
    time of 2+2+2 code units and a rest, it becomes the date with '-'
    between its parts, a T, the time with ':' between its parts, and the
    rest (the offset) unchanged; the other properties of the event are
    kept. *)
Theorem repair_compact_dateTime :
  forall which eprops sprops y mo d sep h mi se off,
    let dt := y ++ mo ++ d ++ [sep] ++ h ++ mi ++ se ++ off in
    List.length y = 4 -> List.length mo = 2 -> List.length d = 2 ->
    List.length h = 2 -> List.length mi = 2 -> List.length se = 2 ->
    includes dt (str "-") = false ->
    includes dt (str ":") = false ->
    lookupProp eprops which = Some (JObj sprops) ->
    lookupProp sprops (str "dateTime") = Some (JStr dt) ->
    exists e',
      repairDateTime which (JObj eprops) = Normal e'
      /\ dateTimeOf which e'
         = Some (JStr (y ++ str "-" ++ mo ++ str "-" ++ d ++ str "T"
                       ++ h ++ str ":" ++ mi ++ str ":" ++ se ++ off))
      /\ (forall k, jsstring_eqb which k = false ->
                    getProp e' k = getProp (JObj eprops) k).
Proof.
  intros which eprops sprops y mo d sep h mi se off dt
         Hy Hmo Hd Hh Hmi Hse Hdash Hcolon Hs Hdt.
  assert (Hne : dt <> []).
  { subst dt. destruct y; [discriminate Hy | discriminate]. }
  rewrite (repair_string which eprops sprops dt Hne Hdash Hcolon Hs Hdt).
  eexists. split; [reflexivity |]. split.
  - unfold dateTimeOf. simpl. rewrite lookup_setProps_same. simpl.
    rewrite lookup_setProps_same. do 2 f_equal.
    subst dt. unfold compactToIso, substring, substringFrom.
    destruct y as [| y1 [| y2 [| y3 [| y4 [| ? ?]]]]]; try discriminate Hy.
    destruct mo as [| m1 [| m2 [| ? ?]]]; try discriminate Hmo.
    destruct d as [| d1 [| d2 [| ? ?]]]; try discriminate Hd.
    destruct h as [| h1 [| h2 [| ? ?]]]; try discriminate Hh.
    destruct mi as [| i1 [| i2 [| ? ?]]]; try discriminate Hmi.
    destruct se as [| s1 [| s2 [| ? ?]]]; try discriminate Hse.
    reflexivity.
  - intros k Hk. simpl. now rewrite lookup_setProps_other.
Qed.

Lemma repair_compact_dateTime_witness :
  exists e',
    repairDateTime (str "start") (eventAt (str "start") compactPlus)
    = Normal e'
    /\ dateTimeOf (str "start") e'
       = Some (JStr (str "2025-08-10T10:00:00+0700"))
    /\ (forall k, jsstring_eqb (str "start") k = false ->
                  getProp e' k
                  = getProp (eventAt (str "start") compactPlus) k).
Proof.
  apply (repair_compact_dateTime (str "start") _
           [(str "dateTime", JStr compactPlus);
            (str "timeZone", JStr (str "America/Los_Angeles"))]
           (str "2025") (str "08") (str "10") 84%N
           (str "10") (str "00") (str "00") (str "+0700"));
    reflexivity.
Defined.

(** ** The formatter: texts without blocks *)

Lemma dropWhile_split :
  forall p s, exists a, s = a ++ dropWhile p s /\ forallb p a = true.
Proof.
  intros p s. induction s as [| c t IH]; simpl.
  - exists []. auto.
  - destruct (p c) eqn:E.
    + destruct IH as (a & Ha & Hp). exists (c :: a). simpl.
      rewrite E, Hp. split; [congruence | reflexivity].
    + exists []. auto.
Qed.

Lemma dropWhile_head :
  forall p s c t, dropWhile p s = c :: t -> p c = false.
Proof.
  intros p s. induction s as [| x s' IH]; simpl; intros c t H.
  - discriminate.
  - destruct (p x) eqn:E; [eauto | congruence].
Qed.

Lemma dropWhile_all :
  forall p s, forallb p s = true -> dropWhile p s = [].
Proof.
  intros p s. induction s as [| c t IH]; simpl; intros H; auto.
  apply andb_prop in H. destruct H as [Hc Ht]. rewrite Hc. auto.
Qed.

(** [trim] cuts a run of white space at each end. *)
Lemma trim_split :
  forall s, exists a b,
    s = a ++ trim s ++ b /\ forallb isSpace a = true
    /\ forallb isSpace b = true.
Proof.
  intros s. unfold trim.
  destruct (dropWhile_split isSpace s) as (a & Ha & Hpa).
  destruct (dropWhile_split isSpace (rev (dropWhile isSpace s)))
    as (b & Hb & Hpb).
  exists a, (rev b). repeat split; auto.
  - rewrite <- rev_app_distr, <- Hb, rev_involutive. exact Ha.
  - rewrite forallb_forall in *. intros x Hx. apply Hpb.
    now apply in_rev.
Qed.

Lemma trim_nil_spaces :
  forall s, trim s = [] -> forallb isSpace s = true.
Proof.
  intros s H. destruct (trim_split s) as (a & b & Hs & Ha & Hb).
  rewrite H in Hs. rewrite Hs. simpl. rewrite forallb_app, Ha, Hb.
  reflexivity.
Qed.

Lemma trim_spaces_nil :
  forall s, forallb isSpace s = true -> trim s = [].
Proof.
  intros s H. unfold trim. rewrite (dropWhile_all isSpace s H). reflexivity.
Qed.

Lemma renderIdeas_not_blank :
  forall r rest index,
    forallb isSpace (renderIdeas (r :: rest) index) = false.
Proof.
  intros r rest index. simpl. unfold renderIdea, nl. simpl. reflexivity.
Qed.

(** C4 (as stated, refuted): a text without any label is one block, and is
    rendered as one record whose name is the text. *)
Lemma format_unlabelled_text_not_empty :
  exec reIdeaSplit (cleanText (str "hello")) = None
  /\ includesCI (str "hello") (str "Idea Name:") = false
  /\ formatResponse (str "hello") <> [].
Proof.
  repeat split; try (vm_compute; reflexivity). vm_compute. discriminate.
Qed.

Lemma parseBlocks_nil :
  forall blocks index, parseBlocks blocks index = [] -> blocks = [].
Proof. intros [| b rest] index H; [reflexivity | discriminate]. Qed.

(** The output is empty exactly when the split and the filter leave no
    block. *)
Lemma format_empty_iff_no_blocks :
  forall text, formatResponse text = [] <-> ideaBlocks text = [].
Proof.
  intros text. unfold formatResponse, ideaRecords. split.
  - intros H. apply trim_nil_spaces in H.
    destruct (parseBlocks (ideaBlocks text) 0) as [| r rest] eqn:E.
    + now apply parseBlocks_nil in E.
    + rewrite renderIdeas_not_blank in H. discriminate.
  - intros H. rewrite H. reflexivity.
Qed.

Example format_blank_text : formatResponse (str "  ") = [].
Proof. vm_compute. reflexivity. Qed.

Example format_delimiter_only : formatResponse (str "1. Idea Name:") = [].
Proof. vm_compute. reflexivity. Qed.

(** ** The formatter on the layout of the prompt *)

(** C6 (the code differs): on three ideas written in the layout that the
    prompt asks for, the two asterisks before the first number are a block
    of their own: four records come out, and the first has an empty name and
    N/A in the seven other fields. *)
Theorem format_prompt_layout_four_records :
  map ideaName (ideaRecords promptIdeas)
  = [[]; str "Alpha"; str "Beta"; str "Gamma"]
  /\ map concept (ideaRecords promptIdeas)
     = [NA; str "** concept a - **"; str "** concept b - **";
        str "** concept c - **"]
  /\ map summary (ideaRecords promptIdeas)
     = [NA; str "** summary a **"; str "** summary b **";
        str "** summary c"]
  /\ includes (formatResponse promptIdeas) (str "**4. Idea Name:** Gamma")
     = true.
Proof. vm_compute. repeat split. Qed.

(** Without the emphasis marks and with nothing before the first label the
    three records are read as written. *)
Example format_plain_three :
  map (fun r => (ideaName r, concept r, summary r))
    (ideaRecords (str "1. Idea Name: A Concept: c1 Key Features: k Target Market: t Unique Value Proposition: u Monetization: m Potential Challenges/Considerations: p Summary: s1 2. Idea Name: B Concept: c2 Key Features: k Target Market: t Unique Value Proposition: u Monetization: m Potential Challenges/Considerations: p Summary: s2 3. Idea Name: C Concept: c3 Key Features: k Target Market: t Unique Value Proposition: u Monetization: m Potential Challenges/Considerations: p Summary: s3"))
  = [(str "A", str "c1", str "s1"); (str "B", str "c2", str "s2");
     (str "C", str "c3", str "s3")].
Proof. vm_compute. reflexivity. Qed.

(** ** The failure marker *)

(** C10 (as stated, refuted): the characters that the name capture strips
    can stand inside a label; once they are gone the rendered name holds the
    marker, and the handler takes the output for a miss to retry. *)
Lemma format_output_holds_marker :
  includes (formatResponse (str "1. Idea -Name: N/A")) failureMarker = true
  /\ succeeded (formatResponse (str "1. Idea -Name: N/A")) = false.
Proof. vm_compute. split; reflexivity. Qed.

(** ** Missing authorization *)

Lemma scheduleEvent_unauthorized :
  forall w k tokens ed,
    authMissing tokens = true ->
    scheduleEvent w k tokens ed = Normal authMessage.
Proof.
  intros w k [t |] ed H; unfold scheduleEvent; [rewrite H |]; reflexivity.
Qed.

Lemma chat_first_success :
  forall w c input tokens text,
    talkAs w 0 (str "Ada") (c :: input) tokens = Normal text ->
    succeeded text = true ->
    chat w (c :: input) tokens
    = Some (Status200 text, mkChat text true 0 1 []).
Proof.
  intros w c input tokens text Ht Hs.
  unfold chat, MAX_RETRIES. cbn [chatLoop chatInit retryCount
    responseGeneratedSuccessfully calls waits formattedResponse].
  change (0 <? MAX_RETRIES)%nat with true. cbn [andb negb].
  rewrite Ht, Hs. cbn [retryCount responseGeneratedSuccessfully].
  change (0 <? MAX_RETRIES)%nat with true. cbn [andb negb].
  reflexivity.
Qed.

(** C5: a calendar event classified while the tokens are absent, or hold no
    access token, is answered with the instruction to authorize. Nothing is
    thrown; the handler calls [talkAs] once, waits for nothing, and ends with
    a success, the text being free of the failure marker. The access token
    is all that the check reads of the tokens, and with one that is not
    empty the event is normalized and sent to the calendar. *)
Theorem chat_missing_authorization :
  forall w input tokens raw ed,
    input <> [] ->
    generateContent w 0 = Normal raw ->
    classify raw = CalendarEventIntent ed ->
    (tokens = None \/ exists t, tokens = Some t /\ access_token t = None) ->
    chat w input tokens
    = Some (Status200 authMessage, mkChat authMessage true 0 1 [])
    /\ includes authMessage failureMarker = false
    /\ (forall t t', access_token t = access_token t' ->
                     authMissing (Some t) = authMissing (Some t'))
    /\ (forall k t c cs, access_token t = Some (c :: cs) ->
          scheduleEvent w k (Some t) ed
          = (e <- normalize (tzOffset w) (clock w k) (currentTimeZone w) ed ;;
             event <- createCalendarEvent w k t e ;;
             Normal (confirmation event))).
Proof.
  intros w input tokens raw ed Hin Hg Hc Htok.
  assert (Hm : authMissing tokens = true).
  { destruct Htok as [-> | (t & -> & Ht)]; simpl; [| rewrite Ht]; reflexivity. }
  split; [| split; [| split]].
  - destruct input as [| c input]; [congruence |].
    apply chat_first_success.
    + rewrite (talkAs_classify w 0 (str "Ada") (c :: input) tokens raw Hg), Hc.
      now rewrite scheduleEvent_unauthorized.
    + vm_compute. reflexivity.
  - vm_compute. reflexivity.
  - intros t t' H. unfold authMissing. now rewrite H.
  - intros k t c cs H. unfold scheduleEvent, authMissing. rewrite H.
    reflexivity.
Qed.

Lemma chat_missing_authorization_witness :
  chat lunchWorld (str "Schedule lunch with Sam tomorrow at noon") None
  = Some (Status200 authMessage, mkChat authMessage true 0 1 []).
Proof.
  apply (chat_missing_authorization lunchWorld
           (str "Schedule lunch with Sam tomorrow at noon") None askForLunch
           (JObj [(str "summary", JStr (str "Lunch with Sam"))])).
  - discriminate.
  - reflexivity.
  - vm_compute. reflexivity.
  - left. reflexivity.
Defined.

(** ** The normalizer on ISO time stamps *)

Lemma isIso_truthy : forall dt, isIso dt = true -> truthy (JStr dt) = true.
Proof. intros [| c t] H; [discriminate H | reflexivity]. Qed.

(** The path to a string [dateTime] goes through a truthy value. *)
Lemma dateTimeOf_inv :
  forall which ed v,
    dateTimeOf which ed = Some v ->
    exists sv,
      getProp ed which = Normal (Some sv)
      /\ getProp sv (str "dateTime") = Normal (Some v)
      /\ truthy sv = true.
Proof.
  intros which ed v H. unfold dateTimeOf in H.
  destruct (getProp ed which) as [[sv |] | e] eqn:E; try discriminate.
  destruct (getProp sv (str "dateTime")) as [dt | e] eqn:E2;
    try discriminate.
  subst dt. exists sv. repeat split; auto.
  destruct sv; simpl in E2; try discriminate; reflexivity.
Qed.

Lemma repair_iso :
  forall which ed dt,
    dateTimeOf which ed = Some (JStr dt) ->
    isIso dt = true ->
    repairDateTime which ed = Normal ed.
Proof.
  intros which ed dt H Hiso.
  destruct (dateTimeOf_inv which ed (JStr dt) H) as (sv & Hs & Hd & Ht).
  pose proof (isIso_truthy dt Hiso) as Hne.
  unfold repairDateTime. rewrite Hs. cbn [bind truthyOpt member].
  rewrite Ht. cbn [negb]. rewrite Hd. cbn [bind truthyOpt].
  rewrite Hne. cbn [negb orElse]. rewrite Hne. cbn [jsIncludes bind].
  unfold isIso in Hiso.
  destruct (includes dt (str "-")); [reflexivity |].
  simpl in Hiso. cbn [bind]. rewrite Hiso. reflexivity.
Qed.

Lemma needsDefaults_complete :
  forall ed s e,
    dateTimeOf (str "start") ed = Some s -> truthy s = true ->
    dateTimeOf (str "end") ed = Some e -> truthy e = true ->
    needsDefaults ed = Normal false.
Proof.
  intros ed s e Hs Hst He Het.
  destruct (dateTimeOf_inv _ _ _ Hs) as (sv & Hs1 & Hs2 & Hs3).
  destruct (dateTimeOf_inv _ _ _ He) as (ev & He1 & He2 & He3).
  unfold needsDefaults. rewrite Hs1. cbn [bind truthyOpt]. rewrite Hs3.
  cbn [negb]. rewrite He1. cbn [bind truthyOpt]. rewrite He3.
  cbn [negb member]. rewrite Hs2. cbn [bind truthyOpt]. rewrite Hst.
  cbn [negb]. rewrite He2. cbn [bind truthyOpt]. rewrite Het. reflexivity.
Qed.

(** C9: when the [dateTime] of start and of end are strings that hold a '-'
    or a ':', the normalizer returns the event details as they are; applying
    it again, at any later time, gives the same. *)
Theorem normalize_iso_idempotent :
  forall tz now fb tz' now' fb' ed s e,
    dateTimeOf (str "start") ed = Some (JStr s) ->
    dateTimeOf (str "end") ed = Some (JStr e) ->
    isIso s = true ->
    isIso e = true ->
    normalize tz now fb ed = Normal ed
    /\ (e1 <- normalize tz now fb ed ;; normalize tz' now' fb' e1)
       = normalize tz now fb ed.
Proof.
  intros tz now fb tz' now' fb' ed s e Hs He His Hie.
  assert (Hn : forall tz now fb, normalize tz now fb ed = Normal ed).
  { intros tz0 now0 fb0. unfold normalize, applyDefaults.
    rewrite (needsDefaults_complete ed (JStr s) (JStr e) Hs
               (isIso_truthy s His) He (isIso_truthy e Hie)).
    cbn [bind]. rewrite (repair_iso (str "start") ed s Hs His). cbn [bind].
    apply (repair_iso (str "end") ed e He Hie). }
  split; [apply Hn |]. rewrite Hn. cbn [bind]. apply Hn.
Qed.

Lemma normalize_iso_idempotent_witness :
  normalize (fixedZone 0) 1754820000000 (str "UTC") isoEvent = Normal isoEvent
  /\ (e1 <- normalize (fixedZone 0) 1754820000000 (str "UTC") isoEvent ;;
      normalize (fixedZone 0) 1754906400000 (str "UTC") e1)
     = normalize (fixedZone 0) 1754820000000 (str "UTC") isoEvent.
Proof.
  apply (normalize_iso_idempotent (fixedZone 0) 1754820000000 (str "UTC")
           (fixedZone 0) 1754906400000 (str "UTC") isoEvent
           (str "2025-08-01T14:00:00-07:00")
           (str "2025-08-01T15:00:00-07:00")); reflexivity.
Defined.

(** ** The normalizer: the defaults *)

Section Defaults.

Local Open Scope Z_scope.

(** The day of a year (from March) and the year of an era are read back
    within their ranges. *)
Lemma civil_ranges :
  forall doe,
    0 <= doe <= 146096 ->
    let yoe := (doe - doe / 1460 + doe / 36524 - doe / 146096) / 365 in
    let doy := doe - (365 * yoe + yoe / 4 - yoe / 100) in
    0 <= yoe <= 399 /\ 0 <= doy <= 365.
Proof.
  intros doe H yoe doy. subst doy yoe.
  Z.div_mod_to_equations; lia.
Qed.

(** The first day of the month of a day, and the day of the month, give the
    day back. *)
Lemma daysFromCivil_civilFromDays :
  forall days y m d,
    civilFromDays days = (y, m, d) ->
    daysFromCivil y m 1 + d - 1 = days.
Proof.
  intros days y m d H. unfold civilFromDays in H.
  set (z := days + 719468) in *.
  set (era := z / 146097) in *.
  set (doe := z - era * 146097) in *.
  assert (Hdoe : 0 <= doe <= 146096).
  { subst doe era. Z.div_mod_to_equations; lia. }
  pose proof (civil_ranges doe Hdoe) as Hr. cbv zeta in Hr.
  set (yoe := (doe - doe / 1460 + doe / 36524 - doe / 146096) / 365) in *.
  set (doy := doe - (365 * yoe + yoe / 4 - yoe / 100)) in *.
  set (mp := (5 * doy + 2) / 153) in *.
  destruct Hr as [Hyoe Hdoy].
  assert (Hmp : 0 <= mp <= 11).
  { subst mp. Z.div_mod_to_equations; lia. }
  set (q := (153 * mp + 2) / 5) in *.
  clearbody mp.
  injection H as Hy Hm Hd.
  unfold daysFromCivil.
  assert (Hm3 : (if 2 <? m then m - 3 else m + 9) = mp).
  { subst m. destruct (mp <? 10) eqn:E.
    - apply Z.ltb_lt in E.
      destruct (2 <? mp + 3) eqn:E2; [lia | apply Z.ltb_ge in E2; lia].
    - apply Z.ltb_ge in E.
      destruct (2 <? mp - 9) eqn:E2; [apply Z.ltb_lt in E2; lia | lia]. }
  assert (Hy' : (if m <=? 2 then y - 1 else y) = yoe + era * 400).
  { subst y m. destruct (_ <=? 2); lia. }
  rewrite Hm3, Hy'.
  assert (He : (yoe + era * 400) / 400 = era).
  { Z.div_mod_to_equations; lia. }
  rewrite He.
  replace (yoe + era * 400 - era * 400) with yoe by lia.
  change ((153 * mp + 2) / 5) with q. clearbody q. subst d doy doe. lia.
Qed.

(** Setting the day of the month to the next one gives the same local time
    of the next day, read with the offset of the zone at that local time. *)
Lemma setDate_next_day :
  forall tz t,
    setDate tz t (getDate tz t + 1)
    = UTC tz ((Day (LocalTime tz t) + 1) * msPerDay
              + TimeWithinDay (LocalTime tz t)).
Proof.
  intros tz t. unfold setDate, getDate.
  destruct (civilFromDays (Day (LocalTime tz t))) as [[y m] d] eqn:E.
  apply daysFromCivil_civilFromDays in E. f_equal.
  rewrite <- E. ring.
Qed.

(** The default start is the instant of 09:00 local time of the day after
    today, when the change of the day has led into that day. *)
Lemma defaultStart_instant :
  forall tz now,
    Day (LocalTime tz
           (UTC tz ((Day (LocalTime tz now) + 1) * msPerDay
                    + TimeWithinDay (LocalTime tz now))))
    = Day (LocalTime tz now) + 1 ->
    defaultStart tz now
    = UTC tz ((Day (LocalTime tz now) + 1) * msPerDay + 9 * msPerHour).
Proof.
  intros tz now H. unfold defaultStart. rewrite setDate_next_day.
  unfold setHours4. rewrite H. reflexivity.
Qed.

(** From 09:00 local time, the hour after the one read is 10:00 of the same
    local day. *)
Lemma setHours1_after_nine :
  forall tz s D,
    LocalTime tz s = D * msPerDay + 9 * msPerHour ->
    setHours1 tz s (getHours tz s + 1)
    = UTC tz (D * msPerDay + 10 * msPerHour).
Proof.
  intros tz s D H.
  unfold setHours1, getHours, TimeWithinDay, Day.
  rewrite H.
  assert (Hd : (D * msPerDay + 9 * msPerHour) / msPerDay = D).
  { unfold msPerDay, msPerHour. Z.div_mod_to_equations; lia. }
  assert (Hw : (D * msPerDay + 9 * msPerHour) mod msPerDay = 9 * msPerHour).
  { unfold msPerDay, msPerHour. Z.div_mod_to_equations; lia. }
  rewrite Hd, Hw.
  replace (9 * msPerHour / msPerHour) with 9 by reflexivity.
  replace ((9 * msPerHour) mod msPerHour) with 0 by reflexivity.
  reflexivity.
Qed.

(** The default end is the instant of 10:00 local time of the day of the
    default start, when 09:00 of that day is a local time of the zone. *)
Lemma defaultEnd_instant :
  forall tz now,
    Day (LocalTime tz
           (UTC tz ((Day (LocalTime tz now) + 1) * msPerDay
                    + TimeWithinDay (LocalTime tz now))))
    = Day (LocalTime tz now) + 1 ->
    LocalTime tz
      (UTC tz ((Day (LocalTime tz now) + 1) * msPerDay + 9 * msPerHour))
    = (Day (LocalTime tz now) + 1) * msPerDay + 9 * msPerHour ->
    defaultEnd tz now
    = UTC tz ((Day (LocalTime tz now) + 1) * msPerDay + 10 * msPerHour).
Proof.
  intros tz now H1 H2. unfold defaultEnd.
  rewrite (defaultStart_instant tz now H1).
  now apply setHours1_after_nine.
Qed.

End Defaults.

Lemma includes_app_prefix :
  forall a s p, prefixb p s = true -> includes (a ++ s) p = true.
Proof.
  induction a as [| c a IH]; intros s p H; simpl.
  - destruct s; simpl in *; rewrite H; reflexivity.
  - rewrite (IH s p H). apply orb_true_r.
Qed.

Lemma toISOString_dash : forall t, includes (toISOString t) (str "-") = true.
Proof.
  intros t. unfold toISOString.
  destruct (civilFromDays (Day t)) as [[y m] d].
  apply includes_app_prefix. reflexivity.
Qed.

Lemma toISOString_isIso : forall t, isIso (toISOString t) = true.
Proof. intros t. unfold isIso. now rewrite toISOString_dash. Qed.

Lemma getProp_truthy :
  forall v k, truthy v = true -> exists x, getProp v k = Normal x.
Proof. intros [] k H; simpl; eauto; discriminate. Qed.

Lemma dateTimeOf_falsy_slot :
  forall which ed sv,
    getProp ed which = Normal (Some sv) ->
    truthy sv = false ->
    dateTimeOf which ed = None.
Proof.
  intros which ed sv H Hf. unfold dateTimeOf. rewrite H.
  destruct sv; simpl in *; try reflexivity; discriminate.
Qed.

(** The defaults apply as soon as a [dateTime] is missing. *)
Lemma needsDefaults_missing :
  forall ed,
    hasProps ed ->
    truthyOpt (dateTimeOf (str "start") ed) = false
    \/ truthyOpt (dateTimeOf (str "end") ed) = false ->
    needsDefaults ed = Normal true.
Proof.
  intros ed Hp H.
  assert (G : exists eprops,
             forall k, getProp ed k = Normal (lookupProp eprops k)).
  { destruct ed; try destruct Hp; eexists; intros k; reflexivity. }
  destruct G as (eprops & G). unfold dateTimeOf in H. rewrite !G in H.
  unfold needsDefaults. rewrite !G. cbn [bind].
  destruct (lookupProp eprops (str "start")) as [sv |] eqn:Es;
    cbn [truthyOpt negb]; [| reflexivity].
  destruct (truthy sv) eqn:Ts; cbn [negb]; [| reflexivity].
  destruct (lookupProp eprops (str "end")) as [ev |] eqn:Ee;
    cbn [truthyOpt negb]; [| reflexivity].
  destruct (truthy ev) eqn:Te; cbn [negb]; [| reflexivity].
  destruct (getProp_truthy sv (str "dateTime") Ts) as (x & Hx).
  destruct (getProp_truthy ev (str "dateTime") Te) as (y & Hy).
  cbn [member]. rewrite Hx. cbn [bind]. rewrite Hx, Hy in H.
  destruct (truthyOpt x) eqn:Tx; cbn [negb]; [| reflexivity].
  rewrite Hy. cbn [bind]. destruct H as [H | H]; [discriminate |].
  now rewrite H.
Qed.

(** C7 (as stated, refuted): event details that are a number pass the
    classifier, being truthy, and lack a start and an end; the assignments
    of the defaults to a number are dropped, and the number goes to the
    calendar as it is. *)
Lemma normalize_supplies_nothing_to_a_number :
  classify askWithNumber = CalendarEventIntent (JNum 5 0)
  /\ normalize newYorkMarch2025 1741446000000 (str "America/New_York")
       (JNum 5 0) = Normal (JNum 5 0)
  /\ getProp (JNum 5 0) (str "start") = Normal None
  /\ getProp (JNum 5 0) (str "end") = Normal None.
Proof. repeat split; vm_compute; reflexivity. Qed.

Section SuppliedDefaults.

Local Open Scope Z_scope.

(** C7 (amended): for event details that are an object (or an array), of
    which the start, the end or the [dateTime] of either is missing, the
    normalizer supplies both. With [tomorrow] the local day after the one
    of the clock, the [dateTime] of the start is the ISO string of the
    instant of 09:00 local time of [tomorrow], the one of the end the ISO
    string of the instant of 10:00 local time of [tomorrow], each read
    with the offset of the zone for that local time; so the end is one
    hour after the start when the two offsets are the same. Both carry as
    [timeZone] the one of the details when it is truthy, else the
    fallback. The zone is asked for two things: the local time of the
    clock, moved to [tomorrow], stands for an instant of [tomorrow], and
    09:00 of [tomorrow] is a local time of the zone. *)
Theorem normalize_supplies_defaults :
  forall (tz : TimeZone) now fb ed,
    let tomorrow := ((now + tz now true) / 86400000 + 1) * 86400000 in
    let sameTime := tomorrow + (now + tz now true) mod 86400000 in
    let nine := tomorrow + 9 * 3600000 in
    let ten := tomorrow + 10 * 3600000 in
    hasProps ed ->
    truthyOpt (dateTimeOf (str "start") ed) = false
    \/ truthyOpt (dateTimeOf (str "end") ed) = false ->
    (sameTime - tz sameTime false
     + tz (sameTime - tz sameTime false) true) / 86400000
    = tomorrow / 86400000 ->
    tz (nine - tz nine false) true = tz nine false ->
    exists e' start end_ own zone,
      normalize tz now fb ed = Normal e'
      /\ getProp ed (str "timeZone") = Normal own
      /\ (truthyOpt own = true -> own = Some zone)
      /\ (truthyOpt own = false -> zone = JStr fb)
      /\ getProp e' (str "start") = Normal (Some start)
      /\ getProp start (str "dateTime")
         = Normal (Some (JStr (toISOString (nine - tz nine false))))
      /\ getProp start (str "timeZone") = Normal (Some zone)
      /\ getProp e' (str "end") = Normal (Some end_)
      /\ getProp end_ (str "dateTime")
         = Normal (Some (JStr (toISOString (ten - tz ten false))))
      /\ getProp end_ (str "timeZone") = Normal (Some zone)
      /\ (tz ten false = tz nine false ->
          ten - tz ten false = nine - tz nine false + 3600000).
Proof.
  intros tz now fb ed tomorrow sameTime nine ten Hp H Hday Hnine.
  assert (Et : tomorrow = (Day (LocalTime tz now) + 1) * msPerDay).
  { reflexivity. }
  assert (Eday : tomorrow / 86400000 = Day (LocalTime tz now) + 1).
  { rewrite Et. unfold msPerDay. apply Z.div_mul. discriminate. }
  assert (H1 : Day (LocalTime tz
                      (UTC tz ((Day (LocalTime tz now) + 1) * msPerDay
                               + TimeWithinDay (LocalTime tz now))))
               = Day (LocalTime tz now) + 1).
  { transitivity (tomorrow / 86400000); [exact Hday | exact Eday]. }
  assert (H2 : LocalTime tz
                 (UTC tz ((Day (LocalTime tz now) + 1) * msPerDay
                          + 9 * msPerHour))
               = (Day (LocalTime tz now) + 1) * msPerDay + 9 * msPerHour).
  { change ((Day (LocalTime tz now) + 1) * msPerDay + 9 * msPerHour)
      with nine.
    unfold LocalTime at 1. unfold UTC. rewrite Hnine. ring. }
  pose proof (defaultStart_instant tz now H1) as Es.
  pose proof (defaultEnd_instant tz now H1 H2) as Ee.
  change (UTC tz ((Day (LocalTime tz now) + 1) * msPerDay + 9 * msPerHour))
    with (nine - tz nine false) in Es.
  change (UTC tz ((Day (LocalTime tz now) + 1) * msPerDay + 10 * msPerHour))
    with (ten - tz ten false) in Ee.
  assert (Hh : ten = nine + 3600000) by (unfold ten, nine; ring).
  clearbody tomorrow sameTime nine ten. clear Et Eday H1 H2 Hday Hnine.
  assert (G : exists eprops set,
             (forall k, getProp ed k = Normal (lookupProp eprops k))
             /\ (forall k x, setProp ed k x = set (setProps eprops k x))
             /\ (forall props k,
                   getProp (set props) k = Normal (lookupProp props k))
             /\ (forall props k x,
                   setProp (set props) k x = set (setProps props k x))).
  { destruct ed as [| | | | elems eprops | eprops]; try destruct Hp.
    - exists eprops, (JArr elems). repeat split; reflexivity.
    - exists eprops, JObj. repeat split; reflexivity. }
  destruct G as (eprops & set & Gget & Gset & Sget & Sset).
  set (own := lookupProp eprops (str "timeZone")).
  set (zone := orElse own (JStr fb)).
  set (s1 := slot (toISOString (nine - tz nine false)) zone).
  set (s2 := slot (toISOString (ten - tz ten false)) zone).
  set (e2 := set (setProps (setProps eprops (str "start") s1) (str "end") s2)).
  assert (Hstart : getProp e2 (str "start") = Normal (Some s1)).
  { unfold e2. rewrite Sget. rewrite lookup_setProps_other by reflexivity.
    now rewrite lookup_setProps_same. }
  assert (Hend : getProp e2 (str "end") = Normal (Some s2)).
  { unfold e2. rewrite Sget. now rewrite lookup_setProps_same. }
  assert (Hdef : applyDefaults tz now fb ed = Normal e2).
  { unfold applyDefaults. rewrite (needsDefaults_missing ed Hp H).
    cbn [bind]. rewrite Gget. cbn [bind]. rewrite Gset, Sget. cbn [bind].
    rewrite lookup_setProps_other by reflexivity.
    rewrite Sset, Es, Ee. reflexivity. }
  exists e2, s1, s2, own, zone.
  split; [| split; [apply Gget | split; [| split; [|
    split; [exact Hstart | split; [reflexivity | split; [reflexivity |
    split; [exact Hend | split; [reflexivity | split; [reflexivity |]]]]]]]]]].
  - unfold normalize. rewrite Hdef. cbn [bind].
    rewrite (repair_iso (str "start") e2
               (toISOString (nine - tz nine false))).
    + cbn [bind].
      apply (repair_iso (str "end") e2 (toISOString (ten - tz ten false))).
      * unfold dateTimeOf. rewrite Hend. reflexivity.
      * apply toISOString_isIso.
    + unfold dateTimeOf. rewrite Hstart. reflexivity.
    + apply toISOString_isIso.
  - intros T. unfold zone. destruct own as [v |]; [| discriminate T].
    cbn [truthyOpt] in T. cbn [orElse]. now rewrite T.
  - intros T. unfold zone. destruct own as [v |]; [| reflexivity].
    cbn [truthyOpt] in T. cbn [orElse]. now rewrite T.
  - intros E. rewrite E, Hh. ring.
Qed.

End SuppliedDefaults.

Lemma normalize_supplies_defaults_witness :
  exists e' start end_,
    normalize newYorkMarch2025 1741446000000 (str "America/New_York")
      (JObj [(str "summary", JStr (str "Lunch with Sam"))]) = Normal e'
    /\ getProp e' (str "start") = Normal (Some start)
    /\ getProp start (str "dateTime")
       = Normal (Some (JStr (str "2025-03-09T13:00:00.000Z")))
    /\ getProp start (str "timeZone")
       = Normal (Some (JStr (str "America/New_York")))
    /\ getProp e' (str "end") = Normal (Some end_)
    /\ getProp end_ (str "dateTime")
       = Normal (Some (JStr (str "2025-03-09T14:00:00.000Z")))
    /\ getProp end_ (str "timeZone")
       = Normal (Some (JStr (str "America/New_York"))).
Proof.
  destruct (normalize_supplies_defaults newYorkMarch2025 1741446000000
              (str "America/New_York")
              (JObj [(str "summary", JStr (str "Lunch with Sam"))]))
    as (e' & start & end_ & own & zone & Hn & Ho & _ & Hz & Hs & Hsd & Hsz
        & He & Hed & Hez & _).
  - exact I.
  - left. reflexivity.
  - reflexivity.
  - reflexivity.
  - injection Ho as <-. rewrite (Hz eq_refl) in Hsz, Hez.
    exists e', start, end_. repeat split; assumption.
Defined.

(** The defaults on a clock of 10 August 2025, 10:00 UTC, in a zone
    without offset; on the eve of the change of the offset in New York,
    where 09:00 of the next day is 13:00 UTC; and in a zone whose offset
    changes between 09:00 and 10:00 of the next day, where the end is two
    hours after the start. *)
Example defaults_of_lunch :
  normalize (fixedZone 0) 1754820000000 (str "UTC")
    (JObj [(str "summary", JStr (str "Lunch with Sam"))])
  = Normal (JObj [(str "summary", JStr (str "Lunch with Sam"));
                  (str "start", slot (str "2025-08-11T09:00:00.000Z")
                                  (JStr (str "UTC")));
                  (str "end", slot (str "2025-08-11T10:00:00.000Z")
                                (JStr (str "UTC")))]).
Proof. vm_compute. reflexivity. Qed.

Example defaults_across_change_of_offset :
  normalize newYorkMarch2025 1741446000000 (str "America/New_York")
    (JObj [(str "summary", JStr (str "Lunch with Sam"))])
  = Normal (JObj [(str "summary", JStr (str "Lunch with Sam"));
                  (str "start", slot (str "2025-03-09T13:00:00.000Z")
                                  (JStr (str "America/New_York")));
                  (str "end", slot (str "2025-03-09T14:00:00.000Z")
                                (JStr (str "America/New_York")))]).
Proof. vm_compute. reflexivity. Qed.

Example defaults_two_hours_apart :
  normalize lateChange 1754820000000 (str "UTC")
    (JObj [(str "summary", JStr (str "Lunch with Sam"))])
  = Normal (JObj [(str "summary", JStr (str "Lunch with Sam"));
                  (str "start", slot (str "2025-08-11T07:00:00.000Z")
                                  (JStr (str "UTC")));
                  (str "end", slot (str "2025-08-11T09:00:00.000Z")
                                (JStr (str "UTC")))]).
Proof. vm_compute. reflexivity. Qed.

(** ** The formatter: fields that are not found *)

(** An expression that begins with a label finds nothing in a text where
    the label does not occur. *)
Lemma exec_label_absent :
  forall label rest s,
    includesCI s label = false ->
    exec (Seq (Lit true label) rest) s = None.
Proof.
  intros label rest s. induction s as [| c t IH]; intros H.
  - simpl in H. unfold exec, matchAt. cbn [rmatch].
    destruct (litMatch true label []); [discriminate | reflexivity].
  - cbn [includesCI] in H. cbn [exec]. unfold matchAt. cbn [rmatch].
    destruct (litMatch true label (c :: t)); [discriminate |].
    apply IH. exact H.
Qed.

Lemma litMatch_fold :
  forall p p' s,
    map upper p = map upper p' -> litMatch true p s = litMatch true p' s.
Proof.
  induction p as [| a p IH]; intros [| a' p'] s H; try discriminate.
  - reflexivity.
  - cbn [map] in H. injection H as Ha Hp.
    destruct s as [| b s]; [reflexivity |].
    cbn [litMatch]. unfold chr_eqb. rewrite Ha, (IH p' s Hp). reflexivity.
Qed.

Lemma includesCI_fold :
  forall p p' s,
    map upper p = map upper p' -> includesCI s p = includesCI s p'.
Proof.
  intros p p' s H. induction s as [| c t IH]; cbn [includesCI];
    rewrite (litMatch_fold p p' _ H); [reflexivity | now rewrite IH].
Qed.

Lemma match1_label_absent :
  forall label rest s,
    includesCI s label = false ->
    match1 (Seq (Lit true label) rest) s = None.
Proof.
  intros label rest s H. unfold match1.
  now rewrite (exec_label_absent label rest s H).
Qed.

(** Replacing every '*' and '-' by nothing keeps the other code units. *)
Lemma replaceAll_strip :
  forall s,
    replaceAll reStarOrDash [] s
    = filter (fun c => negb (isStarOrDash c)) s.
Proof.
  unfold replaceAll, reStarOrDash.
  induction s as [| c t IH]; [reflexivity |].
  cbn [replace_go filter]. unfold matchAt. cbn [rmatch].
  destruct (isStarOrDash c); cbn [negb].
  - replace (List.length (c :: t) - List.length t) with 1
      by (cbn [List.length]; lia).
    cbn [app]. exact IH.
  - now rewrite IH.
Qed.

Lemma trim_Forall :
  forall (P : char -> Prop) s, Forall P s -> Forall P (trim s).
Proof.
  intros P s H. destruct (trim_split s) as (a & b & Hs & _ & _).
  rewrite Hs in H. apply Forall_app in H. destruct H as [_ H].
  apply Forall_app in H. tauto.
Qed.

Lemma strip_Forall :
  forall s,
    Forall (fun c => c <> 42%N /\ c <> 45%N)
      (filter (fun c => negb (isStarOrDash c)) s).
Proof.
  intros s. apply Forall_forall. intros c Hc.
  apply filter_In in Hc. destruct Hc as [_ Hc].
  unfold isStarOrDash in Hc. apply negb_true_iff in Hc.
  apply orb_false_iff in Hc. destruct Hc as [H1 H2].
  apply N.eqb_neq in H1. apply N.eqb_neq in H2. auto.
Qed.

Lemma litMatch_app :
  forall ci p s r b,
    litMatch ci p s = Some r -> litMatch ci p (s ++ b) = Some (r ++ b).
Proof.
  induction p as [| a p IH]; intros s r b H; cbn [litMatch] in *.
  - now injection H as ->.
  - destruct s as [| c s]; [discriminate |]. cbn [app].
    destruct (chr_eqb ci a c); [now apply IH | discriminate].
Qed.

Lemma includesCI_app_r :
  forall s b label,
    includesCI s label = true -> includesCI (s ++ b) label = true.
Proof.
  induction s as [| c t IH]; intros b label H; cbn [includesCI] in H.
  - destruct (litMatch true label []) eqn:E; [| discriminate].
    apply (litMatch_app _ _ _ _ b) in E. cbn [app] in E. cbn [app].
    destruct b; cbn [includesCI]; now rewrite E.
  - cbn [app includesCI].
    destruct (litMatch true label (c :: t)) eqn:E.
    + apply (litMatch_app _ _ _ _ b) in E. cbn [app] in E. now rewrite E.
    + destruct (litMatch true label (c :: t ++ b)); [reflexivity |].
      now apply IH.
Qed.

Lemma includesCI_app_l :
  forall a s label,
    includesCI s label = true -> includesCI (a ++ s) label = true.
Proof.
  induction a as [| c a IH]; intros s label H; [exact H |].
  cbn [app includesCI].
  destruct (litMatch true label (c :: a ++ s)); [reflexivity |].
  now apply IH.
Qed.

Lemma includesCI_trim :
  forall s label,
    includesCI (trim s) label = true -> includesCI s label = true.
Proof.
  intros s label H. destruct (trim_split s) as (a & b & Hs & _ & _).
  rewrite Hs. now apply includesCI_app_l, includesCI_app_r.
Qed.

(** A label that does not occur in a block does not occur in the block as
    [parseBlock] reads it either: none of the seven labels can begin in the
    label of the name put in front. *)
Lemma fullBlock_label_absent :
  forall block label,
    In label [str "Concept:"; str "Key Features:"; str "Target Market:";
              str "Unique Value Proposition:"; str "Monetization:";
              str "Potential Challenges/Considerations:"; str "summary:"] ->
    includesCI block label = false ->
    includesCI (fullBlockOf block) label = false.
Proof.
  intros block label Hin H.
  assert (E : includesCI (fullBlockOf block) label
              = includesCI (trim block) label).
  { unfold fullBlockOf. cbn [In] in Hin.
    repeat (destruct Hin as [<- | Hin]; [reflexivity |]). destruct Hin. }
  rewrite E. destruct (includesCI (trim block) label) eqn:T; [| reflexivity].
  apply includesCI_trim in T. congruence.
Qed.

(** The defaults of [parseBlock] on any block: each of the seven fields
    after the name is N/A when its label does not occur in the block,
    letters compared without case. The name is Idea followed by the 1-based
    index when its expression finds nothing; when it finds a capture, the
    name is the capture without any '*' or '-', trimmed. *)
Theorem parseBlock_defaults :
  forall block index,
    let r := parseBlock block index in
    (includesCI block (str "Concept:") = false -> concept r = NA)
    /\ (includesCI block (str "Key Features:") = false ->
        keyFeatures r = NA)
    /\ (includesCI block (str "Target Market:") = false ->
        targetMarket r = NA)
    /\ (includesCI block (str "Unique Value Proposition:") = false ->
        usp r = NA)
    /\ (includesCI block (str "Monetization:") = false ->
        monetization r = NA)
    /\ (includesCI block (str "Potential Challenges/Considerations:")
        = false -> challenges r = NA)
    /\ (includesCI block (str "Summary:") = false -> summary r = NA)
    /\ (match1 reIdeaName (fullBlockOf block) = None ->
        ideaName r = str "Idea " ++ decimal (index + 1))
    /\ (forall c, match1 reIdeaName (fullBlockOf block) = Some c ->
          ideaName r = trim (filter (fun x => negb (isStarOrDash x)) c)
          /\ Forall (fun x => x <> 42%N /\ x <> 45%N) (ideaName r)).
Proof.
  intros block index r.
  repeat match goal with |- _ /\ _ => split end;
    try (intros H; subst r; unfold parseBlock; cbn [concept keyFeatures
           targetMarket usp monetization challenges summary];
         fold (fullBlockOf block);
         unfold reConcept, reKeyFeatures, reTargetMarket, reUsp,
           reMonetization, reChallenges, reSummary, reField;
         rewrite match1_label_absent; [reflexivity |];
         apply fullBlock_label_absent; [cbn [In]; tauto | exact H]).
  - intros H. subst r. unfold parseBlock. cbn [summary].
    fold (fullBlockOf block).
    unfold reSummary. rewrite match1_label_absent; [reflexivity |].
    apply fullBlock_label_absent; [cbn [In]; tauto |].
    rewrite (includesCI_fold (str "summary:") (str "Summary:") block
               eq_refl).
    exact H.
  - intros H. subst r. unfold parseBlock. cbn [ideaName].
    fold (fullBlockOf block). now rewrite H.
  - intros c H.
    assert (E : ideaName r = trim (filter (fun x => negb (isStarOrDash x)) c)).
    { subst r. unfold parseBlock. cbn [ideaName]. fold (fullBlockOf block).
      rewrite H. now rewrite replaceAll_strip. }
    split; [exact E |]. rewrite E. apply trim_Forall, strip_Forall.
Qed.

Lemma parseBlock_defaults_witness :
  concept (parseBlock (str " Solar Kit Summary: small panels") 0) = NA
  /\ ideaName (parseBlock (str " *Solar-Kit* Summary: small panels") 0)
     = str "SolarKit Summary: small panels".
Proof.
  split.
  - destruct (parseBlock_defaults (str " Solar Kit Summary: small panels") 0)
      as (H & _).
    apply H. reflexivity.
  - destruct (parseBlock_defaults
                (str " *Solar-Kit* Summary: small panels") 0)
      as (_ & _ & _ & _ & _ & _ & _ & _ & H).
    destruct (H (str "*Solar-Kit* Summary: small panels")) as [E _].
    + vm_compute. reflexivity.
    + rewrite E. vm_compute. reflexivity.
Defined.

(** ** Where the failure marker can come from *)

(** *** Occurrences *)

Lemma prefixb_spec :
  forall p s, prefixb p s = true <-> exists b, s = p ++ b.
Proof.
  induction p as [| a p IH]; intros s; simpl.
  - split; [intros _; exists s; reflexivity | reflexivity].
  - destruct s as [| c s].
    + split; [discriminate | intros (b & H); discriminate].
    + rewrite andb_true_iff, N.eqb_eq, IH. split.
      * intros (-> & b & ->). exists b. reflexivity.
      * intros (b & H). injection H as -> ->. eauto.
Qed.

Lemma includes_spec :
  forall s m, includes s m = true <-> exists a b, s = a ++ m ++ b.
Proof.
  induction s as [| c s IH]; intros m; simpl.
  - rewrite orb_false_r, prefixb_spec. split.
    + intros (b & H). exists [], b. exact H.
    + intros (a & b & H). destruct a; [| discriminate]. eauto.
  - rewrite orb_true_iff, prefixb_spec, IH. split.
    + intros [(b & H) | (a & b & H)].
      * exists [], b. exact H.
      * exists (c :: a), b. simpl. now rewrite H.
    + intros (a & b & H). destruct a as [| x a].
      * left. exists b. exact H.
      * right. injection H as _ H. eauto.
Qed.

Lemma includes_false_iff :
  forall s m, includes s m = false <-> ~ exists a b, s = a ++ m ++ b.
Proof.
  intros s m. rewrite <- includes_spec.
  destruct (includes s m); split; try congruence; intros H; exfalso; auto.
Qed.

(** An occurrence in a part is an occurrence in the whole. *)
Lemma includes_infix :
  forall a s b m, includes s m = true -> includes (a ++ s ++ b) m = true.
Proof.
  intros a s b m H. apply includes_spec in H. destruct H as (x & y & ->).
  apply includes_spec. exists (a ++ x), (y ++ b).
  now rewrite <- !app_assoc.
Qed.

Lemma includes_trans :
  forall s m m', includes s m = true -> includes m m' = true ->
                 includes s m' = true.
Proof.
  intros s m m' H H'. apply includes_spec in H. destruct H as (a & b & ->).
  now apply includes_infix.
Qed.

Lemma includes_In :
  forall s m c, includes s m = true -> In c m -> In c s.
Proof.
  intros s m c H Hc. apply includes_spec in H. destruct H as (a & b & ->).
  apply in_or_app. right. apply in_or_app. now left.
Qed.

(** A code unit that the pattern does not hold cuts the text in two. *)
Lemma includes_sep :
  forall a c b m,
    ~ In c m -> m <> [] ->
    includes (a ++ c :: b) m = includes a m || includes b m.
Proof.
  intros a c b m Hc Hm.
  destruct (includes a m || includes b m) eqn:E.
  - apply orb_true_iff in E. destruct E as [E | E].
    + change (a ++ c :: b) with (a ++ ([c] ++ b)).
      replace (a ++ [c] ++ b) with ([] ++ a ++ ([c] ++ b)) by reflexivity.
      now apply includes_infix.
    + replace (a ++ c :: b) with ((a ++ [c]) ++ b ++ [])
        by (rewrite app_nil_r, <- app_assoc; reflexivity).
      now apply includes_infix.
  - apply orb_false_iff in E. destruct E as [Ea Eb].
    apply includes_false_iff. intros (x & y & H).
    apply app_eq_app in H. destruct H as (l & [[H1 H2] | [H1 H2]]).
    + apply app_eq_app in H2.
      destruct H2 as (l2 & [[H3 H4] | [H3 H4]]).
      * destruct l2 as [| c' l2].
        -- rewrite app_nil_r in H3. subst l.
           apply includes_false_iff in Ea. apply Ea.
           exists x, []. now rewrite app_nil_r.
        -- injection H4 as -> _. apply Hc. rewrite H3.
           apply in_or_app. right. now left.
      * apply includes_false_iff in Ea. apply Ea.
        exists x, l2. now rewrite H1, H3.
    + destruct l as [| c' l].
      * simpl in H2. destruct m as [| c' m]; [congruence |].
        injection H2 as -> _. apply Hc. now left.
      * injection H2 as -> H2.
        apply includes_false_iff in Eb. apply Eb. eauto.
Qed.

(** *** What a match can capture *)

Lemma suffixOf_refl : forall s, suffixOf s s.
Proof. intros s. now exists []. Qed.

Lemma suffixOf_trans :
  forall a b c, suffixOf a b -> suffixOf b c -> suffixOf a c.
Proof.
  intros a b c (p & ->) (q & ->). exists (q ++ p). now rewrite app_assoc.
Qed.

Lemma suffixOf_cons : forall c s, suffixOf s (c :: s).
Proof. intros c s. now exists [c]. Qed.

Lemma litMatch_suffix :
  forall ci p s s', litMatch ci p s = Some s' -> suffixOf s' s.
Proof.
  induction p as [| a p IH]; intros s s' H; simpl in H.
  - injection H as ->. apply suffixOf_refl.
  - destruct s as [| b s]; [discriminate |].
    destruct (chr_eqb ci a b); [| discriminate].
    eapply suffixOf_trans; [apply (IH _ _ H) | apply suffixOf_cons].
Qed.

Lemma starG_inv :
  forall p S s cap k res,
    capOK S cap -> starG p s cap k = Some res -> entersCont S s k res.
Proof.
  intros p S s cap k res Hc. induction s as [| c t IH]; simpl; intros H.
  - exists [], cap. auto using suffixOf_refl.
  - destruct (p c).
    + destruct (starG p t cap k) eqn:E.
      * injection H as ->. destruct (IH eq_refl) as (s' & cap' & H1 & H2 & H3).
        exists s', cap'. split; [| auto].
        eapply suffixOf_trans; [exact H1 | apply suffixOf_cons].
      * exists (c :: t), cap. auto using suffixOf_refl.
    + exists (c :: t), cap. auto using suffixOf_refl.
Qed.

Lemma starL_inv :
  forall p S s cap k res,
    capOK S cap -> starL p s cap k = Some res -> entersCont S s k res.
Proof.
  intros p S s cap k res Hc. induction s as [| c t IH]; simpl; intros H.
  - destruct (k [] cap) eqn:E; [| discriminate].
    injection H as ->. exists [], cap. auto using suffixOf_refl.
  - destruct (k (c :: t) cap) eqn:E.
    + injection H as ->. exists (c :: t), cap. auto using suffixOf_refl.
    + destruct (p c); [| discriminate].
      destruct (IH H) as (s' & cap' & H1 & H2 & H3).
      exists s', cap'. split; [| auto].
      eapply suffixOf_trans; [exact H1 | apply suffixOf_cons].
Qed.

Lemma firstn_suffix :
  forall p s' : jsstring,
    firstn (List.length (p ++ s') - List.length s') (p ++ s') = p.
Proof.
  intros p s'. rewrite length_app.
  replace (List.length p + List.length s' - List.length s')
    with (List.length p) by lia.
  rewrite firstn_app, firstn_all, Nat.sub_diag. simpl. apply app_nil_r.
Qed.

Lemma rmatch_inv :
  forall r S s cap k res,
    suffixOf s S -> capOK S cap ->
    rmatch r s cap k = Some res -> entersCont S s k res.
Proof.
  induction r as [ci l | p | p | p | p | r1 IH1 | r1 IH1 r2 IH2
                 | r1 IH1 r2 IH2 | r1 IH1 |];
    intros S s cap k res Hs Hc H; cbn [rmatch] in H.
  - destruct (litMatch ci l s) as [s' |] eqn:E; [| discriminate].
    exists s', cap. split; [eapply litMatch_suffix; eauto | auto].
  - destruct s as [| c t]; [discriminate |].
    destruct (p c); [| discriminate].
    exists t, cap. auto using suffixOf_cons.
  - eapply starG_inv; eauto.
  - destruct s as [| c t]; [discriminate |].
    destruct (p c); [| discriminate].
    destruct (starG_inv p S t cap k res Hc H) as (s' & cap' & H1 & H2 & H3).
    exists s', cap'. split; [| auto].
    eapply suffixOf_trans; [exact H1 | apply suffixOf_cons].
  - eapply starL_inv; eauto.
  - destruct (IH1 S s cap _ res Hs Hc H) as (s' & cap' & H1 & H2 & H3).
    exists s', (Some (firstn (List.length s - List.length s') s)).
    split; [exact H1 | split; [| exact H3]].
    destruct H1 as (p & ->). rewrite firstn_suffix.
    destruct Hs as (q & ->). exists q, s'. reflexivity.
  - destruct (IH1 S s cap _ res Hs Hc H) as (s1 & cap1 & H1 & H2 & H3).
    destruct (IH2 S s1 cap1 k res (suffixOf_trans _ _ _ H1 Hs) H2 H3)
      as (s2 & cap2 & H4 & H5 & H6).
    exists s2, cap2. split; [eapply suffixOf_trans; eauto | auto].
  - destruct (rmatch r1 s cap k) eqn:E.
    + injection H as ->. eapply IH1; eauto.
    + eapply IH2; eauto.
  - destruct (rmatch r1 s cap (fun s' cap' => Some (s', cap')))
      as [[s1 cap1] |] eqn:E; [| discriminate].
    destruct (IH1 S s cap _ _ Hs Hc E) as (s2 & cap2 & H1 & H2 & H3).
    injection H3 as -> ->.
    exists s, cap1. auto using suffixOf_refl.
  - destruct s; [| discriminate].
    exists [], cap. auto using suffixOf_refl.
Qed.

Lemma infixOf_cons : forall c s x, infixOf c s -> infixOf c (x :: s).
Proof. intros c s x (a & b & ->). now exists (x :: a), b. Qed.

(** The capture of a match found in a text is a part of the text. *)
Lemma match1_infix :
  forall r s c, match1 r s = Some c -> infixOf c s.
Proof.
  intros r s c. unfold match1.
  destruct (exec r s) as [[s' cap] |] eqn:E; [| discriminate].
  assert (Hcap : capOK s cap).
  { clear c. revert s' cap E. induction s as [| x t IH]; intros s' cap E.
    - cbn [exec] in E. destruct (matchAt r []) as [[s1 cap1] |] eqn:M;
        [| discriminate].
      injection E as -> ->. unfold matchAt in M.
      destruct (rmatch_inv r [] [] None _ _ (suffixOf_refl _) I M)
        as (s2 & cap2 & _ & H2 & H3).
      now injection H3 as -> ->.
    - cbn [exec] in E. destruct (matchAt r (x :: t)) as [[s1 cap1] |] eqn:M.
      + injection E as -> ->. unfold matchAt in M.
        destruct (rmatch_inv r (x :: t) (x :: t) None _ _
                    (suffixOf_refl _) I M) as (s2 & cap2 & _ & H2 & H3).
        now injection H3 as -> ->.
      + specialize (IH _ _ E). destruct cap as [c0 |]; [| exact I].
        now apply infixOf_cons. }
  destruct cap as [c0 |]; intros H; injection H as <-.
  - exact Hcap.
  - now exists [], s.
Qed.

(** *** Code units are not invented *)

Section Preservation.

Variable P : char -> Prop.

Lemma replace_go_Forall :
  forall r repl s skip,
    Forall P repl -> Forall P s -> Forall P (replace_go r repl s skip).
Proof.
  intros r repl s. induction s as [| c t IH]; intros skip Hr Hs.
  - simpl. destruct skip; [| constructor].
    destruct (matchAt r []); [exact Hr | constructor].
  - inversion Hs as [| ? ? Hc Ht]; subst. cbn [replace_go].
    destruct skip as [| n]; [| now apply IH].
    destruct (matchAt r (c :: t)) as [[s' cap] |].
    + destruct (List.length (c :: t) - List.length s').
      * apply Forall_app. split; [exact Hr |]. constructor; auto.
      * apply Forall_app. split; auto.
    + constructor; auto.
Qed.

Lemma split_go_Forall :
  forall r s skip cur,
    Forall P s -> Forall P cur -> Forall (Forall P) (split_go r s skip cur).
Proof.
  intros r s. induction s as [| c t IH]; intros skip cur Hs Hcur.
  - simpl. constructor; [| constructor]. now apply Forall_rev.
  - inversion Hs as [| ? ? Hc Ht]; subst. cbn [split_go].
    destruct skip as [| n]; [| now apply IH].
    destruct (matchAt r (c :: t)) as [[s' cap] |].
    + destruct (List.length (c :: t) - List.length s').
      * destruct cur as [| x cur].
        -- apply IH; auto.
        -- constructor; [now apply Forall_rev | apply IH; auto].
      * constructor; [now apply Forall_rev | apply IH; auto].
    + apply IH; auto.
Qed.

Lemma split_Forall :
  forall r s, Forall P s -> Forall (Forall P) (split r s).
Proof.
  intros r [| c t] H; unfold split.
  - destruct (matchAt r []); repeat constructor.
  - apply split_go_Forall; auto.
Qed.

Lemma infixOf_Forall :
  forall c s, infixOf c s -> Forall P s -> Forall P c.
Proof.
  intros c s (a & b & ->) H. apply Forall_app in H. destruct H as [_ H].
  apply Forall_app in H. tauto.
Qed.

End Preservation.

Lemma filter_all :
  forall (p : char -> bool) s,
    Forall (fun c => p c = true) s -> filter p s = s.
Proof.
  intros p s H. induction H as [| c s Hc _ IH]; simpl.
  - reflexivity.
  - now rewrite Hc, IH.
Qed.

Lemma ideaBlocks_Forall :
  forall (P : char -> Prop) text,
    P 32%N -> Forall P text -> Forall (Forall P) (ideaBlocks text).
Proof.
  intros P text Hsp H. unfold ideaBlocks.
  apply Forall_forall. intros b Hb. apply filter_In in Hb.
  destruct Hb as [Hb _]. revert b Hb. apply Forall_forall.
  apply split_Forall. unfold cleanText. apply trim_Forall.
  apply replace_go_Forall; [repeat constructor; exact Hsp | exact H].
Qed.

(** *** The pieces of a split hold no delimiter *)

(** The delimiter matches wherever the text goes on with the label of the
    first idea, and takes its 13 code units. *)
Lemma matchAt_firstLabel :
  forall X, matchAt reIdeaSplit (firstLabel ++ X) = Some (X, None).
Proof. intros X. reflexivity. Qed.

Lemma noStart_nil : forall s, noStart [] s.
Proof. intros s a x b H. destruct a; discriminate. Qed.

Lemma noStart_piece :
  forall cur s, noStart cur s -> includes (rev cur) firstLabel = false.
Proof.
  intros cur s H. apply includes_false_iff. intros (a & b & E).
  specialize (H a 49%N (str ". Idea Name:" ++ b) E).
  assert (T : prefixb firstLabel (49%N :: (str ". Idea Name:" ++ b) ++ s)
              = true).
  { apply prefixb_spec. exists (b ++ s).
    unfold firstLabel. simpl. reflexivity. }
  exact (eq_true_false_abs _ T H).
Qed.

Lemma noStart_step :
  forall cur c t,
    noStart cur (c :: t) ->
    prefixb firstLabel (c :: t) = false ->
    noStart (c :: cur) t.
Proof.
  intros cur c t H Hc a x b E. simpl in E.
  induction b as [| y b' _] using rev_ind.
  - apply app_inj_tail in E. destruct E as [_ <-]. exact Hc.
  - change (a ++ x :: b' ++ [y]) with (a ++ (x :: b') ++ [y]) in E.
    rewrite app_assoc in E. apply app_inj_tail in E.
    destruct E as [E ->]. rewrite <- app_assoc. simpl.
    apply (H a x b' E).
Qed.

Lemma prefixb_firstLabel_match :
  forall s,
    prefixb firstLabel s = true ->
    exists X, matchAt reIdeaSplit s = Some (X, None)
              /\ List.length s - List.length X = 13.
Proof.
  intros s H. apply prefixb_spec in H. destruct H as (X & ->).
  exists X. split; [apply matchAt_firstLabel |].
  rewrite length_app. change (List.length firstLabel) with 13. lia.
Qed.

Lemma split_go_noLabel :
  forall s skip cur,
    skip = 0 \/ cur = [] ->
    noStart cur s ->
    Forall (fun p => includes p firstLabel = false)
      (split_go reIdeaSplit s skip cur).
Proof.
  induction s as [| c t IH]; intros skip cur Hk Hn.
  - simpl. constructor; [| constructor]. now apply (noStart_piece cur []).
  - cbn [split_go]. destruct skip as [| n].
    + destruct (prefixb firstLabel (c :: t)) eqn:Ep.
      * destruct (prefixb_firstLabel_match _ Ep) as (X & -> & ->).
        constructor; [now apply (noStart_piece cur (c :: t)) |].
        apply IH; [now right | apply noStart_nil].
      * assert (Hn' : noStart (c :: cur) t) by now apply noStart_step.
        assert (Hc : noStart [c] t).
        { apply noStart_step; [apply noStart_nil | exact Ep]. }
        destruct (matchAt reIdeaSplit (c :: t)) as [[s' cap] |].
        -- destruct (List.length (c :: t) - List.length s').
           ++ destruct cur as [| x cur].
              ** apply IH; [now left | exact Hc].
              ** constructor; [now apply (noStart_piece _ (c :: t)) |].
                 apply IH; [now left | exact Hc].
           ++ constructor; [now apply (noStart_piece cur (c :: t)) |].
              apply IH; [now right | apply noStart_nil].
        -- apply IH; [now left | exact Hn'].
    + destruct Hk as [Hk | ->]; [discriminate |].
      apply IH; [now right | apply noStart_nil].
Qed.

(** No piece of the split holds the label of the first idea. *)
Lemma split_noLabel :
  forall s,
    Forall (fun p => includes p firstLabel = false) (split reIdeaSplit s).
Proof.
  intros [| c t]; unfold split.
  - destruct (matchAt reIdeaSplit []); repeat constructor.
  - apply split_go_noLabel; [now left | apply noStart_nil].
Qed.

Lemma ideaBlocks_noLabel :
  forall text b, In b (ideaBlocks text) -> includes b firstLabel = false.
Proof.
  intros text b H. unfold ideaBlocks in H. apply filter_In in H.
  destruct H as [H _]. revert b H. apply Forall_forall, split_noLabel.
Qed.

(** *** The rendering *)

Lemma string_of_uint_digits :
  forall d, Forall (fun c => isDigit c = true)
              (str (NilEmpty.string_of_uint d)).
Proof.
  induction d; simpl; constructor; auto.
Qed.

Lemma decimal_digits : forall n, Forall (fun c => isDigit c = true) (decimal n).
Proof.
  intros n. unfold decimal, NilZero.string_of_uint.
  destruct (Nat.to_uint n) eqn:E; try apply string_of_uint_digits.
  repeat constructor.
Qed.

Lemma failureMarker_firstLabel : includes failureMarker firstLabel = true.
Proof. reflexivity. Qed.

(** A text of digits and of a piece of the template holds no marker: the
    marker has a '/'. *)
Lemma digits_no_marker :
  forall d t,
    Forall (fun c => isDigit c = true) d ->
    ~ In 47%N t ->
    includes (d ++ t) failureMarker = false.
Proof.
  intros d t Hd Ht. destruct (includes (d ++ t) failureMarker) eqn:E; auto.
  exfalso. assert (H : In 47%N (d ++ t)).
  { apply (includes_In _ failureMarker); [exact E |]. vm_compute. tauto. }
  apply in_app_or in H. destruct H as [H | H]; [| auto].
  rewrite Forall_forall in Hd. specialize (Hd _ H). discriminate.
Qed.

Lemma failureMarker_no_nl : ~ In 10%N failureMarker.
Proof. vm_compute. intuition discriminate. Qed.

Lemma failureMarker_no_star : ~ In 42%N failureMarker.
Proof. vm_compute. intuition discriminate. Qed.

Lemma failureMarker_not_nil : failureMarker <> [].
Proof. discriminate. Qed.

(** A line of the template: a text without the marker, the closing marks of
    the label, a space, the value, the end of the line. *)
Lemma includes_line :
  forall A v Y,
    includes A failureMarker = false ->
    includes (A ++ 42%N :: 32%N :: v ++ 10%N :: Y) failureMarker
    = includes v failureMarker || includes Y failureMarker.
Proof.
  intros A v Y HA.
  rewrite (includes_sep A 42%N _ failureMarker failureMarker_no_star
             failureMarker_not_nil).
  rewrite HA. cbn [orb].
  change (includes (32%N :: v ++ 10%N :: Y) failureMarker)
    with (includes (v ++ 10%N :: Y) failureMarker).
  apply (includes_sep v 10%N Y failureMarker failureMarker_no_nl
           failureMarker_not_nil).
Qed.

Lemma renderIdea_shape :
  forall index r rest,
    renderIdea index r ++ rest
    = headOf index ++ 42%N :: 32%N :: ideaName r ++ 10%N ::
      (nl ++ str "  **Concept:*") ++ 42%N :: 32%N :: concept r ++ 10%N ::
      (nl ++ str "  **Key Features:*") ++ 42%N :: 32%N :: keyFeatures r
      ++ 10%N ::
      (nl ++ str "  **Target Market:*") ++ 42%N :: 32%N :: targetMarket r
      ++ 10%N ::
      (nl ++ str "  **Unique Value Proposition:*") ++ 42%N :: 32%N :: usp r
      ++ 10%N ::
      (nl ++ str "  **Monetization:*") ++ 42%N :: 32%N :: monetization r
      ++ 10%N ::
      (nl ++ str "  **Potential Challenges/Considerations:*") ++ 42%N ::
      32%N :: challenges r ++ 10%N ::
      (nl ++ str "  **Summary:*") ++ 42%N :: 32%N :: summary r ++ 10%N ::
      (nl ++ str "---") ++ 10%N :: rest.
Proof.
  intros index r rest. unfold renderIdea, headOf.
  rewrite <- !app_assoc. reflexivity.
Qed.

Lemma includes_cons_sep :
  forall c b m,
    ~ In c m -> m <> [] -> includes (c :: b) m = includes b m.
Proof.
  intros c b m Hc Hm. pose proof (includes_sep [] c b m Hc Hm) as H.
  cbn [app] in H. rewrite H. destruct m; [congruence | reflexivity].
Qed.

Lemma headOf_no_marker :
  forall index, includes (headOf index) failureMarker = false.
Proof.
  intros index. unfold headOf.
  rewrite <- !app_assoc.
  change (nl ++ str "**" ++ decimal (index + 1) ++ str ". Idea Name:*")
    with (10%N :: 42%N :: 42%N ::
          decimal (index + 1) ++ str ". Idea Name:*").
  rewrite (includes_cons_sep 10%N _ failureMarker failureMarker_no_nl
             failureMarker_not_nil).
  rewrite (includes_cons_sep 42%N _ failureMarker failureMarker_no_star
             failureMarker_not_nil).
  rewrite (includes_cons_sep 42%N _ failureMarker failureMarker_no_star
             failureMarker_not_nil).
  apply digits_no_marker; [apply decimal_digits |].
  vm_compute. intuition discriminate.
Qed.

(** The marker in the rendering of a record is in one of its fields, or in
    what follows the record. *)
Lemma renderIdea_marker :
  forall index r rest,
    includes (renderIdea index r ++ rest) failureMarker
    = includes (ideaName r) failureMarker
      || (includes (concept r) failureMarker
      || (includes (keyFeatures r) failureMarker
      || (includes (targetMarket r) failureMarker
      || (includes (usp r) failureMarker
      || (includes (monetization r) failureMarker
      || (includes (challenges r) failureMarker
      || (includes (summary r) failureMarker
      || includes rest failureMarker))))))).
Proof.
  intros index r rest. rewrite renderIdea_shape.
  rewrite includes_line by apply headOf_no_marker.
  do 7 (rewrite includes_line by reflexivity).
  rewrite (includes_sep _ 10%N rest failureMarker
             failureMarker_no_nl failureMarker_not_nil).
  reflexivity.
Qed.

Lemma renderIdeas_marker :
  forall rs index,
    includes (renderIdeas rs index) failureMarker = true ->
    exists r,
      In r rs
      /\ (holdsMarker (ideaName r) = true
          \/ holdsMarker (concept r) = true
          \/ holdsMarker (keyFeatures r) = true
          \/ holdsMarker (targetMarket r) = true
          \/ holdsMarker (usp r) = true
          \/ holdsMarker (monetization r) = true
          \/ holdsMarker (challenges r) = true
          \/ holdsMarker (summary r) = true).
Proof.
  unfold holdsMarker.
  induction rs as [| r rs IH]; intros index H.
  - discriminate H.
  - cbn [renderIdeas] in H. rewrite renderIdea_marker in H.
    repeat (apply orb_true_iff in H; destruct H as [H | H]);
      try (exists r; split; [now left | tauto]).
    destruct (IH _ H) as (r' & Hin & Hr').
    exists r'. split; [now right | exact Hr'].
Qed.

Lemma parseBlocks_In :
  forall blocks index r,
    In r (parseBlocks blocks index) ->
    exists b j, In b blocks /\ r = parseBlock b j.
Proof.
  induction blocks as [| b rest IH]; intros index r H; [destruct H |].
  cbn [parseBlocks] in H. destruct H as [<- | H].
  - exists b, index. split; [now left | reflexivity].
  - destruct (IH _ _ H) as (b' & j & Hin & ->).
    exists b', j. split; [now right | reflexivity].
Qed.

(** An occurrence cannot begin in a text that lacks its first code unit. *)
Lemma includes_app_head :
  forall p s c m,
    ~ In c p ->
    includes (p ++ s) (c :: m) = true -> includes s (c :: m) = true.
Proof.
  induction p as [| x p IH]; intros s c m Hc H; [exact H |].
  cbn [app includes] in H. apply orb_true_iff in H. destruct H as [H | H].
  - cbn [prefixb] in H. apply andb_true_iff in H. destruct H as [H _].
    apply N.eqb_eq in H. subst x. exfalso. apply Hc. now left.
  - apply (IH s c m); [| exact H]. intros Hin. apply Hc. now right.
Qed.

Lemma includes_trim :
  forall s m, includes (trim s) m = true -> includes s m = true.
Proof.
  intros s m H. destruct (trim_split s) as (a & b & Hs & _ & _).
  rewrite Hs. now apply includes_infix.
Qed.

Section OneBlock.

Variable block : jsstring.
Hypothesis block_noLabel : includes block firstLabel = false.

Lemma fullBlock_noLabel : includes (fullBlockOf block) firstLabel = false.
Proof.
  destruct (includes (fullBlockOf block) firstLabel) eqn:E; [| reflexivity].
  unfold fullBlockOf, firstLabel in E.
  change (str "1. Idea Name:") with (49%N :: str ". Idea Name:") in E.
  apply includes_app_head in E.
  - apply includes_trim in E.
    destruct (eq_true_false_abs _ E block_noLabel).
  - vm_compute. intuition discriminate.
Qed.

(** A part of the block, trimmed, holds no marker. *)
Lemma part_no_marker :
  forall c, infixOf c (fullBlockOf block) -> holdsMarker (trim c) = false.
Proof.
  intros c (a & b & Hc). unfold holdsMarker.
  destruct (includes (trim c) failureMarker) eqn:E; [| reflexivity].
  apply includes_trim in E.
  assert (H : includes (fullBlockOf block) firstLabel = true).
  { apply (includes_trans _ failureMarker);
      [| exact failureMarker_firstLabel].
    rewrite Hc. now apply includes_infix. }
  rewrite fullBlock_noLabel in H. discriminate.
Qed.

Lemma orNA_no_marker :
  forall r, holdsMarker (orNA (match1 r (fullBlockOf block))) = false.
Proof.
  intros r. destruct (match1 r (fullBlockOf block)) as [c |] eqn:E; cbn [orNA].
  - apply part_no_marker. now apply (match1_infix r).
  - reflexivity.
Qed.

(** Of the fields of the record of a block, only a name from which a '*'
    or a '-' was taken can hold the marker. *)
Lemma parseBlock_marker :
  forall index,
    let r := parseBlock block index in
    holdsMarker (concept r) = false
    /\ holdsMarker (keyFeatures r) = false
    /\ holdsMarker (targetMarket r) = false
    /\ holdsMarker (usp r) = false
    /\ holdsMarker (monetization r) = false
    /\ holdsMarker (challenges r) = false
    /\ holdsMarker (summary r) = false
    /\ (holdsMarker (ideaName r) = true ->
        exists c, match1 reIdeaName (fullBlockOf block) = Some c
                  /\ existsb isStarOrDash c = true).
Proof.
  intros index r. subst r. unfold parseBlock. fold (fullBlockOf block).
  cbn [concept keyFeatures targetMarket usp monetization challenges summary
       ideaName].
  repeat (split; [apply orNA_no_marker |]).
  destruct (match1 reIdeaName (fullBlockOf block)) as [c |] eqn:E.
  - intros H. exists c. split; [reflexivity |].
    destruct (existsb isStarOrDash c) eqn:Ex; [reflexivity | exfalso].
    rewrite replaceAll_strip, filter_all in H.
    + rewrite part_no_marker in H; [discriminate |].
      now apply (match1_infix reIdeaName).
    + apply Forall_forall. intros x Hx.
      destruct (isStarOrDash x) eqn:Sx; [| reflexivity].
      assert (T : existsb isStarOrDash c = true).
      { apply existsb_exists. eauto. }
      congruence.
  - intros H. exfalso. unfold holdsMarker in H.
    assert (F : includes (str "Idea " ++ decimal (index + 1)) failureMarker
                = false).
    { destruct (includes (str "Idea " ++ decimal (index + 1)) failureMarker)
        eqn:Ei; [| reflexivity].
      exfalso. assert (Hs : In 47%N (str "Idea " ++ decimal (index + 1))).
      { apply (includes_In _ failureMarker); [exact Ei |].
        vm_compute. tauto. }
      apply in_app_or in Hs. destruct Hs as [Hs | Hs].
      - vm_compute in Hs. intuition discriminate.
      - pose proof (decimal_digits (index + 1)) as Hd.
        rewrite Forall_forall in Hd. specialize (Hd _ Hs). discriminate. }
    congruence.
Qed.

End OneBlock.

(** C10 (amended): the marker can reach the output of the formatter in one
    way only, inside the name of a record whose name capture held a '*' or a
    '-' that was stripped. The headings and the labels of the template, and
    the seven other fields, never hold it, every occurrence of the label of
    the first idea having been taken as a delimiter by the split. So for a
    text without '*' and without '-' the output is free of the marker, and
    the handler does not take it for a miss to retry. *)
Theorem format_marker_only_from_stripped_name :
  forall text,
    (includes (formatResponse text) failureMarker = true ->
     exists block index c,
       In block (ideaBlocks text)
       /\ match1 reIdeaName (str "Idea Name:" ++ trim block) = Some c
       /\ existsb isStarOrDash c = true
       /\ includes (ideaName (parseBlock block index)) failureMarker = true)
    /\ (Forall (fun c => isStarOrDash c = false) text ->
        includes (formatResponse text) failureMarker = false
        /\ succeeded (formatResponse text) = true).
Proof.
  intros text.
  assert (Hmain :
    includes (formatResponse text) failureMarker = true ->
    exists block index c,
      In block (ideaBlocks text)
      /\ match1 reIdeaName (str "Idea Name:" ++ trim block) = Some c
      /\ existsb isStarOrDash c = true
      /\ includes (ideaName (parseBlock block index)) failureMarker = true).
  { intros H. unfold formatResponse in H. apply includes_trim in H.
    apply renderIdeas_marker in H. destruct H as (r & Hin & Hr).
    unfold ideaRecords in Hin. apply parseBlocks_In in Hin.
    destruct Hin as (b & j & Hb & ->).
    pose proof (ideaBlocks_noLabel text b Hb) as Hn.
    destruct (parseBlock_marker b Hn j) as (H1 & H2 & H3 & H4 & H5 & H6 & H7 & H8).
    destruct Hr as [Hr | Hr].
    - destruct (H8 Hr) as (c & Hc & Hx). exists b, j, c. auto.
    - exfalso. intuition congruence. }
  split; [exact Hmain |].
  intros Hclean.
  assert (Hno : includes (formatResponse text) failureMarker = false).
  { destruct (includes (formatResponse text) failureMarker) eqn:E;
      [| reflexivity].
    exfalso. destruct (Hmain eq_refl) as (b & j & c & Hb & Hc & Hx & _).
    assert (Hbl : Forall (fun x => isStarOrDash x = false) b).
    { pose proof (ideaBlocks_Forall (fun x => isStarOrDash x = false) text
                    eq_refl Hclean) as Hall.
      rewrite Forall_forall in Hall. now apply Hall. }
    assert (Hfull : Forall (fun x => isStarOrDash x = false)
                      (str "Idea Name:" ++ trim b)).
    { apply Forall_app. split.
      - repeat constructor.
      - now apply trim_Forall. }
    pose proof (infixOf_Forall _ c _ (match1_infix _ _ _ Hc) Hfull) as Hcc.
    apply existsb_exists in Hx. destruct Hx as (x & Hx & Sx).
    rewrite Forall_forall in Hcc. specialize (Hcc _ Hx). congruence. }
  split; [exact Hno |]. unfold succeeded.
  change (includes (formatResponse text) failureMarker)
    with (includes (formatResponse text) failureMarker).
  rewrite Hno. apply orb_true_r.
Qed.

Lemma format_marker_only_from_stripped_name_witness :
  includes (formatResponse (str "1. Idea_Name: N/A 2. Idea Name: N/A"))
    failureMarker = false
  /\ succeeded (formatResponse (str "1. Idea_Name: N/A 2. Idea Name: N/A"))
     = true.
Proof.
  apply (format_marker_only_from_stripped_name
           (str "1. Idea_Name: N/A 2. Idea Name: N/A")).
  repeat constructor.
Defined.

(** ** JSON.parse: the fuel is enough *)

Lemma dropWhile_length :
  forall p s, List.length (dropWhile p s) <= List.length s.
Proof.
  intros p s. induction s as [| c t IH]; simpl; [lia |].
  destruct (p c); simpl; lia.
Qed.

Lemma expect_length :
  forall c s t, expect c s = Some t -> List.length t < List.length s.
Proof.
  intros c s t H. unfold expect, skipWs in H.
  pose proof (dropWhile_length isJsonWs s) as L.
  destruct (dropWhile isJsonWs s) as [| x u]; [discriminate |].
  destruct (x =? c)%N; [| discriminate]. injection H as ->.
  simpl in L. lia.
Qed.

Lemma litMatch_length :
  forall ci p s r, litMatch ci p s = Some r -> List.length r <= List.length s.
Proof.
  intros ci p s r H. apply litMatch_suffix in H. destruct H as (q & ->).
  rewrite length_app. lia.
Qed.

Lemma parseChars_length :
  forall s skip esc acc v r,
    parseChars s skip esc acc = Some (v, r) ->
    List.length r < List.length s.
Proof.
  induction s as [| c t IH]; intros skip esc acc v r H; [discriminate |].
  cbn [parseChars] in H.
  assert (Step : forall skip esc acc,
             parseChars t skip esc acc = Some (v, r) ->
             List.length r < List.length (c :: t)).
  { intros k e a Hk. apply IH in Hk. simpl. lia. }
  destruct skip as [| n]; [| now apply (Step n false acc)].
  destruct esc.
  - do 8 (match type of H with
          | (if ?b then _ else _) = _ => destruct b; [eapply Step; exact H |]
          end).
    destruct (c =? 117)%N; [| discriminate].
    destruct t as [| a [| b [| d [| e u]]]]; try discriminate.
    destruct (hex4 a b d e); [eapply Step; exact H | discriminate].
  - destruct (c =? 34)%N.
    + injection H as _ ->. simpl. lia.
    + destruct (c =? 92)%N; [eapply Step; eauto |].
      destruct (c <? 32)%N; [discriminate | eapply Step; eauto].
Qed.

Lemma takeDigits_length :
  forall s a n v k r,
    takeDigits s a n = (v, k, r) -> List.length r <= List.length s.
Proof.
  induction s as [| c t IH]; intros a n v k r H; simpl in H.
  - injection H as _ _ <-. lia.
  - destruct (isDigit c).
    + apply IH in H. simpl. lia.
    + injection H as _ _ <-. lia.
Qed.

Lemma parseNumber_length :
  forall s v r, parseNumber s = Some (v, r) -> List.length r < List.length s.
Proof.
  intros s v r H. unfold parseNumber in H.
  destruct (parseSign s) as [neg s1] eqn:E1.
  assert (L1 : List.length s1 <= List.length s).
  { unfold parseSign in E1. destruct s as [| c t].
    - injection E1 as _ <-. lia.
    - destruct (c =? 45)%N; injection E1 as _ <-; simpl; lia. }
  destruct (parseInt s1) as [[iv s2] |] eqn:E2; [| discriminate].
  assert (L2 : List.length s2 < List.length s1).
  { unfold parseInt in E2. destruct s1 as [| c t]; [discriminate |].
    destruct (c =? 48)%N.
    - injection E2 as _ <-. simpl. lia.
    - destruct (isDigit c) eqn:D; [| discriminate].
      cbn [takeDigits] in E2. rewrite D in E2.
      destruct (takeDigits t (0 * 10 + Z.of_N (c - 48)) (0 + 1))
        as [[v0 k0] r0] eqn:T.
      injection E2 as _ <-. apply takeDigits_length in T. simpl. lia. }
  destruct (parseFrac iv s2) as [[[m fl] s3] |] eqn:E3; [| discriminate].
  assert (L3 : List.length s3 <= List.length s2).
  { unfold parseFrac in E3. destruct s2 as [| c t].
    - injection E3 as _ _ <-. lia.
    - destruct (c =? 46)%N.
      + destruct (takeDigits t iv 0) as [[v0 k0] r0] eqn:T.
        destruct (k0 =? 0)%Z; [discriminate |].
        injection E3 as _ _ <-. apply takeDigits_length in T. simpl. lia.
      + injection E3 as _ _ <-. lia. }
  destruct (parseExp s3) as [[e s4] |] eqn:E4; [| discriminate].
  assert (L4 : List.length s4 <= List.length s3).
  { unfold parseExp in E4. destruct s3 as [| c t].
    - injection E4 as _ <-. lia.
    - destruct ((c =? 101) || (c =? 69))%N.
      + destruct (match t with
                  | [] => (false, t)
                  | d :: u =>
                      if (d =? 45)%N then (true, u)
                      else if (d =? 43)%N then (false, u) else (false, t)
                  end) as [eneg t1] eqn:Et.
        assert (Lt : List.length t1 <= List.length t).
        { destruct t as [| d u].
          - injection Et as _ <-. lia.
          - destruct (d =? 45)%N; [injection Et as _ <-; simpl; lia |].
            destruct (d =? 43)%N; injection Et as _ <-; simpl; lia. }
        destruct (takeDigits t1 0 0) as [[ev k0] r0] eqn:T.
        destruct (k0 =? 0)%Z; [discriminate |].
        injection E4 as _ <-. apply takeDigits_length in T. simpl. lia.
      + injection E4 as _ <-. lia. }
  injection H as _ <-. lia.
Qed.

Lemma parse_fuel :
  forall F, valueFuel F /\ elementsFuel F /\ membersFuel F.
Proof.
  induction F as [| F (IHV & IHE & IHM)].
  - repeat split; intros; discriminate.
  - split; [| split].
    + intros s v r H. cbn [parseValue] in H.
      pose proof (dropWhile_length isJsonWs s) as L0. fold (skipWs s) in L0.
      destruct (skipWs s) as [| c t] eqn:Es; [discriminate |].
      cbn [List.length] in L0.
      destruct (c =? 123)%N eqn:C1.
      { destruct (expect 125%N t) as [t' |] eqn:X.
        - injection H as <- <-. pose proof (expect_length _ _ _ X) as LX.
          split; [lia |]. intros [| f0] Hf; [lia |].
          cbn [parseValue]. now rewrite Es, C1, X.
        - destruct (IHM t [] v r H) as [Lr Hr].
          split; [lia |]. intros [| f0] Hf; [lia |].
          cbn [parseValue]. rewrite Es, C1, X. apply Hr. lia. }
      destruct (c =? 91)%N eqn:C2.
      { destruct (expect 93%N t) as [t' |] eqn:X.
        - injection H as <- <-. pose proof (expect_length _ _ _ X) as LX.
          split; [lia |]. intros [| f0] Hf; [lia |].
          cbn [parseValue]. now rewrite Es, C1, C2, X.
        - destruct (IHE t [] v r H) as [Lr Hr].
          split; [lia |]. intros [| f0] Hf; [lia |].
          cbn [parseValue]. rewrite Es, C1, C2, X. apply Hr. lia. }
      destruct (c =? 34)%N eqn:C3.
      { destruct (parseChars t 0 false []) as [[v0 r0] |] eqn:X;
          [| discriminate].
        injection H as <- <-. pose proof (parseChars_length _ _ _ _ _ _ X).
        split; [lia |]. intros [| f0] Hf; [lia |].
        cbn [parseValue]. now rewrite Es, C1, C2, C3, X. }
      destruct (c =? 116)%N eqn:C4.
      { destruct (litMatch false (str "rue") t) as [r0 |] eqn:X;
          [| discriminate].
        injection H as <- <-. pose proof (litMatch_length _ _ _ _ X).
        split; [lia |]. intros [| f0] Hf; [lia |].
        cbn [parseValue]. now rewrite Es, C1, C2, C3, C4, X. }
      destruct (c =? 102)%N eqn:C5.
      { destruct (litMatch false (str "alse") t) as [r0 |] eqn:X;
          [| discriminate].
        injection H as <- <-. pose proof (litMatch_length _ _ _ _ X).
        split; [lia |]. intros [| f0] Hf; [lia |].
        cbn [parseValue]. now rewrite Es, C1, C2, C3, C4, C5, X. }
      destruct (c =? 110)%N eqn:C6.
      { destruct (litMatch false (str "ull") t) as [r0 |] eqn:X;
          [| discriminate].
        injection H as <- <-. pose proof (litMatch_length _ _ _ _ X).
        split; [lia |]. intros [| f0] Hf; [lia |].
        cbn [parseValue]. now rewrite Es, C1, C2, C3, C4, C5, C6, X. }
      pose proof (parseNumber_length _ _ _ H) as LN.
      cbn [List.length] in LN.
      split; [lia |]. intros [| f0] Hf; [lia |].
      cbn [parseValue]. now rewrite Es, C1, C2, C3, C4, C5, C6.
    + intros s acc v r H. cbn [parseElements] in H.
      destruct (parseValue F s) as [[v1 r1] |] eqn:PV; [| discriminate].
      destruct (IHV s v1 r1 PV) as [L1 H1].
      destruct (expect 44%N r1) as [r' |] eqn:X.
      * pose proof (expect_length _ _ _ X) as LX.
        destruct (IHE r' (v1 :: acc) v r H) as [Lr Hr].
        split; [lia |]. intros [| f0] Hf; [lia |].
        cbn [parseElements]. rewrite (H1 f0) by lia. rewrite X.
        apply Hr. lia.
      * destruct (expect 93%N r1) as [r' |] eqn:Y; [| discriminate].
        injection H as <- <-. pose proof (expect_length _ _ _ Y) as LY.
        split; [lia |]. intros [| f0] Hf; [lia |].
        cbn [parseElements]. rewrite (H1 f0) by lia. now rewrite X, Y.
    + intros s acc v r H. cbn [parseMembers] in H.
      destruct (expect 34%N s) as [t |] eqn:Q; [| discriminate].
      pose proof (expect_length _ _ _ Q) as LQ.
      destruct (parseChars t 0 false []) as [[key r0] |] eqn:K;
        [| discriminate].
      pose proof (parseChars_length _ _ _ _ _ _ K) as LK.
      destruct (expect 58%N r0) as [r1 |] eqn:Cn; [| discriminate].
      pose proof (expect_length _ _ _ Cn) as LC.
      destruct (parseValue F r1) as [[v1 r2] |] eqn:PV; [| discriminate].
      destruct (IHV r1 v1 r2 PV) as [L1 H1].
      destruct (expect 44%N r2) as [r3 |] eqn:X.
      * pose proof (expect_length _ _ _ X) as LX.
        destruct (IHM r3 (setProps acc key v1) v r H) as [Lr Hr].
        split; [lia |]. intros [| f0] Hf; [lia |].
        cbn [parseMembers]. rewrite Q, K, Cn, (H1 f0) by lia. rewrite X.
        apply Hr. lia.
      * destruct (expect 125%N r2) as [r3 |] eqn:Y; [| discriminate].
        injection H as <- <-. pose proof (expect_length _ _ _ Y) as LY.
        split; [lia |]. intros [| f0] Hf; [lia |].
        cbn [parseMembers]. rewrite Q, K, Cn, (H1 f0) by lia.
        now rewrite X, Y.
Qed.

(** A value that any amount of fuel lets read is read with the fuel that
    [JSON_parse] gives: running out of fuel never stands for an error. *)
Lemma JSON_parse_fuel :
  forall F s x,
    parseValue F s = Some x -> parseValue (S (List.length s)) s = Some x.
Proof.
  intros F s [v r] H. destruct (parse_fuel F) as (HV & _ & _).
  destruct (HV s v r H) as [_ Hf]. apply Hf. lia.
Qed.

(** ** The name of a block is always found *)

Lemma starG_none :
  forall p s cap k, starG p s cap k = None -> k s cap = None.
Proof.
  intros p [| c t] cap k H; cbn [starG] in H; [exact H |].
  destruct (p c); [| exact H].
  destruct (starG p t cap k); [discriminate | exact H].
Qed.

Lemma starL_none :
  forall p s cap k,
    starL p s cap k = None -> forallb p s = true -> k [] cap = None.
Proof.
  intros p s cap k. induction s as [| c t IH]; cbn [starL forallb];
    intros H Hp.
  - destruct (k [] cap); [discriminate | reflexivity].
  - apply andb_prop in Hp. destruct Hp as [Hc Ht]. rewrite Hc in H.
    destruct (k (c :: t) cap); [discriminate |]. now apply IH.
Qed.

(** In a text without line terminators the expression of the name matches
    at the label that [parseBlock] puts in front. *)
Lemma matchAt_ideaName :
  forall t,
    forallb isDot t = true ->
    matchAt reIdeaName (str "Idea Name:" ++ t) <> None.
Proof.
  intros t Ht H. unfold matchAt, reIdeaName, reField in H.
  cbn [rmatch] in H.
  change (litMatch true (str "Idea Name:") (str "Idea Name:" ++ t))
    with (Some t) in H.
  cbv beta iota in H. apply starG_none in H. cbn [rmatch] in H.
  apply starL_none in H; [| exact Ht]. discriminate H.
Qed.

Lemma line_terminator_space :
  forall c, isDot c = false -> isSpace c = true.
Proof.
  intros c H. unfold isDot in H. apply negb_false_iff in H.
  repeat (apply orb_true_iff in H; destruct H as [H | H]);
    apply N.eqb_eq in H; subst c; reflexivity.
Qed.

(** The white space runs replaced, no line terminator is left. *)
Lemma replace_whitespace_dot :
  forall s skip,
    forallb isDot (replace_go reWhitespaceRun (str " ") s skip) = true.
Proof.
  induction s as [| c t IH]; intros skip.
  - destruct skip; reflexivity.
  - cbn [replace_go]. destruct skip as [| n]; [| apply IH].
    destruct (matchAt reWhitespaceRun (c :: t)) as [[s' cap] |] eqn:M.
    + unfold matchAt, reWhitespaceRun in M. cbn [rmatch] in M.
      destruct (isSpace c); [| discriminate].
      apply (starG_inv isSpace t t None _ _ I) in M.
      destruct M as (s2 & cap2 & (q & Hq) & _ & E). injection E as -> ->.
      replace (List.length (c :: t) - List.length s')
        with (S (List.length q))
        by (rewrite Hq; cbn [List.length]; rewrite length_app; lia).
      rewrite forallb_app, IH. reflexivity.
    + cbn [forallb]. rewrite IH, andb_true_r.
      unfold matchAt, reWhitespaceRun in M. cbn [rmatch] in M.
      destruct (isDot c) eqn:D; [reflexivity |].
      rewrite (line_terminator_space c D) in M.
      apply starG_none in M. discriminate M.
Qed.

Lemma ideaBlocks_dot :
  forall text block,
    In block (ideaBlocks text) -> forallb isDot (trim block) = true.
Proof.
  intros text block H.
  assert (A : Forall (fun c => isDot c = true) (cleanText text)).
  { unfold cleanText. apply trim_Forall. apply Forall_forall.
    apply forallb_forall. apply replace_whitespace_dot. }
  unfold ideaBlocks in H. apply filter_In in H. destruct H as [H _].
  pose proof (split_Forall _ reIdeaSplit _ A) as B.
  rewrite Forall_forall in B. specialize (B _ H).
  apply forallb_forall. apply Forall_forall. now apply trim_Forall.
Qed.

(** The name of a block of the formatter is read from the block: the
    default name, Idea and the index, is never used. *)
Lemma ideaName_always_found :
  forall text block index,
    In block (ideaBlocks text) ->
    exists c,
      match1 reIdeaName (fullBlockOf block) = Some c
      /\ ideaName (parseBlock block index)
         = trim (filter (fun x => negb (isStarOrDash x)) c).
Proof.
  intros text block index H.
  pose proof (matchAt_ideaName _ (ideaBlocks_dot text block H)) as M.
  assert (E : exists c, match1 reIdeaName (fullBlockOf block) = Some c).
  { unfold match1, fullBlockOf.
    destruct (str "Idea Name:" ++ trim block) as [| x u] eqn:Es;
      [discriminate Es |].
    rewrite <- Es. rewrite <- Es in M. clear Es.
    destruct (str "Idea Name:" ++ trim block) as [| y v];
      cbn [exec];
      destruct (matchAt reIdeaName _) as [[s' [c |]] |]; eauto;
      congruence. }
  destruct E as (c & E). exists c. split; [exact E |].
  unfold parseBlock. cbn [ideaName]. fold (fullBlockOf block).
  rewrite E. now rewrite replaceAll_strip.
Qed.

(** C8 (the code differs): the default of the name, Idea followed by the
    1-based index, is written in [formatResponse] and never used by it.
    The label of the name is put in front of every block and the capture
    of the name may be empty, so the expression of the name finds a match
    in every block that the split and the filter leave. A block without a
    name gets the empty name, not the default: for the text below the one
    record has the name of no code unit, the concept foo and N/A elsewhere,
    and the output does not hold the default. *)
Theorem missing_name_is_empty_not_default :
  (forall text block,
      In block (ideaBlocks text) ->
      match1 reIdeaName (fullBlockOf block) <> None)
  /\ ideaRecords (str "1. Idea Name: Concept: foo")
     = [mkIdea [] (str "foo") NA NA NA NA NA NA]
  /\ ideaName (parseBlock (str " Concept: foo") 0) <> str "Idea 1"
  /\ includes (formatResponse (str "1. Idea Name: Concept: foo"))
       (str "Idea 1") = false
  /\ includes (formatResponse (str "1. Idea Name: Concept: foo"))
       (str "**1. Idea Name:** " ++ nl) = true.
Proof.
  split; [| repeat split; try (vm_compute; reflexivity);
            vm_compute; discriminate].
  intros text block H E.
  destruct (ideaName_always_found text block 0 H) as (c & Hc & _).
  congruence.
Qed.

(** * Further properties *)

(** ** The handler of [/chat]: every outcome *)

Lemma chatLoop_exit :
  forall fuel w input tokens st,
    (retryCount st <? MAX_RETRIES)%nat
    && negb (responseGeneratedSuccessfully st) = false ->
    chatLoop fuel w input tokens st = Some (inr st).
Proof.
  intros fuel w input tokens st H. destruct fuel; cbn [chatLoop];
    now rewrite H.
Qed.

Lemma chatLoop_attempt :
  forall fuel w input tokens st text,
    (retryCount st <? MAX_RETRIES)%nat = true ->
    responseGeneratedSuccessfully st = false ->
    talkAs w (calls st) (str "Ada") input tokens = Normal text ->
    chatLoop (S fuel) w input tokens st
    = if succeeded text then
        Some (inr (mkChat text true (retryCount st) (S (calls st)) (waits st)))
      else
        chatLoop fuel w input tokens
          (mkChat text false (S (retryCount st)) (S (calls st))
             (waits st ++ [1000 * S (retryCount st)])).
Proof.
  intros fuel w input tokens st text Hr Hs Ht. cbn [chatLoop].
  rewrite Hr, Hs, Ht. cbn [andb negb].
  destruct (succeeded text); [| reflexivity].
  apply chatLoop_exit. cbn [retryCount responseGeneratedSuccessfully].
  now rewrite Hr.
Qed.

(** The reply to a chat message is the text of the first of at most three
    calls of [talkAs] that passes the success test, with a delay of 1000
    times its number after each call that does not; when none of the three
    passes, and 1000, 2000 and 3000 ms have been awaited, the reply is the
    500 of an incomplete answer. No other reply exists. *)
Theorem chat_outcomes :
  forall w input tokens,
    input <> [] ->
    exists reply st,
      chat w input tokens = Some (reply, st)
      /\ ((exists text,
             reply = Status200 text
             /\ talkAs w (retryCount st) (str "Ada") input tokens
                = Normal text
             /\ succeeded text = true
             /\ retryCount st < MAX_RETRIES
             /\ calls st = S (retryCount st)
             /\ waits st = map (fun i => 1000 * i) (seq 1 (retryCount st)))
          \/ (reply = Status500 incompleteText
              /\ retryCount st = MAX_RETRIES
              /\ calls st = MAX_RETRIES
              /\ waits st = [1000; 2000; 3000]))
      /\ (forall i, i < retryCount st ->
            exists t, talkAs w i (str "Ada") input tokens = Normal t
                      /\ succeeded t = false).
Proof.
  intros w input tokens Hin. destruct input as [| c input]; [congruence |].
  clear Hin. unfold chat, MAX_RETRIES.
  destruct (talkAs_never_throws w 0 (str "Ada") (c :: input) tokens)
    as (t0 & H0).
  destruct (talkAs_never_throws w 1 (str "Ada") (c :: input) tokens)
    as (t1 & H1).
  destruct (talkAs_never_throws w 2 (str "Ada") (c :: input) tokens)
    as (t2 & H2).
  rewrite (chatLoop_attempt 2 w (c :: input) tokens chatInit t0
             eq_refl eq_refl H0).
  destruct (succeeded t0) eqn:S0.
  { eexists _, _. split; [reflexivity |]. cbn. split.
    - left. exists t0. repeat split; auto.
    - intros i Hi. lia. }
  match goal with
  | |- context [chatLoop 2 _ _ _ ?st] =>
      rewrite (chatLoop_attempt 1 w (c :: input) tokens st t1
                 eq_refl eq_refl H1)
  end.
  destruct (succeeded t1) eqn:S1.
  { eexists _, _. split; [reflexivity |]. cbn. split.
    - left. exists t1. repeat split; auto.
    - intros i Hi. assert (i = 0) by lia. subst i. eauto. }
  match goal with
  | |- context [chatLoop 1 _ _ _ ?st] =>
      rewrite (chatLoop_attempt 0 w (c :: input) tokens st t2
                 eq_refl eq_refl H2)
  end.
  destruct (succeeded t2) eqn:S2.
  { eexists _, _. split; [reflexivity |]. cbn. split.
    - left. exists t2. repeat split; auto.
    - intros i Hi.
      assert (i = 0 \/ i = 1) as [-> | ->] by lia; eauto. }
  cbn [chatLoop retryCount responseGeneratedSuccessfully].
  change (3 <? 3)%nat with false. cbn [andb negb].
  eexists _, _. split; [reflexivity |]. cbn. split.
  - right. auto.
  - intros i Hi.
    assert (i = 0 \/ i = 1 \/ i = 2) as [-> | [-> | ->]] by lia; eauto.
Qed.

Lemma chat_outcomes_witness :
  exists reply st,
    chat lunchWorld (str "Schedule lunch with Sam tomorrow at noon") None
    = Some (reply, st)
    /\ ((exists text,
           reply = Status200 text
           /\ talkAs lunchWorld (retryCount st) (str "Ada")
                (str "Schedule lunch with Sam tomorrow at noon") None
              = Normal text
           /\ succeeded text = true
           /\ retryCount st < MAX_RETRIES
           /\ calls st = S (retryCount st)
           /\ waits st = map (fun i => 1000 * i) (seq 1 (retryCount st)))
        \/ (reply = Status500 incompleteText
            /\ retryCount st = MAX_RETRIES
            /\ calls st = MAX_RETRIES
            /\ waits st = [1000; 2000; 3000]))
    /\ (forall i, i < retryCount st ->
          exists t, talkAs lunchWorld i (str "Ada")
                      (str "Schedule lunch with Sam tomorrow at noon") None
                    = Normal t
                    /\ succeeded t = false).
Proof.
  apply (chat_outcomes lunchWorld
           (str "Schedule lunch with Sam tomorrow at noon") None).
  discriminate.
Defined.

(** ** The agent with an authorized user *)

Lemma includes_prefix :
  forall s p, prefixb p s = true -> includes s p = true.
Proof. intros [| c t] p H; cbn [includes]; now rewrite H. Qed.

Lemma confirmation_succeeded :
  forall event, succeeded (confirmation event) = true.
Proof.
  intros event. unfold succeeded.
  rewrite includes_prefix; [reflexivity |]. vm_compute. reflexivity.
Qed.

(** With an access token, a classified calendar event that normalizes and
    that the calendar accepts is confirmed at the first attempt: one call,
    no delay, and a reply that names the summary and the link of the created
    event. The success phrase alone decides: the reply is a success even
    when the summary itself holds the failure marker. *)
Theorem chat_creates_event :
  forall w input t c cs raw ed e event,
    input <> [] ->
    access_token t = Some (c :: cs) ->
    generateContent w 0 = Normal raw ->
    classify raw = CalendarEventIntent ed ->
    normalize (tzOffset w) (clock w 0) (currentTimeZone w) ed = Normal e ->
    createCalendarEvent w 0 t e = Normal event ->
    chat w input (Some t)
    = Some (Status200 (confirmation event),
            mkChat (confirmation event) true 0 1 [])
    /\ includes (confirmation event) (ev_summary event) = true
    /\ includes (confirmation event) (ev_htmlLink event) = true.
Proof.
  intros w input t c cs raw ed e event Hin Ht Hg Hc Hn He.
  split; [| split].
  - destruct input as [| x input]; [congruence |].
    apply chat_first_success; [| apply confirmation_succeeded].
    rewrite (talkAs_classify w 0 (str "Ada") (x :: input) (Some t) raw Hg).
    rewrite Hc. unfold scheduleEvent, authMissing. rewrite Ht.
    rewrite Hn. cbn [bind]. rewrite He. reflexivity.
  - unfold confirmation. apply includes_spec.
    exists (str "I've successfully added " ++ [34%N]),
      ([34%N] ++ str " to your Google Calendar! You can view it here: "
       ++ ev_htmlLink event).
    now rewrite <- !app_assoc.
  - unfold confirmation. apply includes_spec.
    exists (str "I've successfully added " ++ [34%N] ++ ev_summary event
            ++ [34%N]
            ++ str " to your Google Calendar! You can view it here: "), [].
    now rewrite app_nil_r, <- !app_assoc.
Qed.

Lemma chat_creates_event_witness :
  chat lunchWorld (str "Schedule lunch with Sam tomorrow at noon")
    (Some (mkTokens (Some (str "ya29.token")) None None))
  = Some (Status200 (confirmation (mkEvent (str "Lunch with Sam")
                                     (str "https://calendar.example/e1"))),
          mkChat (confirmation (mkEvent (str "Lunch with Sam")
                                  (str "https://calendar.example/e1")))
            true 0 1 []).
Proof.
  apply (chat_creates_event lunchWorld
           (str "Schedule lunch with Sam tomorrow at noon")
           (mkTokens (Some (str "ya29.token")) None None)
           121%N (str "a29.token") askForLunch
           (JObj [(str "summary", JStr (str "Lunch with Sam"))])
           (JObj [(str "summary", JStr (str "Lunch with Sam"));
                  (str "start", slot (str "2025-08-11T09:00:00.000Z")
                                  (JStr (str "UTC")));
                  (str "end", slot (str "2025-08-11T10:00:00.000Z")
                                (JStr (str "UTC")))])
           (mkEvent (str "Lunch with Sam")
              (str "https://calendar.example/e1"))).
  - discriminate.
  - reflexivity.
  - reflexivity.
  - vm_compute. reflexivity.
  - vm_compute. reflexivity.
  - reflexivity.
Defined.

(** An error on the way to the calendar never reaches the user as an
    error: when the tokens are there and the normalizer or the calendar
    service throws, [talkAs] answers with the model text, a fenced JSON
    block, formatted as if it were ideas. *)
Theorem talkAs_calendar_error_formats_ideas :
  forall w k persona message t c cs raw ed err,
    access_token t = Some (c :: cs) ->
    generateContent w k = Normal raw ->
    classify raw = CalendarEventIntent ed ->
    (normalize (tzOffset w) (clock w k) (currentTimeZone w) ed = Throw err
     \/ exists e,
          normalize (tzOffset w) (clock w k) (currentTimeZone w) ed = Normal e
          /\ createCalendarEvent w k t e = Throw err) ->
    talkAs w k persona message (Some t) = Normal (formatResponse raw).
Proof.
  intros w k persona message t c cs raw ed err Ht Hg Hc H.
  rewrite (talkAs_classify w k persona message (Some t) raw Hg), Hc.
  unfold scheduleEvent, authMissing. rewrite Ht.
  destruct H as [Hn | (e & Hn & He)]; rewrite Hn; cbn [bind].
  - reflexivity.
  - rewrite He. reflexivity.
Qed.

Lemma talkAs_calendar_error_formats_ideas_witness :
  talkAs calendarDown 0 (str "Ada") (str "Schedule lunch")
    (Some (mkTokens (Some (str "token")) None None))
  = Normal (formatResponse askForLunch).
Proof.
  apply (talkAs_calendar_error_formats_ideas calendarDown 0 (str "Ada")
           (str "Schedule lunch") (mkTokens (Some (str "token")) None None)
           116%N (str "oken") askForLunch
           (JObj [(str "summary", JStr (str "Lunch with Sam"))])
           (str "Invalid Credentials")).
  - reflexivity.
  - reflexivity.
  - vm_compute. reflexivity.
  - right. eexists. split; vm_compute; reflexivity.
Defined.

(** ** The normalizer on every event *)

Lemma getProp_setProp_other :
  forall v k x k',
    jsstring_eqb k k' = false -> getProp (setProp v k x) k' = getProp v k'.
Proof.
  intros v k x k' H. destruct v; cbn [setProp getProp]; try reflexivity;
    now rewrite lookup_setProps_other.
Qed.

(** A value that has a named property is an object or an array, and takes
    the properties assigned to it. *)
Lemma getProp_setProp_same :
  forall v k x k0 y,
    getProp v k0 = Normal (Some y) ->
    getProp (setProp v k x) k = Normal (Some x).
Proof.
  intros v k x k0 y H. destruct v; cbn [getProp] in H; try discriminate;
    cbn [setProp getProp]; now rewrite lookup_setProps_same.
Qed.

Lemma getProp_some_truthy :
  forall v k y, getProp v k = Normal (Some y) -> truthy v = true.
Proof.
  intros v k y H. destruct v; cbn [getProp] in H; try discriminate;
    reflexivity.
Qed.

Lemma compactToIso_isIso : forall dt, isIso (compactToIso dt) = true.
Proof.
  intros dt. unfold isIso, compactToIso.
  rewrite (includes_app_prefix (substring dt 0 4)); reflexivity.
Qed.

(** What the repair of a slot does: nothing, or the rewriting of a string
    without '-' and ':'. *)
Lemma repairDateTime_cases :
  forall which e e',
    repairDateTime which e = Normal e' ->
    e' = e
    \/ exists sv dt,
         getProp e which = Normal (Some sv)
         /\ getProp sv (str "dateTime") = Normal (Some (JStr dt))
         /\ isIso dt = false
         /\ e' = setProp e which
                   (setProp sv (str "dateTime") (JStr (compactToIso dt))).
Proof.
  intros which e e' H. unfold repairDateTime in H.
  destruct (getProp e which) as [s | m] eqn:Es; [| discriminate].
  cbn [bind] in H.
  destruct s as [sv |]; cbn [truthyOpt negb] in H;
    [| injection H as <-; now left].
  destruct (truthy sv) eqn:Ts; cbn [negb] in H;
    [| injection H as <-; now left].
  cbn [member] in H.
  destruct (getProp sv (str "dateTime")) as [dt | m] eqn:Ed;
    [| discriminate].
  cbn [bind] in H.
  destruct dt as [dtv |]; cbn [truthyOpt negb] in H;
    [| injection H as <-; now left].
  destruct (truthy dtv) eqn:Td; cbn [negb orElse] in H;
    [| injection H as <-; now left].
  rewrite Td in H.
  destruct (jsIncludes dtv (str "-")) as [hd | m] eqn:I1; [| discriminate].
  cbn [bind] in H. destruct hd; [injection H as <-; now left |].
  destruct (jsIncludes dtv (str ":")) as [hc | m] eqn:I2; [| discriminate].
  cbn [bind] in H. destruct hc; [injection H as <-; now left |].
  destruct dtv as [| b | mz ez | dt | elems props | props];
    try discriminate H.
  cbn [jsCompactToIso bind orElse] in H. rewrite Ts in H.
  injection H as <-. right. exists sv, dt. repeat split; auto.
  cbn [jsIncludes] in I1, I2. injection I1 as I1. injection I2 as I2.
  unfold isIso. now rewrite I1, I2.
Qed.

(** A slot that was repaired, or left, is left when repaired again. *)
Lemma repairDateTime_stable :
  forall which e e',
    repairDateTime which e = Normal e' -> repairDateTime which e' = Normal e'.
Proof.
  intros which e e' H.
  destruct (repairDateTime_cases which e e' H)
    as [-> | (sv & dt & Hs & Hd & Hi & ->)]; [exact H |].
  apply (repair_iso which _ (compactToIso dt)); [| apply compactToIso_isIso].
  unfold dateTimeOf.
  rewrite (getProp_setProp_same e which _ which sv Hs).
  now rewrite (getProp_setProp_same sv (str "dateTime") _ (str "dateTime")
                 (JStr dt) Hd).
Qed.

Lemma repairDateTime_other :
  forall which e e' k,
    repairDateTime which e = Normal e' ->
    jsstring_eqb which k = false ->
    getProp e' k = getProp e k.
Proof.
  intros which e e' k H Hk.
  destruct (repairDateTime_cases which e e' H)
    as [-> | (sv & dt & Hs & Hd & Hi & ->)]; [reflexivity |].
  now apply getProp_setProp_other.
Qed.

Lemma applyDefaults_other :
  forall tz now fb e e' k,
    applyDefaults tz now fb e = Normal e' ->
    jsstring_eqb (str "start") k = false ->
    jsstring_eqb (str "end") k = false ->
    getProp e' k = getProp e k.
Proof.
  intros tz now fb e e' k H Hs He. unfold applyDefaults in H.
  destruct (needsDefaults e) as [[|] | m]; cbn [bind] in H;
    try discriminate.
  - destruct (getProp e (str "timeZone")) as [z1 | m]; [| discriminate].
    cbn [bind] in H.
    destruct (getProp (setProp e (str "start") _) (str "timeZone"))
      as [z2 | m]; [| discriminate].
    cbn [bind] in H. injection H as <-.
    now rewrite !getProp_setProp_other.
  - now injection H as <-.
Qed.

(** The normalizer touches the start and the end only: the summary, the
    description and every other property of the event details are given to
    the calendar as the model wrote them. *)
Theorem normalize_keeps_other_properties :
  forall tz now fb ed e' k,
    normalize tz now fb ed = Normal e' ->
    jsstring_eqb (str "start") k = false ->
    jsstring_eqb (str "end") k = false ->
    getProp e' k = getProp ed k.
Proof.
  intros tz now fb ed e' k H Hs He. unfold normalize in H.
  destruct (applyDefaults tz now fb ed) as [e1 | m] eqn:E1; [| discriminate].
  cbn [bind] in H.
  destruct (repairDateTime (str "start") e1) as [e2 | m] eqn:E2;
    [| discriminate].
  cbn [bind] in H.
  rewrite (repairDateTime_other _ _ _ k H He).
  rewrite (repairDateTime_other _ _ _ k E2 Hs).
  apply (applyDefaults_other tz now fb ed e1 k E1 Hs He).
Qed.

Lemma normalize_keeps_other_properties_witness :
  getProp (JObj [(str "summary", JStr (str "Lunch with Sam"));
                 (str "start", slot (str "2025-08-11T09:00:00.000Z")
                                 (JStr (str "UTC")));
                 (str "end", slot (str "2025-08-11T10:00:00.000Z")
                               (JStr (str "UTC")))])
    (str "summary")
  = getProp (JObj [(str "summary", JStr (str "Lunch with Sam"))])
      (str "summary").
Proof.
  apply (normalize_keeps_other_properties (fixedZone 0) 1754820000000 (str "UTC")
           (JObj [(str "summary", JStr (str "Lunch with Sam"))])).
  - vm_compute. reflexivity.
  - reflexivity.
  - reflexivity.
Defined.

(** The condition of the defaults, read on the two [dateTime] values. *)
Lemma needsDefaults_spec :
  forall e b,
    needsDefaults e = Normal b ->
    b = negb (truthyOpt (dateTimeOf (str "start") e)
              && truthyOpt (dateTimeOf (str "end") e)).
Proof.
  intros e b H. unfold needsDefaults in H. unfold dateTimeOf.
  destruct (getProp e (str "start")) as [st | m] eqn:Es; [| discriminate].
  cbn [bind] in H.
  destruct st as [sv |]; cbn [truthyOpt negb] in H;
    [| injection H as <-; reflexivity].
  destruct (truthy sv) eqn:Ts; cbn [negb] in H.
  2:{ injection H as <-.
      destruct sv; try discriminate Ts; reflexivity. }
  destruct (getProp e (str "end")) as [en | m] eqn:Ee; [| discriminate].
  cbn [bind] in H.
  destruct (getProp_truthy sv (str "dateTime") Ts) as (x & Hx).
  rewrite Hx.
  destruct en as [ev |]; cbn [truthyOpt negb] in H.
  2:{ injection H as <-. now rewrite andb_false_r. }
  destruct (truthy ev) eqn:Te; cbn [negb] in H.
  2:{ injection H as <-.
      destruct ev; try discriminate Te; cbn [getProp truthyOpt];
        now rewrite andb_false_r. }
  destruct (getProp_truthy ev (str "dateTime") Te) as (y & Hy).
  rewrite Hy. cbn [member] in H. rewrite Hx in H. cbn [bind] in H.
  destruct (truthyOpt x); cbn [negb andb] in *.
  - rewrite Hy in H. cbn [bind] in H. now injection H as <-.
  - now injection H as <-.
Qed.

Lemma needsDefaults_total :
  forall e, truthy e = true -> exists b, needsDefaults e = Normal b.
Proof.
  intros e He. unfold needsDefaults.
  destruct (getProp_truthy e (str "start") He) as (st & ->).
  cbn [bind].
  destruct st as [sv |]; cbn [truthyOpt negb]; [| eauto].
  destruct (truthy sv) eqn:Ts; cbn [negb]; [| eauto].
  destruct (getProp_truthy e (str "end") He) as (en & ->).
  cbn [bind].
  destruct en as [ev |]; cbn [truthyOpt negb]; [| eauto].
  destruct (truthy ev) eqn:Te; cbn [negb]; [| eauto].
  destruct (getProp_truthy sv (str "dateTime") Ts) as (x & Hx).
  destruct (getProp_truthy ev (str "dateTime") Te) as (y & Hy).
  cbn [member]. rewrite Hx. cbn [bind].
  destruct (truthyOpt x); cbn [negb]; [| eauto].
  rewrite Hy. cbn [bind]. eauto.
Qed.

Lemma dateTimeOf_setProp_slot :
  forall e which dt z k0 y,
    getProp e k0 = Normal (Some y) ->
    dateTimeOf which (setProp e which (slot dt z)) = Some (JStr dt).
Proof.
  intros e which dt z k0 y H. unfold dateTimeOf.
  now rewrite (getProp_setProp_same e which _ k0 y H).
Qed.

Lemma dateTimeOf_setProp_other :
  forall e k x which,
    jsstring_eqb k which = false ->
    dateTimeOf which (setProp e k x) = dateTimeOf which e.
Proof.
  intros e k x which H. unfold dateTimeOf.
  now rewrite getProp_setProp_other.
Qed.


Lemma repairDateTime_decision :
  forall which e,
    repairDateTime which e
    = (s <- getProp e which ;;
       d <- slotDecision s ;;
       Normal (match d with
               | Some x => setProp e which x
               | None => e
               end)).
Proof.
  intros which e. unfold repairDateTime, slotDecision.
  destruct (getProp e which) as [s | m]; [| reflexivity]. cbn [bind].
  destruct (negb (truthyOpt s)); [reflexivity |].
  destruct (member s (str "dateTime")) as [dt | m]; [| reflexivity].
  cbn [bind]. destruct (negb (truthyOpt dt)); [reflexivity |].
  destruct (jsIncludes (orElse dt JNull) (str "-")) as [[|] | m];
    try reflexivity.
  cbn [bind].
  destruct (jsIncludes (orElse dt JNull) (str ":")) as [[|] | m];
    try reflexivity.
  cbn [bind].
  destruct (jsCompactToIso (orElse dt JNull)); reflexivity.
Qed.

Lemma settledAt_repair :
  forall which e, settledAt which e -> repairDateTime which e = Normal e.
Proof.
  intros which e (s & Hs & Hd). rewrite repairDateTime_decision, Hs.
  cbn [bind]. now rewrite Hd.
Qed.

Lemma settledAt_setProp_other :
  forall which e k x,
    jsstring_eqb k which = false ->
    settledAt which e -> settledAt which (setProp e k x).
Proof.
  intros which e k x Hk (s & Hs & Hd). exists s. split; [| exact Hd].
  now rewrite getProp_setProp_other.
Qed.

Lemma hasProps_getProp :
  forall v k y, getProp v k = Normal (Some y) -> hasProps v.
Proof. intros v k y H. destruct v; try discriminate H; exact I. Qed.

Lemma hasProps_set :
  forall v k x, hasProps v -> getProp (setProp v k x) k = Normal (Some x).
Proof.
  intros v k x H. destruct v; try destruct H; cbn [setProp getProp];
    now rewrite lookup_setProps_same.
Qed.

Lemma hasProps_setProp :
  forall v k x, hasProps (setProp v k x) <-> hasProps v.
Proof. intros v k x. destruct v; cbn; tauto. Qed.

Lemma setProp_noProps :
  forall v k x, ~ hasProps v -> setProp v k x = v.
Proof. intros v k x H. destruct v; try reflexivity; destruct H; exact I. Qed.

Lemma getProp_noProps :
  forall v k, ~ hasProps v -> truthy v = true -> getProp v k = Normal None.
Proof.
  intros v k H T. destruct v; try reflexivity; try discriminate T;
    destruct H; exact I.
Qed.

(** The slot that a decision puts in place is left by the next one. *)
Lemma slotDecision_fix :
  forall s x, slotDecision s = Normal (Some x) ->
              slotDecision (Some x) = Normal None.
Proof.
  intros s x H. unfold slotDecision in H.
  destruct s as [sv |]; cbn [truthyOpt negb] in H; [| discriminate].
  destruct (truthy sv) eqn:Ts; cbn [negb member] in H; [| discriminate].
  destruct (getProp sv (str "dateTime")) as [dt | m] eqn:Ed;
    [| discriminate].
  cbn [bind] in H.
  destruct dt as [dtv |]; cbn [truthyOpt negb] in H; [| discriminate].
  destruct (truthy dtv) eqn:Td; cbn [negb orElse] in H; [| discriminate].
  rewrite Td in H.
  destruct (jsIncludes dtv (str "-")) as [[|] | m]; try discriminate.
  cbn [bind] in H.
  destruct (jsIncludes dtv (str ":")) as [[|] | m]; try discriminate.
  cbn [bind] in H.
  destruct (jsCompactToIso dtv) as [iso | m] eqn:Ei; [| discriminate].
  cbn [bind] in H. rewrite Ts in H. injection H as <-.
  assert (Hiso : isIso iso = true).
  { destruct dtv; try discriminate Ei. cbn [jsCompactToIso] in Ei.
    injection Ei as <-. apply compactToIso_isIso. }
  pose proof (hasProps_getProp sv _ _ Ed) as Hp.
  unfold slotDecision. cbn [truthyOpt member].
  assert (Tx : truthy (setProp sv (str "dateTime") (JStr iso)) = true).
  { destruct sv; try destruct Hp; reflexivity. }
  rewrite Tx. cbn [negb]. rewrite (hasProps_set sv _ _ Hp). cbn [bind].
  cbn [truthyOpt]. rewrite (isIso_truthy iso Hiso).
  cbn [negb orElse]. rewrite (isIso_truthy iso Hiso).
  cbn [jsIncludes bind]. unfold isIso in Hiso.
  destruct (includes iso (str "-")); [reflexivity |].
  cbn [orb] in Hiso. cbn [bind]. now rewrite Hiso.
Qed.

(** After its repair a slot is settled. *)
Lemma repairDateTime_settles :
  forall which e e',
    repairDateTime which e = Normal e' -> settledAt which e'.
Proof.
  intros which e e' H. rewrite repairDateTime_decision in H.
  destruct (getProp e which) as [s | m] eqn:Es; [| discriminate].
  cbn [bind] in H.
  destruct (slotDecision s) as [[x |] | m] eqn:Ed; try discriminate;
    cbn [bind] in H; injection H as <-.
  - exists (Some x). split; [| exact (slotDecision_fix s x Ed)].
    apply hasProps_set. unfold slotDecision in Ed.
    destruct s as [sv |]; [| discriminate Ed].
    now apply (hasProps_getProp e which sv).
  - exists s. auto.
Qed.

(** A settled slot whose [dateTime] is a string that is not empty holds a
    '-' or a ':'. *)
Lemma settledAt_iso :
  forall which e s,
    settledAt which e ->
    dateTimeOf which e = Some (JStr s) -> s <> [] -> isIso s = true.
Proof.
  intros which e s (sl & Hs & Hd) Hdt Hne.
  destruct (dateTimeOf_inv which e _ Hdt) as (sv & Hg & Hv & Ts).
  rewrite Hg in Hs. injection Hs as <-.
  unfold slotDecision in Hd. cbn [truthyOpt member] in Hd.
  rewrite Ts in Hd. cbn [negb] in Hd. rewrite Hv in Hd. cbn [bind] in Hd.
  assert (T : truthy (JStr s) = true) by (destruct s; [congruence | reflexivity]).
  cbn [truthyOpt] in Hd. rewrite T in Hd. cbn [negb orElse] in Hd.
  rewrite T in Hd. cbn [jsIncludes bind] in Hd. unfold isIso.
  destruct (includes s (str "-")); [reflexivity |].
  cbn [bind] in Hd. destruct (includes s (str ":")); [reflexivity |].
  discriminate Hd.
Qed.

Lemma truthyOpt_some :
  forall o, truthyOpt o = true -> exists v, o = Some v /\ truthy v = true.
Proof. intros [v |] H; [eauto | discriminate]. Qed.

Lemma applyDefaults_result :
  forall tz now fb e e1,
    applyDefaults tz now fb e = Normal e1 ->
    (needsDefaults e = Normal false /\ e1 = e)
    \/ (needsDefaults e = Normal true
        /\ exists z1 z2,
             e1 = setProp (setProp e (str "start")
                             (slot (toISOString (defaultStart tz now)) z1))
                    (str "end") (slot (toISOString (defaultEnd tz now)) z2)).
Proof.
  intros tz now fb e e1 H. unfold applyDefaults in H.
  destruct (needsDefaults e) as [[|] | m]; cbn [bind] in H;
    try discriminate.
  - right. split; [reflexivity |].
    destruct (getProp e (str "timeZone")) as [z1 | m]; [| discriminate].
    cbn [bind] in H.
    destruct (getProp (setProp e (str "start") _) (str "timeZone"))
      as [z2 | m]; [| discriminate].
    cbn [bind] in H. injection H as <-. eauto.
  - left. injection H as <-. auto.
Qed.

Lemma truthy_setProp :
  forall v k x, truthy (setProp v k x) = truthy v.
Proof. intros v k x. destruct v; reflexivity. Qed.

(** With the defaults applied, event details that can carry properties have
    a start and an end with a [dateTime]. *)
Lemma applyDefaults_complete :
  forall tz now fb e e1,
    hasProps e ->
    applyDefaults tz now fb e = Normal e1 ->
    hasProps e1
    /\ truthyOpt (dateTimeOf (str "start") e1) = true
    /\ truthyOpt (dateTimeOf (str "end") e1) = true.
Proof.
  intros tz now fb e e1 Hp H.
  destruct (applyDefaults_result tz now fb e e1 H)
    as [[Hn ->] | [Hn (z1 & z2 & ->)]].
  - split; [exact Hp |]. apply needsDefaults_spec in Hn.
    symmetry in Hn. apply negb_false_iff, andb_true_iff in Hn. exact Hn.
  - split; [now apply hasProps_setProp, hasProps_setProp |].
    unfold dateTimeOf. split.
    + rewrite getProp_setProp_other by reflexivity.
      rewrite (hasProps_set e _ _ Hp). cbn [slot getProp lookupProp].
      cbn. apply (isIso_truthy _ (toISOString_isIso _)).
    + rewrite hasProps_set by now apply hasProps_setProp.
      cbn. apply (isIso_truthy _ (toISOString_isIso _)).
Qed.

Lemma repairDateTime_truthy :
  forall which e e' k,
    repairDateTime which e = Normal e' ->
    truthyOpt (dateTimeOf k e) = true ->
    truthyOpt (dateTimeOf k e') = true.
Proof.
  intros which e e' k H T.
  destruct (repairDateTime_cases which e e' H)
    as [-> | (sv & dt & Hs & Hd & Hi & ->)]; [exact T |].
  destruct (jsstring_eqb which k) eqn:E.
  - apply jsstring_eqb_eq in E. subst k. unfold dateTimeOf.
    rewrite (hasProps_set e _ _ (hasProps_getProp e _ _ Hs)).
    rewrite (hasProps_set sv _ _ (hasProps_getProp sv _ _ Hd)).
    cbn [truthyOpt]. apply (isIso_truthy _ (compactToIso_isIso dt)).
  - now rewrite dateTimeOf_setProp_other.
Qed.

Lemma repairDateTime_hasProps :
  forall which e e',
    repairDateTime which e = Normal e' -> (hasProps e' <-> hasProps e).
Proof.
  intros which e e' H.
  destruct (repairDateTime_cases which e e' H)
    as [-> | (sv & dt & Hs & Hd & Hi & ->)]; [tauto |].
  apply hasProps_setProp.
Qed.

Lemma repairDateTime_settled_other :
  forall which e e' k,
    repairDateTime which e = Normal e' ->
    jsstring_eqb which k = false ->
    settledAt k e -> settledAt k e'.
Proof.
  intros which e e' k H Hk Hs.
  destruct (repairDateTime_cases which e e' H)
    as [-> | (sv & dt & _ & _ & _ & ->)]; [exact Hs |].
  now apply settledAt_setProp_other.
Qed.

(** The three steps of a normalization that succeeds. *)
Lemma normalize_steps :
  forall tz now fb ed e',
    normalize tz now fb ed = Normal e' ->
    exists e1 e2,
      applyDefaults tz now fb ed = Normal e1
      /\ repairDateTime (str "start") e1 = Normal e2
      /\ repairDateTime (str "end") e2 = Normal e'.
Proof.
  intros tz now fb ed e' H. unfold normalize in H.
  destruct (applyDefaults tz now fb ed) as [e1 | m]; [| discriminate].
  cbn [bind] in H.
  destruct (repairDateTime (str "start") e1) as [e2 | m] eqn:E2;
    [| discriminate].
  cbn [bind] in H. eauto.
Qed.

Lemma normalize_settled :
  forall tz now fb ed e',
    normalize tz now fb ed = Normal e' ->
    settledAt (str "start") e' /\ settledAt (str "end") e'.
Proof.
  intros tz now fb ed e' H.
  destruct (normalize_steps _ _ _ _ _ H) as (e1 & e2 & H1 & H2 & H3).
  split.
  - apply (repairDateTime_settled_other _ _ _ (str "start") H3 eq_refl).
    apply (repairDateTime_settles _ _ _ H2).
  - apply (repairDateTime_settles _ _ _ H3).
Qed.

Lemma normalize_complete :
  forall tz now fb ed e',
    normalize tz now fb ed = Normal e' ->
    (hasProps e' <-> hasProps ed)
    /\ (hasProps ed ->
        truthyOpt (dateTimeOf (str "start") e') = true
        /\ truthyOpt (dateTimeOf (str "end") e') = true).
Proof.
  intros tz now fb ed e' H.
  destruct (normalize_steps _ _ _ _ _ H) as (e1 & e2 & H1 & H2 & H3).
  assert (P1 : hasProps e1 <-> hasProps ed).
  { destruct (applyDefaults_result _ _ _ _ _ H1)
      as [[_ ->] | [_ (z1 & z2 & ->)]]; [tauto |].
    rewrite !hasProps_setProp. tauto. }
  pose proof (repairDateTime_hasProps _ _ _ H2) as P2.
  pose proof (repairDateTime_hasProps _ _ _ H3) as P3.
  split; [tauto |]. intros Hp.
  destruct (applyDefaults_complete _ _ _ _ _ Hp H1) as (_ & Ts & Te).
  split; apply (repairDateTime_truthy _ _ _ _ H3),
           (repairDateTime_truthy _ _ _ _ H2); assumption.
Qed.

(** After a normalization that succeeds, a [dateTime] of the start or of the
    end that is a string holds a '-' or a ':': the events sent to the
    calendar carry no compact time stamp. *)
Theorem normalize_dateTimes_iso :
  forall tz now fb ed e' which s,
    normalize tz now fb ed = Normal e' ->
    which = str "start" \/ which = str "end" ->
    dateTimeOf which e' = Some (JStr s) ->
    isIso s = true.
Proof.
  intros tz now fb ed e' which s H Hw Hd.
  destruct (normalize_settled _ _ _ _ _ H) as [Ss Se].
  destruct (normalize_complete _ _ _ _ _ H) as [Hp Ht].
  destruct (dateTimeOf_inv _ _ _ Hd) as (sv & Hg & _ & _).
  pose proof (proj1 Hp (hasProps_getProp _ _ _ Hg)) as Hed.
  destruct (Ht Hed) as [Ts Te].
  assert (Hne : s <> []).
  { destruct Hw as [-> | ->]; [rewrite Hd in Ts | rewrite Hd in Te];
      intros ->; discriminate. }
  destruct Hw as [-> | ->];
    [apply (settledAt_iso (str "start") e' s Ss Hd Hne)
    | apply (settledAt_iso (str "end") e' s Se Hd Hne)].
Qed.

Lemma normalize_dateTimes_iso_witness :
  isIso (str "2025-08-10T10:00:00+0700") = true.
Proof.
  apply (normalize_dateTimes_iso (fixedZone 0) 1754820000000 (str "UTC")
           (JObj [(str "start", slot compactPlus (JStr (str "UTC")));
                  (str "end", slot (str "2025-08-10T11:00:00+07:00")
                                (JStr (str "UTC")))])
           (JObj [(str "start", slot (str "2025-08-10T10:00:00+0700")
                                  (JStr (str "UTC")));
                  (str "end", slot (str "2025-08-10T11:00:00+07:00")
                                (JStr (str "UTC")))])
           (str "start")).
  - vm_compute. reflexivity.
  - left. reflexivity.
  - reflexivity.
Defined.

Lemma getProp_plain :
  forall v k, ~ hasProps v -> v <> JNull -> getProp v k = Normal None.
Proof.
  intros v k H N. destruct v; try reflexivity; try congruence;
    destruct H; exact I.
Qed.

(** Event details without named properties go through as they are. *)
Lemma normalize_plain :
  forall tz now fb ed,
    ~ hasProps ed -> ed <> JNull -> normalize tz now fb ed = Normal ed.
Proof.
  intros tz now fb ed Hp Hn.
  assert (G : forall k, getProp ed k = Normal None)
    by (intros k; now apply getProp_plain).
  assert (R : forall which, repairDateTime which ed = Normal ed).
  { intros which. unfold repairDateTime. now rewrite G. }
  assert (A : applyDefaults tz now fb ed = Normal ed).
  { unfold applyDefaults, needsDefaults. rewrite G.
    cbn [bind truthyOpt negb]. rewrite G. cbn [bind].
    rewrite !(setProp_noProps ed) by exact Hp.
    rewrite G. cbn [bind]. now rewrite (setProp_noProps ed) by exact Hp. }
  unfold normalize. rewrite A. cbn [bind]. rewrite R. cbn [bind]. apply R.
Qed.

Lemma hasProps_dec : forall v, hasProps v \/ ~ hasProps v.
Proof. intros v. destruct v; cbn; tauto. Qed.

(** The normalizer is idempotent on every event on which it succeeds:
    event details that come out of it go through it unchanged, at any later
    time and with any fallback time zone. *)
Theorem normalize_idempotent :
  forall tz now fb tz' now' fb' ed e',
    normalize tz now fb ed = Normal e' ->
    normalize tz' now' fb' e' = Normal e'.
Proof.
  intros tz now fb tz' now' fb' ed e' H.
  destruct (hasProps_dec ed) as [Hp | Hp].
  - destruct (normalize_settled _ _ _ _ _ H) as [Ss Se].
    destruct (normalize_complete _ _ _ _ _ H) as [_ Ht].
    destruct (Ht Hp) as [Ts Te].
    apply truthyOpt_some in Ts. destruct Ts as (vs & Es & Tvs).
    apply truthyOpt_some in Te. destruct Te as (ve & Ee & Tve).
    unfold normalize, applyDefaults.
    rewrite (needsDefaults_complete e' vs ve Es Tvs Ee Tve). cbn [bind].
    rewrite (settledAt_repair _ _ Ss). cbn [bind].
    apply (settledAt_repair _ _ Se).
  - assert (Hn : ed <> JNull).
    { intros ->. discriminate H. }
    rewrite (normalize_plain tz now fb ed Hp Hn) in H. injection H as <-.
    now apply normalize_plain.
Qed.

Lemma normalize_idempotent_witness :
  normalize (fixedZone 0) 1754906400000 (str "Europe/Paris")
    (JObj [(str "start", slot (str "2025-08-10T10:00:00+0700")
                           (JStr (str "UTC")));
           (str "end", slot (str "2025-08-10T11:00:00+07:00")
                         (JStr (str "UTC")))])
  = Normal
      (JObj [(str "start", slot (str "2025-08-10T10:00:00+0700")
                             (JStr (str "UTC")));
             (str "end", slot (str "2025-08-10T11:00:00+07:00")
                           (JStr (str "UTC")))]).
Proof.
  apply (normalize_idempotent (fixedZone 0) 1754820000000 (str "UTC")
           (fixedZone 0) 1754906400000 (str "Europe/Paris")
           (JObj [(str "start", slot compactPlus (JStr (str "UTC")));
                  (str "end", slot (str "2025-08-10T11:00:00+07:00")
                                (JStr (str "UTC")))])).
  vm_compute. reflexivity.
Defined.

(** *** When the normalizer throws *)

Lemma slot_dateTime :
  forall dt z, getProp (slot dt z) (str "dateTime") = Normal (Some (JStr dt)).
Proof. reflexivity. Qed.

Lemma slotDecision_total :
  forall s,
    (forall sv v,
        s = Some sv -> getProp sv (str "dateTime") = Normal (Some v) ->
        truthy v = true -> exists dt, v = JStr dt) ->
    exists d, slotDecision s = Normal d.
Proof.
  intros s H. unfold slotDecision.
  destruct s as [sv |]; cbn [truthyOpt negb]; [| eauto].
  destruct (truthy sv) eqn:Ts; cbn [negb member]; [| eauto].
  destruct (getProp_truthy sv (str "dateTime") Ts) as (dt & Hd).
  rewrite Hd. cbn [bind].
  destruct dt as [dtv |]; cbn [truthyOpt negb]; [| eauto].
  destruct (truthy dtv) eqn:Td; cbn [negb orElse]; [| eauto].
  rewrite Td. destruct (H sv dtv eq_refl Hd Td) as (x & ->).
  cbn [jsIncludes bind].
  destruct (includes x (str "-")); [eauto |]. cbn [bind].
  destruct (includes x (str ":")); [eauto |]. cbn [bind jsCompactToIso].
  eauto.
Qed.

(** Every [dateTime] of [which] that is there and truthy is a string. *)
Lemma repairDateTime_total :
  forall which e,
    truthy e = true ->
    (forall v, dateTimeOf which e = Some v -> truthy v = true ->
               exists dt, v = JStr dt) ->
    exists e', repairDateTime which e = Normal e'.
Proof.
  intros which e Te H. rewrite repairDateTime_decision.
  destruct (getProp_truthy e which Te) as (s & Hs). rewrite Hs.
  cbn [bind].
  destruct (slotDecision_total s) as (d & ->); [| cbn [bind]; eauto].
  intros sv v -> Hv Tv. apply H; [| exact Tv].
  unfold dateTimeOf. now rewrite Hs, Hv.
Qed.

Lemma repairDateTime_truthy_details :
  forall which e e',
    repairDateTime which e = Normal e' -> truthy e' = truthy e.
Proof.
  intros which e e' H.
  destruct (repairDateTime_cases which e e' H)
    as [-> | (sv & dt & _ & _ & _ & ->)]; [reflexivity |].
  apply truthy_setProp.
Qed.

(** The normalizer throws only on a [dateTime] that is not a string: for
    truthy event details whose start and end have a string, a falsy value or
    nothing as [dateTime], it returns. *)
Theorem normalize_returns :
  forall tz now fb ed,
    truthy ed = true ->
    (forall which v,
        which = str "start" \/ which = str "end" ->
        dateTimeOf which ed = Some v -> truthy v = true ->
        exists dt, v = JStr dt) ->
    exists e', normalize tz now fb ed = Normal e'.
Proof.
  intros tz now fb ed Te H.
  destruct (needsDefaults_total ed Te) as (b & Hb).
  assert (A : exists e1,
             applyDefaults tz now fb ed = Normal e1
             /\ truthy e1 = true
             /\ (forall which v,
                    which = str "start" \/ which = str "end" ->
                    dateTimeOf which e1 = Some v -> truthy v = true ->
                    exists dt, v = JStr dt)).
  { unfold applyDefaults. rewrite Hb. cbn [bind].
    destruct b; [| eauto].
    destruct (getProp_truthy ed (str "timeZone") Te) as (z1 & ->).
    cbn [bind].
    destruct (getProp_truthy (setProp ed (str "start")
                (slot (toISOString (defaultStart tz now))
                   (orElse z1 (JStr fb)))) (str "timeZone")) as (z2 & ->);
      [now rewrite truthy_setProp |].
    cbn [bind]. eexists. split; [reflexivity |].
    split; [now rewrite !truthy_setProp |].
    destruct (hasProps_dec ed) as [Hp | Hp].
    - intros which v [-> | ->] Hv Tv.
      + rewrite dateTimeOf_setProp_other in Hv by reflexivity.
        unfold dateTimeOf in Hv. rewrite (hasProps_set ed _ _ Hp) in Hv.
        rewrite slot_dateTime in Hv. injection Hv as Hv. eauto.
      + unfold dateTimeOf in Hv.
        rewrite hasProps_set in Hv by now apply hasProps_setProp.
        rewrite slot_dateTime in Hv. injection Hv as Hv. eauto.
    - rewrite !(setProp_noProps ed) by exact Hp. exact H. }
  destruct A as (e1 & H1 & T1 & Q1).
  destruct (repairDateTime_total (str "start") e1 T1) as (e2 & H2).
  { intros v. apply Q1. now left. }
  assert (T2 : truthy e2 = true)
    by now rewrite (repairDateTime_truthy_details _ _ _ H2).
  destruct (repairDateTime_total (str "end") e2 T2) as (e3 & H3).
  { intros v Hv. apply (Q1 (str "end")); [now right |].
    unfold dateTimeOf in *.
    now rewrite <- (repairDateTime_other _ _ _ (str "end") H2 eq_refl). }
  exists e3. unfold normalize. rewrite H1. cbn [bind]. rewrite H2.
  cbn [bind]. exact H3.
Qed.

Lemma normalize_returns_witness :
  exists e',
    normalize (fixedZone 0) 1754820000000 (str "UTC")
      (JObj [(str "summary", JStr (str "Lunch with Sam"));
             (str "start", JObj [(str "dateTime", JStr (str "tomorrow"))])])
    = Normal e'.
Proof.
  apply (normalize_returns (fixedZone 0) 1754820000000 (str "UTC")).
  - reflexivity.
  - intros which v [-> | ->] Hv Tv.
    + vm_compute in Hv. injection Hv as <-. eauto.
    + vm_compute in Hv. discriminate Hv.
Defined.

(** A [dateTime] that is a number makes the normalizer throw; [talkAs]
    then formats the model text as ideas. *)
Example normalize_throws_on_number :
  normalize (fixedZone 0) 1754820000000 (str "UTC")
    (JObj [(str "start", JObj [(str "dateTime", JNum 20250810 0)]);
           (str "end", JObj [(str "dateTime", JNum 20250811 0)])])
  = Throw (str "dt.includes is not a function").
Proof. vm_compute. reflexivity. Qed.

(** ** The white space of the text to format *)

Lemma starG_final :
  forall p s cap,
    starG p s cap (fun s' cap' => Some (s', cap'))
    = Some (dropWhile p s, cap).
Proof.
  intros p s cap. induction s as [| c t IH]; cbn [starG dropWhile].
  - reflexivity.
  - destruct (p c); [now rewrite IH | reflexivity].
Qed.

Lemma collapse_run :
  forall s, collapse s true = collapse (dropWhile isSpace s) false.
Proof.
  induction s as [| c t IH]; cbn [collapse dropWhile]; [reflexivity |].
  destruct (isSpace c) eqn:E; [exact IH |].
  cbn [collapse]. now rewrite E.
Qed.

Lemma replace_go_skip :
  forall r repl s n,
    n <= List.length s ->
    replace_go r repl s n = replace_go r repl (skipn n s) 0.
Proof.
  intros r repl s. induction s as [| c t IH]; intros n Hn.
  - destruct n; [reflexivity | cbn in Hn; lia].
  - destruct n as [| n]; [reflexivity |].
    cbn [replace_go skipn]. apply IH. cbn [List.length] in Hn. lia.
Qed.

Lemma skipn_dropWhile :
  forall p s,
    skipn (List.length s - List.length (dropWhile p s)) s = dropWhile p s.
Proof.
  intros p s. destruct (dropWhile_split p s) as (a & Ha & _).
  rewrite Ha at 1 3. rewrite length_app.
  replace (List.length a + List.length (dropWhile p s)
           - List.length (dropWhile p s)) with (List.length a + 0) by lia.
  now rewrite skipn_app, Nat.add_0_r, skipn_all, Nat.sub_diag.
Qed.

(** The replacement of the white space runs is [collapse]. *)
Lemma replaceAll_collapse :
  forall s, replaceAll reWhitespaceRun (str " ") s = collapse s false.
Proof.
  unfold replaceAll. intros s.
  remember (List.length s) as n eqn:Hn. revert s Hn.
  induction n as [n IH] using lt_wf_ind. intros s Hn.
  destruct s as [| c t]; [reflexivity |].
  cbn [replace_go collapse]. unfold matchAt, reWhitespaceRun.
  cbn [rmatch]. destruct (isSpace c) eqn:E.
  - rewrite starG_final.
    pose proof (dropWhile_length isSpace t) as L.
    replace (List.length (c :: t) - List.length (dropWhile isSpace t))
      with (S (List.length t - List.length (dropWhile isSpace t)))
      by (cbn [List.length]; lia).
    rewrite replace_go_skip by lia. rewrite skipn_dropWhile.
    cbn [app str]. change (str " ") with [32%N]. cbn [app].
    f_equal. rewrite collapse_run.
    apply (IH (List.length (dropWhile isSpace t))); [| reflexivity].
    subst n. cbn [List.length]. lia.
  - f_equal. apply (IH (List.length t)); [| reflexivity].
    subst n. cbn [List.length]. lia.
Qed.

Lemma collapse_plainSpaces :
  forall s b, plainSpaces (collapse s b) = true.
Proof.
  unfold plainSpaces. induction s as [| c t IH]; intros b; [reflexivity |].
  cbn [collapse]. destruct (isSpace c) eqn:E.
  - destruct b; [apply IH |]. cbn [forallb]. rewrite IH. reflexivity.
  - cbn [forallb]. now rewrite E, IH.
Qed.

Lemma collapse_headSolid :
  forall s, headSolid (collapse s true) = true.
Proof.
  induction s as [| c t IH]; [reflexivity |]. cbn [collapse].
  destruct (isSpace c) eqn:E; [exact IH |]. cbn [headSolid]. now rewrite E.
Qed.

Lemma noDouble_cons :
  forall x t,
    noDouble (x :: t)
    = (negb (isSpace x) || headSolid t) && noDouble t.
Proof.
  intros x [| y t]; cbn [noDouble headSolid].
  - now rewrite orb_true_r.
  - now rewrite negb_andb.
Qed.

Lemma collapse_noDouble :
  forall s b, noDouble (collapse s b) = true.
Proof.
  induction s as [| c t IH]; intros b; [reflexivity |].
  cbn [collapse]. destruct (isSpace c) eqn:E.
  - destruct b; [apply IH |].
    rewrite noDouble_cons, collapse_headSolid, IH. now rewrite orb_true_r.
  - rewrite noDouble_cons, E, IH. reflexivity.
Qed.

Lemma noDouble_app_r :
  forall a s, noDouble (a ++ s) = true -> noDouble s = true.
Proof.
  induction a as [| x a IH]; intros s H; [exact H |].
  cbn [app] in H. rewrite noDouble_cons in H.
  apply andb_prop in H. now apply IH.
Qed.

Lemma headSolid_app :
  forall s b, headSolid (s ++ b) = true -> s <> [] -> headSolid s = true.
Proof. intros [| c s] b H Hn; [congruence | exact H]. Qed.

Lemma noDouble_app_l :
  forall s b, noDouble (s ++ b) = true -> noDouble s = true.
Proof.
  induction s as [| x s IH]; intros b H; [reflexivity |].
  cbn [app] in H. rewrite noDouble_cons in *.
  apply andb_prop in H. destruct H as [H1 H2].
  rewrite (IH b H2), andb_true_r.
  destruct (isSpace x); [| reflexivity]. cbn [negb orb] in *.
  destruct s as [| y s]; [reflexivity | exact H1].
Qed.

Lemma trim_headSolid : forall s, headSolid (trim s) = true.
Proof.
  intros s. unfold trim.
  destruct (dropWhile isSpace (rev (dropWhile isSpace s))) as [| c u] eqn:E;
    [reflexivity |].
  assert (L : dropWhile isSpace s = rev (dropWhile isSpace (rev
                (dropWhile isSpace s))) ++ rev
                (firstn (List.length (rev (dropWhile isSpace s))
                         - List.length (dropWhile isSpace (rev
                             (dropWhile isSpace s))))
                   (rev (dropWhile isSpace s)))).
  { rewrite <- rev_app_distr. rewrite <- (rev_involutive (dropWhile isSpace s))
      at 1. f_equal.
    rewrite <- (skipn_dropWhile isSpace (rev (dropWhile isSpace s))) at 2.
    now rewrite firstn_skipn. }
  rewrite E in L.
  destruct (dropWhile isSpace s) as [| x t] eqn:D.
  - cbn in E. discriminate.
  - pose proof (dropWhile_head _ _ _ _ D) as Hx.
    destruct (rev (c :: u)) as [| z w] eqn:R.
    + apply (f_equal (@List.length _)) in R. rewrite length_rev in R.
      discriminate.
    + cbn [app] in L. injection L as <- _. cbn [headSolid]. now rewrite Hx.
Qed.

Lemma trim_lastSolid : forall s, headSolid (rev (trim s)) = true.
Proof.
  intros s. unfold trim. rewrite rev_involutive.
  destruct (dropWhile isSpace (rev (dropWhile isSpace s))) as [| c u] eqn:E;
    [reflexivity |].
  cbn [headSolid]. now rewrite (dropWhile_head _ _ _ _ E).
Qed.

Lemma dropWhile_solid :
  forall s, headSolid s = true -> dropWhile isSpace s = s.
Proof.
  intros [| c t] H; [reflexivity |]. cbn [headSolid] in H.
  cbn [dropWhile]. apply negb_true_iff in H. now rewrite H.
Qed.

Lemma trim_solid :
  forall s,
    headSolid s = true -> headSolid (rev s) = true -> trim s = s.
Proof.
  intros s H1 H2. unfold trim.
  rewrite (dropWhile_solid s H1), (dropWhile_solid _ H2).
  apply rev_involutive.
Qed.

Lemma cleanText_collapse :
  forall text, cleanText text = trim (collapse text false).
Proof. intros text. unfold cleanText. now rewrite replaceAll_collapse. Qed.

Lemma cleanText_checks :
  forall text,
    plainSpaces (cleanText text) = true
    /\ noDouble (cleanText text) = true
    /\ headSolid (cleanText text) = true
    /\ headSolid (rev (cleanText text)) = true.
Proof.
  intros text. rewrite cleanText_collapse.
  destruct (trim_split (collapse text false)) as (a & b & Hs & _ & _).
  pose proof (collapse_plainSpaces text false) as P.
  pose proof (collapse_noDouble text false) as N.
  rewrite Hs in P, N. unfold plainSpaces in *.
  rewrite forallb_app in P. apply andb_prop in P. destruct P as [_ P].
  rewrite forallb_app in P. apply andb_prop in P. destruct P as [P _].
  apply noDouble_app_r, noDouble_app_l in N.
  auto using trim_headSolid, trim_lastSolid.
Qed.

Lemma noDouble_pair :
  forall a x y b,
    noDouble (a ++ x :: y :: b) = true ->
    isSpace x = true -> isSpace y = false.
Proof.
  intros a x y b H Hx. apply noDouble_app_r in H.
  cbn [noDouble] in H. apply andb_prop in H. destruct H as [H _].
  rewrite Hx in H. cbn [andb] in H. now apply negb_true_iff in H.
Qed.

(** In the text that the formatter splits, white space is a single space
    between two code units that are not white space: no line break or tab
    is left, no run of spaces, nothing at either end. *)
Theorem cleanText_single_spaces :
  forall text a x b,
    cleanText text = a ++ x :: b ->
    isSpace x = true ->
    x = 32%N
    /\ (exists a' y, a = a' ++ [y] /\ isSpace y = false)
    /\ (exists z b', b = z :: b' /\ isSpace z = false).
Proof.
  intros text a x b E Hx.
  destruct (cleanText_checks text) as (P & N & H & L).
  rewrite E in P, N, H, L. split; [| split].
  - unfold plainSpaces in P. rewrite forallb_app in P.
    apply andb_prop in P. destruct P as [_ P]. cbn [forallb] in P.
    apply andb_prop in P. destruct P as [P _]. rewrite Hx in P.
    cbn [negb orb] in P. now apply N.eqb_eq in P.
  - induction a as [| y a' _] using rev_ind.
    + cbn [app headSolid] in H. rewrite Hx in H. discriminate.
    + exists a', y. split; [reflexivity |].
      rewrite <- app_assoc in N. cbn [app] in N.
      destruct (isSpace y) eqn:Ey; [| reflexivity].
      pose proof (noDouble_pair a' y x b N Ey). congruence.
  - destruct b as [| z b'].
    + rewrite rev_app_distr in L. cbn [rev app headSolid] in L.
      rewrite Hx in L. discriminate.
    + exists z, b'. split; [reflexivity |].
      apply (noDouble_pair a x z b' N Hx).
Qed.

Lemma cleanText_single_spaces_witness :
  32%N = 32%N
  /\ (exists a' y, str "Solar" = a' ++ [y] /\ isSpace y = false)
  /\ (exists z b', str "kit" = z :: b' /\ isSpace z = false).
Proof.
  apply (cleanText_single_spaces
           (9%N :: str " Solar " ++ 10%N :: 13%N :: str "  kit " ++ [10%N])
           (str "Solar") 32%N (str "kit")).
  - vm_compute. reflexivity.
  - reflexivity.
Defined.

Lemma collapse_fixed :
  forall s b,
    plainSpaces s = true -> noDouble s = true ->
    (b = true -> headSolid s = true) ->
    collapse s b = s.
Proof.
  unfold plainSpaces. induction s as [| c t IH]; intros b P N H;
    [reflexivity |].
  cbn [forallb] in P. apply andb_prop in P. destruct P as [Pc Pt].
  rewrite noDouble_cons in N. apply andb_prop in N. destruct N as [Nc Nt].
  cbn [collapse]. destruct (isSpace c) eqn:E.
  - cbn [negb orb] in Pc, Nc. apply N.eqb_eq in Pc. subst c.
    destruct b.
    + specialize (H eq_refl). cbn [headSolid] in H. rewrite E in H.
      discriminate.
    + f_equal. apply IH; auto.
  - f_equal. apply IH; auto. discriminate.
Qed.

(** Normalizing the white space twice is normalizing it once, and a text
    is formatted as its normalized form is. *)
Theorem cleanText_idempotent :
  forall text,
    cleanText (cleanText text) = cleanText text
    /\ formatResponse (cleanText text) = formatResponse text.
Proof.
  intros text.
  assert (E : cleanText (cleanText text) = cleanText text).
  { destruct (cleanText_checks text) as (P & N & H & L).
    rewrite (cleanText_collapse (cleanText text)).
    rewrite (collapse_fixed _ false P N) by discriminate.
    now apply trim_solid. }
  split; [exact E |].
  unfold formatResponse, ideaRecords, ideaBlocks. now rewrite E.
Qed.

(** ** The fields of the records *)

Lemma infixOf_refl : forall s, infixOf s s.
Proof. intros s. exists [], []. now rewrite app_nil_r. Qed.

Lemma infixOf_trans :
  forall a b c, infixOf a b -> infixOf b c -> infixOf a c.
Proof.
  intros a b c (x & y & ->) (u & v & ->).
  exists (u ++ x), (y ++ v). now rewrite <- !app_assoc.
Qed.

Lemma infixOf_trim : forall s, infixOf (trim s) s.
Proof.
  intros s. destruct (trim_split s) as (a & b & H & _ & _). now exists a, b.
Qed.

Lemma infixOf_app_r : forall a s, infixOf s (a ++ s).
Proof. intros a s. exists a, []. now rewrite app_nil_r. Qed.

(** The pieces of a split are parts of the text. *)
Lemma split_go_infix :
  forall r s skip cur,
    skip = 0 \/ cur = [] ->
    Forall (fun p => infixOf p (rev cur ++ s)) (split_go r s skip cur).
Proof.
  intros r s. induction s as [| c t IH]; intros skip cur Hk.
  - cbn [split_go]. constructor; [| constructor].
    rewrite app_nil_r. apply infixOf_refl.
  - assert (Step : forall n,
               Forall (fun p => infixOf p (rev cur ++ c :: t))
                 (split_go r t n [])).
    { intros n. specialize (IH n [] (or_intror eq_refl)).
      eapply Forall_impl; [| exact IH]. cbn [rev app]. intros p Hp.
      apply (infixOf_trans _ _ _ Hp). exists (rev cur ++ [c]), [].
      now rewrite app_nil_r, <- app_assoc. }
    assert (Keep : forall cur',
               rev cur' ++ t = rev cur ++ c :: t ->
               Forall (fun p => infixOf p (rev cur ++ c :: t))
                 (split_go r t 0 cur')).
    { intros cur' E. rewrite <- E. apply IH. now left. }
    assert (Here : infixOf (rev cur) (rev cur ++ c :: t)).
    { exists [], (c :: t). reflexivity. }
    cbn [split_go]. destruct skip as [| n].
    + destruct (matchAt r (c :: t)) as [[s' cap] |].
      * destruct (List.length (c :: t) - List.length s').
        -- destruct cur as [| x cur'].
           ++ apply (Keep [c]). reflexivity.
           ++ constructor; [exact Here |].
              specialize (IH 0 [c] (or_introl eq_refl)).
              eapply Forall_impl; [| exact IH]. intros p Hp.
              apply (infixOf_trans _ _ _ Hp).
              exists (rev (x :: cur')), []. now rewrite app_nil_r.
        -- constructor; [exact Here | apply Step].
      * apply (Keep (c :: cur)). cbn [rev]. now rewrite <- app_assoc.
    + destruct Hk as [Hk | ->]; [discriminate |]. apply Step.
Qed.

Lemma ideaBlocks_infix :
  forall text block,
    In block (ideaBlocks text) -> infixOf block (cleanText text).
Proof.
  intros text block H. unfold ideaBlocks in H. apply filter_In in H.
  destruct H as [H _]. unfold split in H.
  destruct (cleanText text) as [| c t] eqn:E.
  - destruct (matchAt reIdeaSplit []); [destruct H |].
    destruct H as [<- | []]. apply infixOf_refl.
  - pose proof (split_go_infix reIdeaSplit (c :: t) 0 []
                  (or_introl eq_refl)) as F.
    rewrite Forall_forall in F. exact (F _ H).
Qed.

(** None of the seven labels after the name begins inside the label of the
    name that [parseBlock] puts in front of the block: their expressions
    find in the block what they find behind that label. *)
Lemma match1_behind_name :
  forall re X,
    In re [reConcept; reKeyFeatures; reTargetMarket; reUsp; reMonetization;
           reChallenges; reSummary] ->
    match1 re (str "Idea Name:" ++ X) = match1 re X.
Proof.
  intros re X H. unfold match1. cbn [In] in H.
  repeat (destruct H as [<- | H]; [reflexivity |]). destruct H.
Qed.

Lemma orNA_part :
  forall re block,
    In re [reConcept; reKeyFeatures; reTargetMarket; reUsp; reMonetization;
           reChallenges; reSummary] ->
    let f := orNA (match1 re (fullBlockOf block)) in
    f = NA
    \/ (infixOf f block /\ headSolid f = true /\ headSolid (rev f) = true).
Proof.
  intros re block H f. subst f. unfold fullBlockOf.
  rewrite (match1_behind_name re _ H).
  destruct (match1 re (trim block)) as [c |] eqn:E; cbn [orNA];
    [right | now left].
  split; [| split; [apply trim_headSolid | apply trim_lastSolid]].
  apply (infixOf_trans _ c); [apply infixOf_trim |].
  apply (infixOf_trans _ (trim block)); [| apply infixOf_trim].
  now apply (match1_infix re).
Qed.

(** The formatter invents no content: each of the seven fields after the
    name of each record is the literal N/A or a part of the
    white-space-normalized text, without white space at either end. *)
Theorem fields_are_parts_of_the_text :
  forall text r,
    In r (ideaRecords text) ->
    Forall (fun f =>
              f = NA
              \/ (infixOf f (cleanText text)
                  /\ headSolid f = true /\ headSolid (rev f) = true))
      (fieldsOf r).
Proof.
  intros text r H. unfold ideaRecords in H.
  apply parseBlocks_In in H. destruct H as (b & j & Hb & ->).
  pose proof (ideaBlocks_infix text b Hb) as Hi.
  assert (P : forall re,
             In re [reConcept; reKeyFeatures; reTargetMarket; reUsp;
                    reMonetization; reChallenges; reSummary] ->
             orNA (match1 re (fullBlockOf b)) = NA
             \/ (infixOf (orNA (match1 re (fullBlockOf b))) (cleanText text)
                 /\ headSolid (orNA (match1 re (fullBlockOf b))) = true
                 /\ headSolid (rev (orNA (match1 re (fullBlockOf b))))
                    = true)).
  { intros re Hre. destruct (orNA_part re b Hre) as [E | (I1 & I2 & I3)];
      [now left | right].
    split; [eapply infixOf_trans; eauto | auto]. }
  unfold fieldsOf, parseBlock. fold (fullBlockOf b).
  cbn [concept keyFeatures targetMarket usp monetization challenges summary].
  repeat (apply Forall_cons; [apply P; cbn [In]; tauto |]).
  apply Forall_nil.
Qed.

Lemma fields_are_parts_of_the_text_witness :
  Forall (fun f =>
            f = NA
            \/ (infixOf f (cleanText (str "1. Idea Name: Solar kit  Concept: small   panels"))
                /\ headSolid f = true /\ headSolid (rev f) = true))
    (fieldsOf (parseBlock (str " Solar kit Concept: small panels") 0)).
Proof.
  apply (fields_are_parts_of_the_text
           (str "1. Idea Name: Solar kit  Concept: small   panels")).
  vm_compute. left. reflexivity.
Defined.

(** *** A field stops before the label of the next one *)

Lemma starG_cap :
  forall p s cap k res,
    starG p s cap k = Some res -> exists s', k s' cap = Some res.
Proof.
  intros p s cap k res. induction s as [| c t IH]; cbn [starG]; intros H.
  - eauto.
  - destruct (p c); [| eauto].
    destruct (starG p t cap k) eqn:E; [| eauto].
    injection H as ->. now apply IH.
Qed.

(** The lazy star enters its continuation at the first place where the
    continuation succeeds. *)
Lemma starL_first :
  forall p s cap k res,
    starL p s cap k = Some res ->
    exists pre s',
      s = pre ++ s'
      /\ k s' cap = Some res
      /\ forall a x b, pre = a ++ x :: b -> k (x :: b ++ s') cap = None.
Proof.
  intros p s cap k res. induction s as [| c t IH]; cbn [starL]; intros H.
  - destruct (k [] cap) eqn:E; [| discriminate]. injection H as ->.
    exists [], []. repeat split; auto. intros [| ? ?] x b Hx; discriminate.
  - destruct (k (c :: t) cap) eqn:E.
    + injection H as ->. exists [], (c :: t). repeat split; auto.
      intros [| ? ?] x b Hx; discriminate.
    + destruct (p c); [| discriminate].
      destruct (IH H) as (pre & s' & -> & Hk & Hmin).
      exists (c :: pre), s'. repeat split; auto.
      intros [| y a] x b Hx; injection Hx as -> Hx.
      * subst pre. exact E.
      * now apply (Hmin a x b).
Qed.

(** The lookahead of a field succeeds where the label of the next field
    begins. *)
Lemma lookahead_at_label :
  forall next s cap r,
    litMatch true next s = Some r ->
    rmatch (Look (Alt (Seq (StarG isSpace) (Lit true next)) Eos)) s cap
      (fun s' cap' => Some (s', cap')) <> None.
Proof.
  intros next s cap r H N. cbn [rmatch] in N.
  destruct (starG isSpace s cap
              (fun s' cap' =>
                 match litMatch true next s' with
                 | Some s'0 => Some (s'0, cap')
                 | None => None
                 end)) as [[s1 c1] |] eqn:E; [discriminate |].
  apply starG_none in E. rewrite H in E. discriminate.
Qed.

(** The lookahead keeps the capture. *)
Lemma lookahead_cap :
  forall next s cap s1 c1,
    rmatch (Look (Alt (Seq (StarG isSpace) (Lit true next)) Eos)) s cap
      (fun s' cap' => Some (s', cap')) = Some (s1, c1) ->
    c1 = cap.
Proof.
  intros next s cap s1 c1 H. cbn [rmatch] in H.
  destruct (starG isSpace s cap
              (fun s' cap' =>
                 match litMatch true next s' with
                 | Some s'0 => Some (s'0, cap')
                 | None => None
                 end)) as [[s2 c2] |] eqn:E.
  - injection H as _ <-. apply starG_cap in E. destruct E as (s' & E).
    destruct (litMatch true next s'); [| discriminate]. now injection E.
  - destruct s; [| discriminate]. now injection H.
Qed.

(** The capture of a match of a field's expression is a part of what
    follows the label, and holds no label of the next field. *)
Lemma matchAt_field_bounded :
  forall label next s rest cap,
    next <> [] ->
    matchAt (Seq (Lit true label) (Seq (StarG isSpace)
               (Seq (Grp (StarL isDot))
                  (Look (Alt (Seq (StarG isSpace) (Lit true next)) Eos)))))
      s = Some (rest, cap) ->
    exists s1 c,
      litMatch true label s = Some s1
      /\ cap = Some c /\ infixOf c s1 /\ includesCI c next = false.
Proof.
  intros label next s rest cap Hn H. unfold matchAt in H.
  cbn [rmatch] in H.
  destruct (litMatch true label s) as [s1 |]; [| discriminate].
  apply (starG_inv isSpace s1 s1 None _ _ I) in H.
  destruct H as (s2 & cap2 & (q & Hq) & _ & H).
  apply starL_first in H. destruct H as (pre & s' & -> & Hk & Hmin).
  exists s1.
  assert (Hin : infixOf pre s1) by (exists q, s'; exact Hq).
  clear Hq q cap2.
  rewrite firstn_suffix in Hk.
  match type of Hk with
  | match ?X with _ => _ end = _ =>
      destruct X as [[s3 c3] |] eqn:E; [| discriminate Hk]
  end.
  injection Hk as <- <-.
  assert (Hc : c3 = Some pre).
  { apply (lookahead_cap next s' (Some pre) s' c3). cbn [rmatch].
    rewrite E. reflexivity. }
  exists pre. split; [reflexivity |]. split; [exact Hc |].
  split; [exact Hin |].
  clear E Hc. destruct (includesCI pre next) eqn:I; [exfalso | reflexivity].
  assert (Hocc : exists a x b r,
             pre = a ++ x :: b /\ litMatch true next (x :: b) = Some r).
  { clear Hmin Hin. induction pre as [| y pre IHp].
    - cbn [includesCI] in I. destruct next; [congruence | discriminate I].
    - cbn [includesCI] in I.
      destruct (litMatch true next (y :: pre)) as [r |] eqn:L.
      + exists [], y, pre, r. auto.
      + destruct (IHp I) as (a & x & b & r & -> & Hr).
        exists (y :: a), x, b, r. auto. }
  destruct Hocc as (a & x & b & r & Hp & Hr).
  specialize (Hmin a x b Hp).
  apply (litMatch_app _ _ _ _ s') in Hr. cbn [app] in Hr.
  match type of Hmin with
  | match match starG _ _ ?c _ with _ => _ end with _ => _ end = _ =>
      pose proof (lookahead_at_label next (x :: b ++ s') c _ Hr) as Hl
  end.
  cbn [rmatch] in Hl. apply Hl. clear Hl.
  match type of Hmin with
  | match match ?X with _ => _ end with _ => _ end = _ =>
      destruct X as [[s4 c4] |]; [discriminate Hmin | reflexivity]
  end.
Qed.

Lemma exec_matchAt :
  forall r s x, exec r s = Some x -> exists t, matchAt r t = Some x.
Proof.
  intros r s x. induction s as [| c t IH]; cbn [exec]; intros H.
  - destruct (matchAt r []) eqn:E; [| discriminate].
    injection H as ->. eauto.
  - destruct (matchAt r (c :: t)) eqn:E; [injection H as ->; eauto |].
    now apply IH.
Qed.

Lemma orNA_bounded :
  forall label next s,
    str next <> [] ->
    includesCI NA (str next) = false ->
    includesCI (orNA (match1 (reField label next) s)) (str next) = false.
Proof.
  intros label next s Hn HNA. unfold match1.
  destruct (exec (reField label next) s) as [[rest cap] |] eqn:E;
    [| exact HNA].
  apply exec_matchAt in E. destruct E as (t & E).
  apply matchAt_field_bounded in E; [| exact Hn].
  destruct E as (s1 & c & _ & -> & _ & Hc). cbn [orNA].
  destruct (includesCI (trim c) (str next)) eqn:I; [| reflexivity].
  apply includesCI_trim in I. congruence.
Qed.

(** Each field that the expressions read up to the label of the next field
    holds no occurrence of that label, whatever the block is: the lazy
    capture stops at the first place where the next label follows. *)
Theorem fields_stop_at_next_label :
  forall block index,
    Forall (fun p => includesCI (fst p) (snd p) = false)
      (boundedFields (parseBlock block index)).
Proof.
  intros block index. unfold boundedFields, parseBlock.
  cbn [concept keyFeatures targetMarket usp monetization challenges].
  unfold reConcept, reKeyFeatures, reTargetMarket, reUsp, reMonetization,
    reChallenges.
  repeat (apply Forall_cons;
          [cbn [fst snd]; apply orNA_bounded; [discriminate | reflexivity] |]).
  apply Forall_nil.
Qed.

(** *** The names of the records *)



(** *** The frame of the output *)

Lemma renderIdea_frame :
  forall r index,
    exists body,
      renderIdea index r
      = nl ++ (str "**" ++ decimal (index + 1) ++ str ". Idea Name:** ")
        ++ body ++ str "---" ++ nl.
Proof.
  intros r index.
  exists (ideaName r
     ++ nl ++ nl ++ str "  **Concept:** " ++ concept r
     ++ nl ++ nl ++ str "  **Key Features:** " ++ keyFeatures r
     ++ nl ++ nl ++ str "  **Target Market:** " ++ targetMarket r
     ++ nl ++ nl ++ str "  **Unique Value Proposition:** " ++ usp r
     ++ nl ++ nl ++ str "  **Monetization:** " ++ monetization r
     ++ nl ++ nl ++ str "  **Potential Challenges/Considerations:** "
     ++ challenges r
     ++ nl ++ nl ++ str "  **Summary:** " ++ summary r ++ nl ++ nl).
  unfold renderIdea.
  generalize (str "**") (decimal (index + 1)) (str ". Idea Name:** ")
    (str "  **Concept:** ") (str "  **Key Features:** ")
    (str "  **Target Market:** ") (str "  **Unique Value Proposition:** ")
    (str "  **Monetization:** ")
    (str "  **Potential Challenges/Considerations:** ")
    (str "  **Summary:** ") (str "---").
  intros. rewrite <- !app_assoc. reflexivity.
Qed.

Lemma renderIdeas_frame :
  forall rest r index,
    exists body,
      renderIdeas (r :: rest) index
      = nl ++ (str "**" ++ decimal (index + 1) ++ str ". Idea Name:** ")
        ++ body ++ str "---" ++ nl.
Proof.
  induction rest as [| r' rest IH]; intros r index.
  - cbn [renderIdeas]. rewrite app_nil_r. apply renderIdea_frame.
  - change (renderIdeas (r :: r' :: rest) index)
      with (renderIdea index r ++ renderIdeas (r' :: rest) (S index)).
    destruct (IH r' (S index)) as (body' & ->).
    destruct (renderIdea_frame r index) as (body & ->).
    exists (body ++ str "---" ++ nl ++ nl
            ++ (str "**" ++ decimal (S index + 1) ++ str ". Idea Name:** ")
            ++ body').
    generalize (str "**" ++ decimal (index + 1) ++ str ". Idea Name:** ")
      (str "**" ++ decimal (S index + 1) ++ str ". Idea Name:** ")
      (str "---").
    intros. rewrite <- !app_assoc. reflexivity.
Qed.

Lemma trim_between :
  forall m,
    headSolid m = true -> headSolid (rev m) = true ->
    trim (nl ++ m ++ nl) = m.
Proof.
  intros m H1 H2. unfold trim.
  change (nl ++ m ++ nl) with (10%N :: (m ++ nl)).
  cbn [dropWhile]. change (isSpace 10%N) with true. cbv iota.
  destruct m as [| c t]; [reflexivity |].
  rewrite (dropWhile_solid ((c :: t) ++ nl)) by exact H1.
  rewrite rev_app_distr. change (rev nl) with [10%N].
  cbn [app dropWhile]. change (isSpace 10%N) with true. cbv iota.
  rewrite (dropWhile_solid _ H2). apply rev_involutive.
Qed.

Lemma trim_frame :
  forall c h body,
    isSpace c = false ->
    trim (nl ++ (c :: h) ++ body ++ str "---" ++ nl)
    = (c :: h) ++ body ++ str "---".
Proof.
  intros c h body Hc.
  replace (nl ++ (c :: h) ++ body ++ str "---" ++ nl)
    with (nl ++ ((c :: h) ++ body ++ str "---") ++ nl)
    by (now rewrite <- !app_assoc).
  apply trim_between.
  - cbn [app headSolid]. now rewrite Hc.
  - rewrite !app_assoc, rev_app_distr. reflexivity.
Qed.

(** An output of the formatter that is not empty begins with the heading of
    the first idea and ends with the rule that closes the last one. *)
Theorem format_output_frame :
  forall text,
    formatResponse text <> [] ->
    exists body,
      formatResponse text = str "**1. Idea Name:** " ++ body ++ str "---".
Proof.
  intros text H. unfold formatResponse in *.
  destruct (ideaRecords text) as [| r rest]; [now destruct H |].
  destruct (renderIdeas_frame rest r 0) as (body & ->).
  exists body.
  change (str "**" ++ decimal (0 + 1) ++ str ". Idea Name:** ")
    with (42%N :: str "*1. Idea Name:** ").
  rewrite (trim_frame 42%N _ body eq_refl). reflexivity.
Qed.

Lemma format_output_frame_witness :
  exists body,
    formatResponse (str "1. Idea Name: Solar kit Concept: panels")
    = str "**1. Idea Name:** " ++ body ++ str "---".
Proof.
  apply (format_output_frame (str "1. Idea Name: Solar kit Concept: panels")).
  vm_compute. discriminate.
Defined.

(** ** The other routes of the server *)

(** *** The callback of the authorization *)









(** The error page of a failed exchange, and the rejection of a message
    that cannot be encoded. *)
Example oauth2callback_refused :
  oauth2callback refusingOutside (Some (JStr (str "4/0Ab"))) None
  = (Redirect (str "/?auth_error=true&message=invalid_grant%20%26%20more"),
     None).
Proof. vm_compute. reflexivity. Qed.

Example oauth2callback_lone_surrogate :
  oauth2callback
    (mkOutside (fun _ => Throw [55357%N]) (insertEvent refusingOutside)
       lunchWorld (fun _ => None) [])
    (Some (JStr (str "4/0Ab"))) None
  = (Rejected (str "URI malformed"), None).
Proof. vm_compute. reflexivity. Qed.

(** *** The routes of the calendar *)

Lemma checkUserTokens_missing :
  forall userTokens,
    authMissing userTokens = true ->
    checkUserTokens userTokens = inl unauthenticated.
Proof.
  intros [tokens |] H; unfold checkUserTokens; [| reflexivity].
  now rewrite H.
Qed.

Lemma checkUserTokens_present :
  forall tokens,
    authMissing (Some tokens) = false ->
    checkUserTokens (Some tokens) = inr tokens.
Proof. intros tokens H. unfold checkUserTokens. now rewrite H. Qed.

Lemma holds_getProp :
  forall v k,
    truthy v = true ->
    exists o, getProp v (str k) = Normal o /\ truthyOpt o = holds v k.
Proof.
  intros v k T. destruct v; cbn [getProp holds]; eauto; discriminate T.
Qed.

Lemma holds_truthy : forall v k, holds v k = true -> truthy v = true.
Proof. intros v k H. destruct v; try discriminate H; reflexivity. Qed.

(** What the check of the details comes to. *)
Lemma missingDetails_holds :
  forall details,
    truthy details = true ->
    missingDetails details
    = Normal (negb (holds details "summary" && holds details "start"
                    && holds details "end")).
Proof.
  intros details T. unfold missingDetails.
  destruct (holds_getProp details "summary" T) as (o1 & -> & E1).
  destruct (holds_getProp details "start" T) as (o2 & -> & E2).
  destruct (holds_getProp details "end" T) as (o3 & -> & E3).
  cbn [bind]. rewrite E1, E2, E3.
  destruct (holds details "summary"); [| reflexivity].
  destruct (holds details "start"); reflexivity.
Qed.

(** The creation of an event through the route, for a request with an
    access token. A request without a body, where express leaves
    [req.body] undefined, fails in the destructuring before the [try]:
    the promise of the handler is rejected with a TypeError and the
    handler sends nothing. Of a body the route asks for nothing but the
    presence of the details with a truthy summary, start and end: without
    them it answers 400 and the calendar is not called; with them the
    details go to the calendar as they were received, without the defaults
    and the repair of the chat, and the answer is 201 with the event, or
    500 with the message of the error. *)
Theorem postCalendarEvents_validation :
  forall o tokens body,
    authMissing (Some tokens) = false ->
    match body with
    | None =>
        postCalendarEvents o (Some tokens) body
        = Rejected (str "Cannot destructure property 'eventDetails' of 'req.body' as it is undefined.")
    | Some members =>
        if completeDetails members then
          exists details,
            lookupProp members (str "eventDetails") = Some details
            /\ postCalendarEvents o (Some tokens) body
               = match insertEvent o tokens details with
                 | Normal event =>
                     Json 201
                       (createdBody "Event created successfully!" event)
                 | Throw error =>
                     Json 500 (errorBody
                       (str "Failed to create calendar event: " ++ error))
                 end
        else
          postCalendarEvents o (Some tokens) body
          = Json 400 (errorBody
              (str "Missing required event details (summary, start, end)."))
    end.
Proof.
  intros o tokens body H. unfold postCalendarEvents.
  rewrite (checkUserTokens_present tokens H).
  destruct body as [members |]; [| reflexivity].
  cbn [destructure]. unfold completeDetails.
  destruct (lookupProp members (str "eventDetails")) as [details |];
    [| reflexivity].
  destruct (truthy details) eqn:T.
  - cbn [negb]. rewrite (missingDetails_holds details T).
    destruct (holds details "summary" && holds details "start"
              && holds details "end"); cbn [negb]; [| reflexivity].
    exists details. split; [reflexivity |]. unfold createEventData.
    destruct (insertEvent o tokens details); reflexivity.
  - cbn [negb].
    destruct (holds details "summary") eqn:E; [| reflexivity].
    apply holds_truthy in E. congruence.
Qed.

Lemma postCalendarEvents_validation_witness :
  (exists details,
      lookupProp
        [(str "eventDetails",
          JObj [(str "summary", JStr (str "Lunch"));
                (str "start", JObj [(str "dateTime",
                                     JStr (str "20250810T100000-0700"))]);
                (str "end", JObj [])])]
        (str "eventDetails") = Some details
      /\ postCalendarEvents grantingOutside
           (Some (mkTokens (Some (str "ya29.a0")) None None))
           (Some [(str "eventDetails",
                   JObj [(str "summary", JStr (str "Lunch"));
                         (str "start",
                          JObj [(str "dateTime",
                                 JStr (str "20250810T100000-0700"))]);
                         (str "end", JObj [])])])
         = match insertEvent grantingOutside
                   (mkTokens (Some (str "ya29.a0")) None None) details with
           | Normal event =>
               Json 201 (createdBody "Event created successfully!" event)
           | Throw error =>
               Json 500 (errorBody
                 (str "Failed to create calendar event: " ++ error))
           end)
  /\ postCalendarEvents grantingOutside
       (Some (mkTokens (Some (str "ya29.a0")) None None)) None
     = Rejected (str "Cannot destructure property 'eventDetails' of 'req.body' as it is undefined.").
Proof.
  split.
  - apply (postCalendarEvents_validation grantingOutside
             (mkTokens (Some (str "ya29.a0")) None None)
             (Some [(str "eventDetails",
                     JObj [(str "summary", JStr (str "Lunch"));
                           (str "start",
                            JObj [(str "dateTime",
                                   JStr (str "20250810T100000-0700"))]);
                           (str "end", JObj [])])])).
    reflexivity.
  - apply (postCalendarEvents_validation grantingOutside
             (mkTokens (Some (str "ya29.a0")) None None) None).
    reflexivity.
Defined.

(** The routes that list, update and delete events never succeed, and
    never change the store. A request without an access token is answered
    401. With one, an update or a deletion that comes without a body,
    where express leaves [req.body] undefined, fails in the destructuring
    before the [try]: the promise of the handler is rejected and the
    handler sends nothing. Every other request is answered 500 with the
    message of the TypeError of a call of something that is not a
    function, the service behind the routes exporting no function of the
    three names - or 400, when the update names no details. *)
Theorem list_update_delete_never_succeed :
  forall o req store,
    listsOrChanges req = true ->
    snd (handle o req store) = store
    /\ if authMissing store then fst (handle o req store) = unauthenticated
       else if bodyMissing req then
         exists message,
           fst (handle o req store) = Rejected message
           /\ includes message (str "of 'req.body' as it is undefined")
              = true
       else
         exists status message,
           fst (handle o req store) = Json status (errorBody message)
           /\ (status = 400
               \/ status = 500
                  /\ includes message (str " is not a function") = true).
Proof.
  intros o req store H.
  destruct req; try discriminate H; cbn [handle fst snd];
    (split; [reflexivity |]);
    unfold getCalendarEvents, putCalendarEvents, deleteCalendarEvents.
  all: destruct (authMissing store) eqn:A;
    [now rewrite (checkUserTokens_missing store A) |].
  all: destruct store as [tokens |]; [| discriminate A];
    rewrite (checkUserTokens_present tokens A).
  - cbn [bodyMissing]. eexists _, _. split; [reflexivity |].
    right. split; reflexivity.
  - destruct body as [members |]; cbn [bodyMissing destructure].
    + destruct (truthyOpt (lookupProp members (str "updatedEventDetails")));
        cbn [negb]; eexists _, _; (split; [reflexivity |]);
        [right; split; reflexivity | now left].
    + eexists. split; reflexivity.
  - destruct body as [members |]; cbn [bodyMissing destructure].
    + eexists _, _. split; [reflexivity |]. right. split; reflexivity.
    + eexists. split; reflexivity.
Qed.

Lemma list_update_delete_never_succeed_witness :
  (exists message,
      fst (handle grantingOutside (DeleteCalendarEvents (str "e1") None)
             (Some (mkTokens (Some (str "ya29.a0")) None None)))
      = Rejected message
      /\ includes message (str "of 'req.body' as it is undefined") = true)
  /\ exists status message,
       fst (handle grantingOutside (GetCalendarEvents [])
              (Some (mkTokens (Some (str "ya29.a0")) None None)))
       = Json status (errorBody message)
       /\ (status = 400
           \/ status = 500
              /\ includes message (str " is not a function") = true).
Proof.
  split.
  - apply (list_update_delete_never_succeed grantingOutside
             (DeleteCalendarEvents (str "e1") None)
             (Some (mkTokens (Some (str "ya29.a0")) None None))).
    reflexivity.
  - apply (list_update_delete_never_succeed grantingOutside
             (GetCalendarEvents [])
             (Some (mkTokens (Some (str "ya29.a0")) None None))).
    reflexivity.
Defined.

(** *** The server before the authorization *)

Lemma handle_keeps_unauthorized :
  forall o req store,
    authMissing store = true ->
    grantsAccess o req = false ->
    authMissing (snd (handle o req store)) = true
    /\ (isCalendarRequest req = true ->
        fst (handle o req store) = unauthenticated).
Proof.
  intros o req store A G.
  destruct req; cbn [handle fst snd isCalendarRequest];
    try (split; [exact A | discriminate]).
  - split; [| discriminate]. unfold oauth2callback.
    destruct code as [c |]; [| exact A].
    cbn [grantsAccess] in G. destruct (truthy c); [| exact A].
    unfold getTokensFromCode. cbn [andb] in G.
    destruct (getToken o c) as [tokens | error]; cbn [bind].
    + cbn [snd]. now apply negb_false_iff in G.
    + destruct (encodeURIComponent error); exact A.
  - split; [exact A |]. intros _. unfold postCalendarEvents.
    now rewrite (checkUserTokens_missing store A).
  - split; [exact A |]. intros _. unfold getCalendarEvents.
    now rewrite (checkUserTokens_missing store A).
  - split; [exact A |]. intros _. unfold putCalendarEvents.
    now rewrite (checkUserTokens_missing store A).
  - split; [exact A |]. intros _. unfold deleteCalendarEvents.
    now rewrite (checkUserTokens_missing store A).
Qed.

(** Until a callback of the authorization has exchanged a code for tokens
    with an access token, the store holds no access token, and every
    request to a route of the calendar, whatever the requests before it,
    is answered 401 with the invitation to connect the account. *)
Theorem calendar_closed_until_authorized :
  forall trace store,
    authMissing store = true ->
    Forall (fun step => grantsAccess (fst step) (snd step) = false) trace ->
    authMissing (snd (serve trace store)) = true
    /\ Forall2 (fun step reply =>
                  isCalendarRequest (snd step) = true ->
                  reply = unauthenticated)
         trace (fst (serve trace store)).
Proof.
  induction trace as [| [o req] rest IH]; intros store A H.
  - cbn [serve fst snd]. split; [exact A | apply Forall2_nil].
  - apply Forall_cons_iff in H. destruct H as [G H]. cbn [fst snd] in G.
    destruct (handle_keeps_unauthorized o req store A G) as [A' R].
    cbn [serve]. destruct (handle o req store) as [reply store'].
    cbn [fst snd] in A', R.
    destruct (IH store' A' H) as [A'' F].
    destruct (serve rest store') as [replies final].
    cbn [fst snd] in *. split; [exact A'' |].
    apply Forall2_cons; [exact R | exact F].
Qed.

Lemma calendar_closed_until_authorized_witness :
  authMissing
    (snd (serve [(refusingOutside, GetOauth2callback (Some (JStr (str "4/0Ab"))));
                 (refusingOutside, GetCalendarEvents []);
                 (refusingOutside, GetOauth2callback None);
                 (refusingOutside, PostCalendarEvents (Some []))] None)) = true
  /\ Forall2 (fun step reply =>
                isCalendarRequest (snd step) = true ->
                reply = unauthenticated)
       [(refusingOutside, GetOauth2callback (Some (JStr (str "4/0Ab"))));
        (refusingOutside, GetCalendarEvents []);
        (refusingOutside, GetOauth2callback None);
        (refusingOutside, PostCalendarEvents (Some []))]
       (fst (serve [(refusingOutside,
                     GetOauth2callback (Some (JStr (str "4/0Ab"))));
                    (refusingOutside, GetCalendarEvents []);
                    (refusingOutside, GetOauth2callback None);
                    (refusingOutside, PostCalendarEvents (Some []))] None)).
Proof.
  apply (calendar_closed_until_authorized
           [(refusingOutside, GetOauth2callback (Some (JStr (str "4/0Ab"))));
            (refusingOutside, GetCalendarEvents []);
            (refusingOutside, GetOauth2callback None);
            (refusingOutside, PostCalendarEvents (Some []))] None).
  - reflexivity.
  - repeat (apply Forall_cons; [reflexivity |]). apply Forall_nil.
Defined.

(** *** The one store of the tokens *)

Lemma handle_store_kept :
  forall o req store,
    exchanges o req = false -> snd (handle o req store) = store.
Proof.
  intros o req store H. destruct req; cbn [handle snd]; try reflexivity.
  unfold oauth2callback. destruct code as [c |]; [| reflexivity].
  cbn [exchanges] in H. destruct (truthy c); [| reflexivity].
  unfold getTokensFromCode. cbn [andb] in H.
  destruct (getToken o c) as [tokens | error]; [discriminate H |].
  cbn [bind]. destruct (encodeURIComponent error); reflexivity.
Qed.

Lemma serve_store_kept :
  forall trace store,
    Forall (fun step => exchanges (fst step) (snd step) = false) trace ->
    snd (serve trace store) = store.
Proof.
  induction trace as [| [o req] rest IH]; intros store H; [reflexivity |].
  apply Forall_cons_iff in H. destruct H as [E H]. cbn [fst snd] in E.
  pose proof (handle_store_kept o req store E) as K.
  cbn [serve]. destruct (handle o req store) as [reply store'].
  cbn [snd] in K. subst store'. specialize (IH store H).
  destruct (serve rest store) as [replies final]. exact IH.
Qed.

Lemma serve_app :
  forall a b store,
    serve (a ++ b) store
    = (fst (serve a store) ++ fst (serve b (snd (serve a store))),
       snd (serve b (snd (serve a store)))).
Proof.
  induction a as [| [o req] rest IH]; intros b store.
  - cbn [app serve fst snd]. now destruct (serve b store).
  - cbn [app serve]. destruct (handle o req store) as [reply store'].
    rewrite (IH b store').
    destruct (serve rest store') as [replies final]. reflexivity.
Qed.

(** The store is one for all requests: whatever was served before, once a
    callback of the authorization has exchanged a code for tokens, every
    later request, up to the next successful exchange, is handled with
    exactly those tokens. *)
Theorem requests_use_last_exchanged_tokens :
  forall before o1 code tokens between o2 req store,
    truthy code = true ->
    getToken o1 code = Normal tokens ->
    Forall (fun step => exchanges (fst step) (snd step) = false) between ->
    serve (before ++ (o1, GetOauth2callback (Some code)) :: between
           ++ [(o2, req)]) store
    = (fst (serve (before ++ (o1, GetOauth2callback (Some code)) :: between)
              store)
       ++ [fst (handle o2 req (Some tokens))],
       snd (handle o2 req (Some tokens))).
Proof.
  intros before o1 code tokens between o2 req store T G H.
  assert (S1 : snd (serve (before ++ (o1, GetOauth2callback (Some code))
                           :: between) store) = Some tokens).
  { rewrite serve_app. cbn [snd].
    change ((o1, GetOauth2callback (Some code)) :: between)
      with ([(o1, GetOauth2callback (Some code))] ++ between).
    rewrite serve_app. cbn [snd]. rewrite (serve_store_kept between _ H).
    cbn [serve handle]. unfold oauth2callback, getTokensFromCode.
    rewrite T, G. reflexivity. }
  change (before ++ (o1, GetOauth2callback (Some code)) :: between
          ++ [(o2, req)])
    with (before ++ ((o1, GetOauth2callback (Some code)) :: between)
          ++ [(o2, req)]).
  rewrite app_assoc, serve_app, S1. cbn [serve].
  destruct (handle o2 req (Some tokens)) as [reply store']. reflexivity.
Qed.

Lemma requests_use_last_exchanged_tokens_witness :
  serve ([(refusingOutside, PostCalendarEvents (Some []))]
         ++ (grantingOutside, GetOauth2callback (Some (JStr (str "4/0Ab"))))
         :: [(refusingOutside, GetOauth2callback (Some (JStr (str "bad"))))]
         ++ [(grantingOutside, GetCalendarEvents [])]) None
  = (fst (serve ([(refusingOutside, PostCalendarEvents (Some []))]
                 ++ (grantingOutside,
                     GetOauth2callback (Some (JStr (str "4/0Ab"))))
                 :: [(refusingOutside,
                      GetOauth2callback (Some (JStr (str "bad"))))]) None)
     ++ [fst (handle grantingOutside (GetCalendarEvents [])
                (Some (mkTokens (Some (str "ya29.a0")) None None)))],
     snd (handle grantingOutside (GetCalendarEvents [])
            (Some (mkTokens (Some (str "ya29.a0")) None None)))).
Proof.
  apply (requests_use_last_exchanged_tokens
           [(refusingOutside, PostCalendarEvents (Some []))] grantingOutside
           (JStr (str "4/0Ab")) (mkTokens (Some (str "ya29.a0")) None None)
           [(refusingOutside, GetOauth2callback (Some (JStr (str "bad"))))]
           grantingOutside (GetCalendarEvents []) None).
  - reflexivity.
  - reflexivity.
  - apply Forall_cons; [reflexivity | apply Forall_nil].
Defined.

(** *** The configuration sent to the front end *)

Lemma lookupProp_app :
  forall a b k,
    lookupProp (a ++ b) k
    = match lookupProp a k with
      | Some v => Some v
      | None => lookupProp b k
      end.
Proof.
  induction a as [| [k' v] a IH]; intros b k; [reflexivity |].
  cbn [app lookupProp]. destruct (jsstring_eqb k' k); [reflexivity | apply IH].
Qed.

Lemma lookupProp_optProp :
  forall key o k,
    lookupProp (optProp key o) k
    = if jsstring_eqb (str key) k then o else None.
Proof.
  intros key [v |] k; cbn [optProp lookupProp].
  - reflexivity.
  - now destruct (jsstring_eqb (str key) k).
Qed.

Lemma jsstring_eqb_neq : forall a b, a <> b -> jsstring_eqb a b = false.
Proof.
  intros a b H. unfold jsstring_eqb.
  destruct (list_eq_dec N.eq_dec a b); [contradiction | reflexivity].
Qed.

Lemma lookup_config_absent :
  forall (l : list (string * option jsstring)) k,
    ~ In k (map (fun entry => str (fst entry)) l) ->
    lookupProp
      (flat_map (fun entry =>
                   optProp (fst entry) (option_map JStr (snd entry))) l) k
    = None.
Proof.
  induction l as [| e l IH]; intros k H; [reflexivity |].
  cbn [flat_map]. rewrite lookupProp_app, lookupProp_optProp.
  cbn [map In] in H.
  rewrite jsstring_eqb_neq by tauto. apply IH. tauto.
Qed.

Lemma lookup_config_present :
  forall (l : list (string * option jsstring)) e,
    NoDup (map (fun entry => str (fst entry)) l) ->
    In e l ->
    lookupProp
      (flat_map (fun entry =>
                   optProp (fst entry) (option_map JStr (snd entry))) l)
      (str (fst e))
    = option_map JStr (snd e).
Proof.
  induction l as [| e0 l IH]; intros e N H; [destruct H |].
  cbn [map] in N. apply NoDup_cons_iff in N. destruct N as [N0 N].
  cbn [flat_map]. rewrite lookupProp_app, lookupProp_optProp.
  destruct H as [-> | H].
  - rewrite jsstring_eqb_refl.
    destruct (option_map JStr (snd e)); [reflexivity |].
    now apply lookup_config_absent.
  - rewrite jsstring_eqb_neq.
    + now apply IH.
    + intros E. apply N0. rewrite E.
      apply (in_map (fun entry => str (fst entry)) l e H).
Qed.

(** The reply of the configuration route holds a property of the literal
    exactly when its variable of the environment is set, with the value of
    the variable as a string, and holds nothing else. *)
Theorem firebase_config_sent :
  forall o,
    (forall entry,
        In entry (firebaseConfig o) ->
        lookupProp (validConfig o) (str (fst entry))
        = option_map JStr (snd entry))
    /\ (forall k v,
          In (k, v) (validConfig o) ->
          exists entry value,
            In entry (firebaseConfig o) /\ k = str (fst entry)
            /\ snd entry = Some value /\ v = JStr value).
Proof.
  intros o. split.
  - intros entry H. unfold validConfig.
    apply lookup_config_present; [| exact H].
    unfold firebaseConfig, configEntry. cbn [map fst].
    repeat (apply NoDup_cons;
            [cbn [In]; intros C;
             repeat (destruct C as [C | C]; [discriminate C |]); exact C |]).
    apply NoDup_nil.
  - intros k v H. unfold validConfig in H. apply in_flat_map in H.
    destruct H as (entry & Hin & Hk). exists entry.
    destruct (snd entry) as [value |] eqn:E; cbn [option_map optProp In] in Hk;
      [| destruct Hk].
    destruct Hk as [Hk | []]. injection Hk as <- <-.
    exists value. auto.
Qed.

(** ** The formatter: when the output is empty *)

Lemma starG_run :
  forall p pre rest cap k x,
    forallb p pre = true ->
    starG p rest cap k = Some x ->
    starG p (pre ++ rest) cap k = Some x.
Proof.
  induction pre as [| c pre IH]; intros rest cap k x Hp H; [exact H |].
  cbn [forallb] in Hp. apply andb_prop in Hp. destruct Hp as [Hc Hp].
  cbn [app starG]. rewrite Hc. now rewrite (IH rest cap k x Hp H).
Qed.

Lemma starG_split :
  forall p s cap k x,
    starG p s cap k = Some x ->
    exists pre rest,
      s = pre ++ rest /\ forallb p pre = true /\ k rest cap = Some x.
Proof.
  intros p s cap k x. induction s as [| c t IH]; cbn [starG]; intros H.
  - exists [], []. auto.
  - destruct (p c) eqn:Hc; [| exists [], (c :: t); auto].
    destruct (starG p t cap k) as [y |] eqn:E.
    + injection H as ->. destruct (IH eq_refl) as (pre & rest & -> & Hp & Hk).
      exists (c :: pre), rest. cbn [forallb app]. rewrite Hc. auto.
    + exists [], (c :: t). auto.
Qed.

Lemma litMatch_exact :
  forall p s r, litMatch false p s = Some r -> s = p ++ r.
Proof.
  induction p as [| a p IH]; intros s r H; cbn [litMatch] in H.
  - now injection H as ->.
  - destruct s as [| b s]; [discriminate |]. cbn [chr_eqb] in H.
    destruct (a =? b)%N eqn:E; [| discriminate].
    apply N.eqb_eq in E. subst b. cbn [app]. f_equal. now apply IH.
Qed.

(** The expression of the split matches a delimiter at the head of a text,
    all of it and no more. *)
Lemma matchAt_delimiter :
  forall d s, isDelimiter d -> matchAt reIdeaSplit (d ++ s) = Some (s, None).
Proof.
  intros d s (digits & spaces & -> & Hne & Hd & Hs).
  destruct digits as [| c digits]; [congruence |].
  cbn [forallb] in Hd. apply andb_prop in Hd. destruct Hd as [Hc Hd].
  unfold matchAt, reIdeaSplit. rewrite <- !app_assoc.
  cbn [app rmatch]. rewrite Hc.
  apply starG_run; [exact Hd |].
  change (str "." ++ spaces ++ str "Idea Name:" ++ s)
    with (46%N :: (spaces ++ str "Idea Name:" ++ s)).
  cbn [starG]. change (isDigit 46%N) with false. cbv iota.
  change (litMatch false (str ".")
            (46%N :: spaces ++ str "Idea Name:" ++ s))
    with (Some (spaces ++ str "Idea Name:" ++ s)).
  cbv iota. apply starG_run; [exact Hs |].
  change (str "Idea Name:" ++ s) with (73%N :: (str "dea Name:" ++ s)).
  cbn [starG]. change (isSpace 73%N) with false. cbv iota.
  reflexivity.
Qed.

(** What the expression of the split matches at the head of a text is a
    delimiter. *)
Lemma matchAt_delimiter_inv :
  forall s s' cap,
    matchAt reIdeaSplit s = Some (s', cap) ->
    exists d, isDelimiter d /\ s = d ++ s'.
Proof.
  intros s s' cap H. unfold matchAt, reIdeaSplit in H. cbn [rmatch] in H.
  destruct s as [| c t]; [discriminate |].
  destruct (isDigit c) eqn:Hc; [| discriminate].
  apply starG_split in H. destruct H as (digits & r0 & -> & Hd & H).
  destruct (litMatch false (str ".") r0) as [r1 |] eqn:L1; [| discriminate].
  apply litMatch_exact in L1. subst r0.
  apply starG_split in H. destruct H as (spaces & r2 & -> & Hs & H).
  destruct (litMatch false (str "Idea Name:") r2) as [r3 |] eqn:L2;
    [| discriminate].
  apply litMatch_exact in L2. subst r2. injection H as -> _.
  exists ((c :: digits) ++ str "." ++ spaces ++ str "Idea Name:").
  split.
  - exists (c :: digits), spaces. repeat split; [discriminate | | exact Hs].
    cbn [forallb]. now rewrite Hc, Hd.
  - rewrite <- !app_assoc. reflexivity.
Qed.

Lemma isDelimiter_length :
  forall d, isDelimiter d -> exists n, List.length d = S n.
Proof.
  intros d (digits & spaces & -> & Hne & _).
  destruct digits as [| c digits]; [congruence |].
  exists (List.length (digits ++ str "." ++ spaces ++ str "Idea Name:")).
  reflexivity.
Qed.

Lemma split_go_skip :
  forall r a s cur,
    split_go r (a ++ s) (List.length a) cur = split_go r s 0 cur.
Proof.
  intros r a. induction a as [| c a IH]; intros s cur; [reflexivity |].
  cbn [app List.length split_go]. apply IH.
Qed.

(** The first piece of a split begins with the piece being read. *)
Lemma split_go_head :
  forall r s skip cur,
    exists p rest, split_go r s skip cur = (rev cur ++ p) :: rest.
Proof.
  intros r s. induction s as [| c t IH]; intros skip cur.
  - exists [], []. cbn [split_go]. now rewrite app_nil_r.
  - cbn [split_go]. destruct skip as [| n]; [| apply IH].
    destruct (matchAt r (c :: t)) as [[s' cap] |].
    + destruct (List.length (c :: t) - List.length s') as [| n].
      * destruct cur as [| x cur].
        -- destruct (IH 0 [c]) as (p & rest & ->).
           exists (rev [c] ++ p), rest. reflexivity.
        -- eexists [], _. rewrite app_nil_r. reflexivity.
      * eexists [], _. rewrite app_nil_r. reflexivity.
    + destruct (IH 0 (c :: cur)) as (p & rest & ->).
      exists (c :: p), rest. cbn [rev]. now rewrite <- app_assoc.
Qed.

Lemma space_not_digit : forall c, isSpace c = true -> isDigit c = false.
Proof.
  intros c H. unfold isDigit. destruct (48 <=? c)%N eqn:A; [| reflexivity].
  destruct (c <=? 57)%N eqn:B; [| reflexivity].
  apply N.leb_le in A. apply N.leb_le in B. exfalso.
  unfold isSpace in H.
  repeat (apply orb_true_iff in H; destruct H as [H | H]);
    try (apply andb_prop in H; destruct H as [H1 H2];
         apply N.leb_le in H1; apply N.leb_le in H2; lia);
    apply N.eqb_eq in H; lia.
Qed.

Lemma forallb_rev :
  forall (p : char -> bool) s, forallb p (rev s) = forallb p s.
Proof.
  intros p s. induction s as [| c s IH]; [reflexivity |].
  cbn [rev forallb]. rewrite forallb_app, IH. cbn [forallb].
  rewrite andb_true_r. apply andb_comm.
Qed.

(** A text of delimiters and white space is split into blank pieces. *)
Lemma split_go_delimitersOnly :
  forall s,
    delimitersOnly s ->
    forall cur,
      forallb isSpace cur = true ->
      Forall (fun piece => forallb isSpace piece = true)
        (split_go reIdeaSplit s 0 cur).
Proof.
  intros s H. induction H as [| c s Hc _ IH | d s Hd _ IH]; intros cur Hcur.
  - cbn [split_go]. apply Forall_cons; [| apply Forall_nil].
    now rewrite forallb_rev.
  - cbn [split_go].
    assert (M : matchAt reIdeaSplit (c :: s) = None).
    { unfold matchAt, reIdeaSplit. cbn [rmatch].
      now rewrite (space_not_digit c Hc). }
    rewrite M. apply IH. cbn [forallb]. now rewrite Hc, Hcur.
  - pose proof (matchAt_delimiter d s Hd) as M.
    destruct (isDelimiter_length d Hd) as (n & Hn).
    destruct d as [| x d']; [discriminate Hn |].
    cbn [app] in *. cbn [split_go]. rewrite M.
    replace (List.length (x :: d' ++ s) - List.length s) with (S n)
      by (cbn [List.length] in *; rewrite length_app; lia).
    apply Forall_cons; [now rewrite forallb_rev |].
    replace n with (List.length d') by (cbn [List.length] in Hn; lia).
    rewrite split_go_skip. now apply IH.
Qed.

(** A text that is split into blank pieces is made of delimiters and
    white space. *)
Lemma split_go_blank :
  forall s skip cur,
    Forall (fun piece => forallb isSpace piece = true)
      (split_go reIdeaSplit s skip cur) ->
    delimitersOnly (skipn skip s).
Proof.
  induction s as [| c t IH]; intros skip cur H.
  - rewrite skipn_nil. apply DelimitersOnly_nil.
  - cbn [split_go] in H. destruct skip as [| n].
    2:{ cbn [skipn]. now apply (IH n cur). }
    cbn [skipn].
    destruct (matchAt reIdeaSplit (c :: t)) as [[s' cap] |] eqn:M.
    + destruct (matchAt_delimiter_inv _ _ _ M) as (d & Hd & E).
      destruct (isDelimiter_length d Hd) as (n & Hn).
      rewrite E in H at 1. rewrite length_app, Hn in H.
      replace (S n + List.length s' - List.length s') with (S n) in H
        by lia.
      apply Forall_cons_iff in H. destruct H as [_ H].
      apply IH in H. rewrite E.
      destruct d as [| x d']; [discriminate Hn |].
      cbn [app] in E. injection E as -> ->.
      replace n with (List.length d') in H
        by (cbn [List.length] in Hn; lia).
      rewrite skipn_app, skipn_all, Nat.sub_diag in H. cbn [app skipn] in H.
      now apply DelimitersOnly_delimiter.
    + destruct (split_go_head reIdeaSplit t 0 (c :: cur))
        as (p & rest & E).
      pose proof H as H'. rewrite E in H'.
      apply Forall_cons_iff in H'. destruct H' as [Hp _].
      cbn [rev] in Hp. rewrite !forallb_app in Hp. cbn [forallb] in Hp.
      apply andb_prop in Hp. destruct Hp as [Hp _].
      apply andb_prop in Hp. destruct Hp as [_ Hc].
      apply andb_prop in Hc. destruct Hc as [Hc _].
      apply DelimitersOnly_space; [exact Hc |].
      apply (IH 0 (c :: cur)) in H. exact H.
Qed.

Lemma isBlank_spaces :
  forall s, isBlank s = true <-> forallb isSpace s = true.
Proof.
  intros s. unfold isBlank. split.
  - intros H. apply trim_nil_spaces. now destruct (trim s).
  - intros H. now rewrite (trim_spaces_nil s H).
Qed.

Lemma filter_nil_iff :
  forall (A : Type) (p : A -> bool) l,
    filter p l = [] <-> Forall (fun x => p x = false) l.
Proof.
  intros A p l. induction l as [| x l IH]; cbn [filter].
  - split; [intros _; apply Forall_nil | reflexivity].
  - destruct (p x) eqn:E.
    + split; [discriminate |]. intros H. apply Forall_cons_iff in H.
      destruct H as [H _]. congruence.
    + rewrite IH. split.
      * intros H. now apply Forall_cons.
      * intros H. apply Forall_cons_iff in H. tauto.
Qed.

Lemma ideaBlocks_nil_iff :
  forall text, ideaBlocks text = [] <-> delimitersOnly (cleanText text).
Proof.
  intros text. unfold ideaBlocks. rewrite filter_nil_iff.
  assert (B : forall l,
             Forall (fun x => negb (isBlank x) = false) l
             <-> Forall (fun piece => forallb isSpace piece = true) l).
  { intros l. rewrite !Forall_forall. split; intros H x Hx.
    - apply isBlank_spaces. specialize (H x Hx).
      now apply negb_false_iff in H.
    - apply negb_false_iff, isBlank_spaces. now apply H. }
  rewrite B. destruct (cleanText text) as [| c t] eqn:E.
  - split; [intros _; apply DelimitersOnly_nil |].
    intros _. cbn. apply Forall_cons; [reflexivity | apply Forall_nil].
  - unfold split. split.
    + intros H. apply split_go_blank in H. exact H.
    + intros H. now apply split_go_delimitersOnly.
Qed.

(** White space and delimiters with no delimiter is white space. *)
Lemma delimitersOnly_spaces :
  forall s,
    delimitersOnly s ->
    (forall a d b, s = a ++ d ++ b -> ~ isDelimiter d) ->
    forallb isSpace s = true.
Proof.
  intros s H. induction H as [| c s Hc _ IH | d s Hd _ _]; intros N.
  - reflexivity.
  - cbn [forallb]. rewrite Hc. apply IH.
    intros a d b E. apply (N (c :: a) d b). now rewrite E.
  - exfalso. apply (N [] d s); [reflexivity | exact Hd].
Qed.

Lemma collapse_spaces :
  forall s b, forallb isSpace (collapse s b) = forallb isSpace s.
Proof.
  induction s as [| c t IH]; intros b; [reflexivity |].
  cbn [collapse forallb]. destruct (isSpace c) eqn:E.
  - destruct b; [apply IH |]. cbn [forallb].
    change (isSpace 32%N) with true. apply IH.
  - cbn [forallb]. now rewrite E.
Qed.

(** The normalized text is empty exactly when the text is blank. *)
Lemma cleanText_nil_iff :
  forall text, cleanText text = [] <-> forallb isSpace text = true.
Proof.
  intros text. rewrite cleanText_collapse.
  rewrite <- (collapse_spaces text false). split.
  - apply trim_nil_spaces.
  - apply trim_spaces_nil.
Qed.

(** C4 (amended): the output of the formatter is empty exactly when the
    white-space-normalized text is made of delimiters - digits, a period,
    white space or none, the label of the name - and of white space
    between them, and of nothing else; the empty text is the first case.
    So for a text in which no delimiter occurs, which is a text without a
    recognizable label, the output is empty only when the normalized text
    is empty, and that is when the text is blank: a text without a
    recognizable label that is not blank is formatted to a text that is
    not empty. *)
Theorem format_empty_iff_delimiters_only :
  forall text,
    (formatResponse text = [] <-> delimitersOnly (cleanText text))
    /\ ((forall a d b, cleanText text = a ++ d ++ b -> ~ isDelimiter d) ->
        (formatResponse text = [] <-> cleanText text = []))
    /\ (cleanText text = [] <-> forallb isSpace text = true).
Proof.
  intros text.
  assert (E : formatResponse text = [] <-> delimitersOnly (cleanText text)).
  { rewrite format_empty_iff_no_blocks. apply ideaBlocks_nil_iff. }
  split; [exact E |]. split; [| apply cleanText_nil_iff].
  intros N. rewrite E. split.
  - intros H. pose proof (delimitersOnly_spaces _ H N) as Hs.
    pose proof (trim_headSolid (replaceAll reWhitespaceRun (str " ") text))
      as Hh.
    fold (cleanText text) in Hh.
    destruct (cleanText text) as [| c t]; [reflexivity |].
    cbn [forallb] in Hs. apply andb_prop in Hs. destruct Hs as [Hc _].
    cbn [headSolid] in Hh. rewrite Hc in Hh. discriminate.
  - intros ->. apply DelimitersOnly_nil.
Qed.

Lemma format_empty_iff_delimiters_only_witness :
  delimitersOnly (cleanText (str " 1. Idea Name:  12.Idea Name: "))
  /\ (formatResponse (str "hello") = [] <-> cleanText (str "hello") = []).
Proof.
  split.
  - apply (format_empty_iff_delimiters_only
             (str " 1. Idea Name:  12.Idea Name: ")).
    vm_compute. reflexivity.
  - apply (format_empty_iff_delimiters_only (str "hello")).
    intros a d b E (digits & spaces & -> & _).
    assert (H : In 46%N (cleanText (str "hello"))).
    { rewrite E. apply in_or_app. right. apply in_or_app. left.
      apply in_or_app. right. left. reflexivity. }
    vm_compute in H. intuition discriminate.
Defined.
